(** * gemini-mcp: conversation library, tool handlers and session lifecycle

    A shallow embedding of [src/library/conversation-library.ts],
    [src/tools/handlers.ts], [src/resources/resource-handlers.ts] and
    [src/config.ts], together with the session manager and the cleanup
    manager, followed by the properties proved about them. *)

From Stdlib Require Import ZArith Ascii String DecimalString DecimalNat.
From stdpp Require Import base option list strings gmap.

Local Open Scope string_scope.

(** ** JavaScript strings

    A string is a sequence of UTF-16 code units; the model keeps the code
    units below 256, one [ascii] each. *)

Module JS.

Definition code (c : ascii) : nat := nat_of_ascii c.

Definition between (lo hi : nat) (c : ascii) : bool :=
  (lo <=? code c)%nat && (code c <=? hi)%nat.

(** [String.prototype.toLowerCase] on strings of code units below 256, which
    are the strings of this development. There it works one code unit at a
    time, on A-Z and the Latin-1 capitals (U+00C0 to U+00DE, the
    multiplication sign apart); beyond Latin-1 it does not (a capital sigma
    is lowered according to its place in the word). *)
Definition lower_char (c : ascii) : ascii :=
  if between 65 90 c || (between 192 222 c && negb (code c =? 215)%nat)
  then ascii_of_nat (code c + 32)
  else c.

Fixpoint toLowerCase (s : string) : string :=
  match s with
  | EmptyString => EmptyString
  | String c s' => String (lower_char c) (toLowerCase s')
  end.

(** [String.prototype.includes]. *)
Fixpoint includes (s pat : string) : bool :=
  String.prefix pat s ||
  match s with
  | EmptyString => false
  | String _ s' => includes s' pat
  end.

(** WhiteSpace and LineTerminator code units: TAB, LF, VT, FF, CR, SP and
    NBSP. *)
Definition is_space (c : ascii) : bool :=
  between 9 13 c || (code c =? 32)%nat || (code c =? 160)%nat.

Definition is_empty (s : string) : bool :=
  match s with EmptyString => true | String _ _ => false end.

(** [String.prototype.trimEnd]. *)
Fixpoint trimEnd (s : string) : string :=
  match s with
  | EmptyString => EmptyString
  | String c s' =>
      let t := trimEnd s' in
      if is_space c && is_empty t then EmptyString else String c t
  end.

(** [String.prototype.trimStart] and [trim]. *)
Fixpoint trimStart (s : string) : string :=
  match s with
  | EmptyString => EmptyString
  | String c s' => if is_space c then trimStart s' else s
  end.

Definition trim (s : string) : string := trimEnd (trimStart s).

(** [String.prototype.substring(0, n)]. *)
Fixpoint take (n : nat) (s : string) : string :=
  match n, s with
  | S n', String c s' => String c (take n' s')
  | _, _ => EmptyString
  end.

(** Truthiness of an optional string: [undefined] and the empty string are
    falsy. *)
Definition truthy (x : option string) : bool :=
  match x with
  | Some s => negb (is_empty s)
  | None => false
  end.

(** [x || d] on strings. *)
Definition or_else (x : option string) (d : string) : string :=
  if truthy x then default d x else d.

(** Template-literal rendering of a non-negative integer. *)
Definition of_nat (n : nat) : string := NilEmpty.string_of_uint (Nat.to_uint n).

Definition is_digit (c : ascii) : bool := between 48 57 c.

(** The value of the longest prefix of decimal digits, and whether there
    was one. *)
Fixpoint digits (acc : Z) (seen : bool) (s : string) : option Z :=
  match s with
  | String c s' =>
      if is_digit c
      then digits (10 * acc + Z.of_nat (code c - 48)) true s'
      else if seen then Some acc else None
  | EmptyString => if seen then Some acc else None
  end.

(** The Number values an integer computation reaches: the integers a
    double holds, negative zero and the two infinities. NaN is kept apart,
    as [None]. *)
Inductive number :=
| Finite (z : Z)
| NegativeZero
| Infinity (negative : bool).

(** The double nearest to a natural number [m]: [m] itself below 2^53, and
    from there on [m] cut to its 53 leading bits, rounded to nearest, ties
    to the even significand. *)
Definition round53 (m : Z) : Z :=
  if (m <? 2 ^ 53)%Z then m
  else
    let e := (Z.log2 m - 52)%Z in
    let q := Z.shiftr m e in
    let r := Z.land m (Z.ones e) in
    let half := (2 ^ (e - 1))%Z in
    let up := (half <? r)%Z || ((r =? half)%Z && Z.odd q) in
    Z.shiftl (if up then q + 1 else q)%Z e.

(** [Number.MAX_SAFE_INTEGER], 2^53 - 1. *)
Definition MAX_SAFE_INTEGER : Z := 9007199254740991.

(** The Number value of the integer of magnitude [m] and the given sign:
    the nearest double, an infinity from 2^1024 on. *)
Definition to_number (negative : bool) (m : Z) : number :=
  let v := round53 m in
  if (2 ^ 1024 <=? v)%Z then Infinity negative
  else if negative then (if (v =? 0)%Z then NegativeZero else Finite (- v))
  else Finite v.

(** [Number.parseInt(s, 10)]; [None] is NaN. Leading white space is
    skipped, one sign is read, then the longest run of digits, whose value
    becomes a Number. *)
Definition parseInt (s : string) : option number :=
  match trimStart s with
  | String "-" s' => to_number true <$> digits 0 false s'
  | String "+" s' => to_number false <$> digits 0 false s'
  | s' => to_number false <$> digits 0 false s'
  end.

(** [a + b] on counts: the double nearest to the sum. Counts are natural
    numbers; sums from 2^1024 on, which are Infinity, are not modelled. *)
Definition plus (a b : nat) : nat :=
  Z.to_nat (round53 (Z.of_nat a + Z.of_nat b)).

(** Every code unit is white space. *)
Fixpoint all_space (s : string) : bool :=
  match s with
  | EmptyString => true
  | String c s' => is_space c && all_space s'
  end.

(** The last code unit is white space. *)
Fixpoint ends_with_space (s : string) : bool :=
  match s with
  | EmptyString => false
  | String c EmptyString => is_space c
  | String _ s' => ends_with_space s'
  end.

(** [s.split(",")]. *)
Fixpoint split_comma (cur : string) (s : string) : list string :=
  match s with
  | EmptyString => [cur]
  | String c s' =>
      if (code c =? 44)%nat
      then cur :: split_comma EmptyString s'
      else split_comma (cur +:+ String c EmptyString) s'
  end.

(** [String.prototype.slice(n)] for [n] within the string. *)
Fixpoint drop (n : nat) (s : string) : string :=
  match n, s with
  | S n', String _ s' => drop n' s'
  | _, _ => s
  end.

(** Every code unit satisfies [f]. *)
Fixpoint all (f : ascii -> bool) (s : string) : bool :=
  match s with
  | EmptyString => true
  | String c s' => f c && all f s'
  end.

(** The first code unit is white space. *)
Definition starts_with_space (s : string) : bool :=
  match s with
  | EmptyString => false
  | String c _ => is_space c
  end.

(** [l.join(sep)] *)
Fixpoint join (sep : string) (l : list string) : string :=
  match l with
  | [] => EmptyString
  | [x] => x
  | x :: rest => x +:+ sep +:+ join sep rest
  end.

End JS.

(** ** Thrown values

    What a [catch] clause can receive: an [Error] object of some class with
    its message, or any other value, kept as its [String(v)] rendering. The
    classes are the ones the handlers tell apart and the error kinds of the
    session, authentication and cleanup components. *)

Inductive ErrorClass :=
| PlainError
| RateLimitError
| TypeError
| ResourceExhausted
| NotFound
| Timeout
| AuthenticationRequired
| LockConflict
| IOFailure.

Inductive Thrown :=
| ThrownError (cls : ErrorClass) (message : string)
| ThrownValue (rendering : string).

(** [error instanceof Error ? error.message : String(error)] *)
Definition error_message (e : Thrown) : string :=
  match e with
  | ThrownError _ m => m
  | ThrownValue r => r
  end.

(** [error instanceof RateLimitError] *)
Definition instanceof_RateLimitError (e : Thrown) : bool :=
  match e with
  | ThrownError RateLimitError _ => true
  | _ => false
  end.

(** A computation over a mutable state [W] that returns or throws. *)
Definition Eff (W A : Type) : Type := W -> (Thrown + A) * W.

Definition ret {W A} (a : A) : Eff W A := fun w => (inr a, w).
Definition throw {W A} (e : Thrown) : Eff W A := fun w => (inl e, w).
Definition bind {W A B} (m : Eff W A) (k : A -> Eff W B) : Eff W B :=
  fun w =>
    match m w with
    | (inr a, w') => k a w'
    | (inl e, w') => (inl e, w')
    end.
Definition get {W} : Eff W W := fun w => (inr w, w).
Definition put {W} (w : W) : Eff W unit := fun _ => (inr tt, w).
Definition try_catch {W A} (m : Eff W A) (h : Thrown -> Eff W A) : Eff W A :=
  fun w =>
    match m w with
    | (inr a, w') => (inr a, w')
    | (inl e, w') => h e w'
    end.

Declare Scope eff_scope.
Delimit Scope eff_scope with eff.
Notation "x <- m ;; k" := (bind m (fun x => k))
  (at level 100, m at next level, right associativity) : eff_scope.
Notation "m ;;; k" := (bind m (fun _ => k))
  (at level 100, right associativity) : eff_scope.

(** ** Library types ([src/library/types.ts])

    [use_count] is a count: it starts at 0 and grows by uses. It is a
    Number all the same, and is added as one ([JS.plus]). *)

Module Entry.
Record t := mk {
  id : string;
  url : string;
  name : string;
  description : string;
  topics : list string;
  content_types : list string;
  use_cases : list string;
  added_at : string;
  last_used : string;
  use_count : nat;
  tags : option (list string);
}.
End Entry.

Module Library.
Record t := mk {
  conversations : list Entry.t;
  active_conversation_id : option string;
  last_modified : string;
  version : string;
}.
End Library.

Record AddConversationInput := {
  add_url : string;
  add_name : string;
  add_description : string;
  add_topics : list string;
  add_content_types : option (list string);
  add_use_cases : option (list string);
  add_tags : option (list string);
}.

Record UpdateConversationInput := {
  upd_id : string;
  upd_name : option string;
  upd_description : option string;
  upd_topics : option (list string);
  upd_content_types : option (list string);
  upd_use_cases : option (list string);
  upd_tags : option (list string);
  upd_url : option string;
}.

(** What a library call finds outside the program: the clock, and whether
    [fs.writeFileSync] succeeds ([None]) or throws. *)
Record IO := {
  now : string;
  write_error : option Thrown;
}.

(** ** ConversationLibrary ([src/library/conversation-library.ts]) *)

Module ConversationLibrary.

Import Library.

Definition ids (l : Library.t) : list string := Entry.id <$> conversations l.

Definition with_conversations (cs : list Entry.t) (l : Library.t) : Library.t :=
  Library.mk cs (active_conversation_id l) (last_modified l) (version l).

Definition with_active (a : option string) (l : Library.t) : Library.t :=
  Library.mk (conversations l) a (last_modified l) (version l).

Definition with_last_modified (m : string) (l : Library.t) : Library.t :=
  Library.mk (conversations l) (active_conversation_id l) m (version l).

(** [createDefaultLibrary] when CONFIG names no conversation. *)
Definition emptyLibrary (io : IO) : Library.t :=
  Library.mk [] None (now io) "1.0.0".

(** [saveLibrary(library)]: stamps and writes [library]; only a successful
    write makes it the new [this.library]. *)
Definition saveLibrary (io : IO) (library : Library.t) : Eff Library.t unit :=
  fun this =>
    match write_error io with
    | Some err => (inl err, this)
    | None => (inr tt, with_last_modified (now io) library)
    end.

Definition is_alnum (c : ascii) : bool := JS.between 97 122 c || JS.between 48 57 c.

(** [.replace(/[^a-z0-9]+/g, "-")] *)
Fixpoint dash_runs (in_run : bool) (s : string) : string :=
  match s with
  | EmptyString => EmptyString
  | String c s' =>
      if is_alnum c then String c (dash_runs false s')
      else if in_run then dash_runs true s'
      else String "-" (dash_runs true s')
  end.

Definition is_dash (c : ascii) : bool := (JS.code c =? 45)%nat.

Fixpoint drop_leading_dashes (s : string) : string :=
  match s with
  | EmptyString => EmptyString
  | String c s' => if is_dash c then drop_leading_dashes s' else s
  end.

Fixpoint drop_trailing_dashes (s : string) : string :=
  match s with
  | EmptyString => EmptyString
  | String c s' =>
      let t := drop_trailing_dashes s' in
      if is_dash c && JS.is_empty t then EmptyString else String c t
  end.

(** [.replace(/^-+|-+$/g, "")] *)
Definition strip_dashes (s : string) : string :=
  drop_trailing_dashes (drop_leading_dashes s).

Definition slug (name : string) : string :=
  JS.take 30 (strip_dashes (dash_runs false (JS.toLowerCase name))).

(** The id tried when [counter] has reached [S k]: [base] first, then
    [base-1], [base-2], ... *)
Definition candidate (base : string) (k : nat) : string :=
  match k with
  | O => base
  | S _ => base +:+ "-" +:+ JS.of_nat k
  end.

(** The uniqueness loop of [generateId]; [None] when [fuel] iterations were
    not enough to leave it. *)
Fixpoint generateId_loop (fuel : nat) (taken : list string) (base : string)
    (id : string) (counter : nat) : option string :=
  match fuel with
  | O => None
  | S fuel' =>
      if bool_decide (id ∈ taken)
      then generateId_loop fuel' taken base (base +:+ "-" +:+ JS.of_nat counter) (S counter)
      else Some id
  end.

Definition generateId (this : Library.t) (name : string) : option string :=
  let base := slug name in
  generateId_loop (S (length (conversations this))) (ids this) base base 1.

Definition newEntry (io : IO) (id : string) (input : AddConversationInput) : Entry.t :=
  Entry.mk id (add_url input) (add_name input) (add_description input)
    (add_topics input)
    (default ["documentation"; "examples"] (add_content_types input))
    (default ["Learning about " +:+ add_name input;
              "Implementing features with " +:+ add_name input]
       (add_use_cases input))
    (now io) (now io) 0
    (Some (default [] (add_tags input))).

(** [addConversation(input)]. [updated] is a shallow copy, so
    [updated.conversations] is the array of [this.library]: the push is
    visible in [this.library] before the save is tried. [None] stands for
    an id search that does not come back. *)
Definition addConversation (io : IO) (input : AddConversationInput)
    (this : Library.t) : option ((Thrown + Entry.t) * Library.t) :=
  id ← generateId this (add_name input);
  let conversation := newEntry io id input in
  let pushed := with_conversations (conversations this ++ [conversation]) this in
  let updated :=
    if (length (conversations pushed) =? 1)%nat
    then with_active (Some id) pushed else pushed in
  Some (bind (saveLibrary io updated) (fun _ => ret conversation) pushed).

Definition listConversations (this : Library.t) : list Entry.t := conversations this.

Definition find_by_id (id : string) (this : Library.t) : option (nat * Entry.t) :=
  list_find (fun n => Entry.id n = id) (conversations this).

(** [getConversation(id)] *)
Definition getConversation (id : string) (this : Library.t) : option Entry.t :=
  snd <$> find_by_id id this.

(** [getActiveConversation()]: a falsy active id gives [null]. *)
Definition getActiveConversation (this : Library.t) : option Entry.t :=
  if JS.truthy (active_conversation_id this)
  then a ← active_conversation_id this; getConversation a this
  else None.

Definition not_found (id : string) : Thrown :=
  ThrownError PlainError ("Conversation not found: " +:+ id).

Definition touch (io : IO) (n : Entry.t) : Entry.t :=
  Entry.mk (Entry.id n) (Entry.url n) (Entry.name n) (Entry.description n)
    (Entry.topics n) (Entry.content_types n) (Entry.use_cases n)
    (Entry.added_at n) (now io) (Entry.use_count n) (Entry.tags n).

(** [selectConversation(id)]: the entry is rewritten in the shared array,
    the active id only in the copy that is saved. *)
Definition selectConversation (io : IO) (id : string) : Eff Library.t Entry.t :=
  fun this =>
    match find_by_id id this with
    | None => (inl (not_found id), this)
    | Some (index, conversation) =>
        let entry := touch io conversation in
        let written := with_conversations (<[index := entry]> (conversations this)) this in
        let updated := with_active (Some id) written in
        bind (saveLibrary io updated) (fun _ => ret entry) written
    end.

Definition merge (input : UpdateConversationInput) (n : Entry.t) : Entry.t :=
  Entry.mk (Entry.id n)
    (JS.or_else (upd_url input) (Entry.url n))
    (JS.or_else (upd_name input) (Entry.name n))
    (JS.or_else (upd_description input) (Entry.description n))
    (default (Entry.topics n) (upd_topics input))
    (default (Entry.content_types n) (upd_content_types input))
    (default (Entry.use_cases n) (upd_use_cases input))
    (Entry.added_at n) (Entry.last_used n) (Entry.use_count n)
    (match upd_tags input with Some ts => Some ts | None => Entry.tags n end).

(** [updateConversation(input)] *)
Definition updateConversation (io : IO) (input : UpdateConversationInput)
    : Eff Library.t Entry.t :=
  fun this =>
    match find_by_id (upd_id input) this with
    | None => (inl (not_found (upd_id input)), this)
    | Some (index, conversation) =>
        let entry := merge input conversation in
        let written := with_conversations (<[index := entry]> (conversations this)) this in
        bind (saveLibrary io written) (fun _ => ret entry) written
    end.

(** [removeConversation(id)]: [filter] builds a new array, so nothing
    changes unless the save succeeds. *)
Definition removeConversation (io : IO) (id : string) : Eff Library.t bool :=
  fun this =>
    match getConversation id this with
    | None => (inr false, this)
    | Some _ =>
        let remaining := filter (fun n => Entry.id n ≠ id) (conversations this) in
        let filtered := with_conversations remaining this in
        let updated :=
          if bool_decide (active_conversation_id this = Some id)
          then with_active (Entry.id <$> head remaining) filtered
          else filtered in
        bind (saveLibrary io updated) (fun _ => ret true) this
    end.

Definition used (io : IO) (n : Entry.t) : Entry.t :=
  Entry.mk (Entry.id n) (Entry.url n) (Entry.name n) (Entry.description n)
    (Entry.topics n) (Entry.content_types n) (Entry.use_cases n)
    (Entry.added_at n) (now io) (JS.plus (Entry.use_count n) 1) (Entry.tags n).

(** [incrementUseCount(id)] *)
Definition incrementUseCount (io : IO) (id : string)
    : Eff Library.t (option Entry.t) :=
  fun this =>
    match find_by_id id this with
    | None => (inr None, this)
    | Some (conversationIndex, conversation) =>
        let updatedConversation := used io conversation in
        let written :=
          with_conversations (<[conversationIndex := updatedConversation]> (conversations this)) this in
        bind (saveLibrary io written) (fun _ => ret (Some updatedConversation)) written
    end.

(** One call of a public mutating operation. *)
Inductive step : Library.t -> Library.t -> Prop :=
| step_add io input this r this' :
    addConversation io input this = Some (r, this') -> step this this'
| step_select io id this r this' :
    selectConversation io id this = (r, this') -> step this this'
| step_update io input this r this' :
    updateConversation io input this = (r, this') -> step this this'
| step_remove io id this r this' :
    removeConversation io id this = (r, this') -> step this this'
| step_increment io id this r this' :
    incrementUseCount io id this = (r, this') -> step this this'.

(** The states a library that started empty can be in. *)
Inductive reachable : Library.t -> Prop :=
| reachable_init io : reachable (emptyLibrary io)
| reachable_step this this' : reachable this -> step this this' -> reachable this'.

(** The active id is null or names a listed conversation. *)
Definition active_ok (l : Library.t) : Prop :=
  match active_conversation_id l with
  | None => True
  | Some a => a ∈ ids l
  end.

(** Distinct ids and a listed active id: kept by every public operation. *)
Definition library_ok (this : Library.t) : Prop := NoDup (ids this) ∧ active_ok this.

(** [LibraryStats] of [src/library/types.ts]. *)
Record LibraryStats := {
  total_conversations : nat;
  active_conversation : option string;
  most_used_conversation : option string;
  total_queries : nat;
  stats_last_modified : string;
}.

(** The reducer of [mostUsed]:
    [n.use_count > (max?.use_count || 0) ? n : max]. *)
Definition more_used (max : option Entry.t) (n : Entry.t) : option Entry.t :=
  if (from_option Entry.use_count 0 max <? Entry.use_count n)%nat then Some n else max.

Definition mostUsed (this : Library.t) : option Entry.t :=
  foldl more_used None (conversations this).

Definition totalQueries (this : Library.t) : nat :=
  foldl (fun sum n => JS.plus sum (Entry.use_count n)) 0 (conversations this).

(** [getStats()]; [mostUsed?.id || null] turns an empty id into [null]. *)
Definition getStats (this : Library.t) : LibraryStats :=
  {| total_conversations := length (conversations this);
     active_conversation := active_conversation_id this;
     most_used_conversation :=
       n ← mostUsed this;
       if JS.is_empty (Entry.id n) then None else Some (Entry.id n);
     total_queries := totalQueries this;
     stats_last_modified := last_modified this |}.

(** The filter of [searchConversations], on the lower-cased query. *)
Definition hit (lowerQuery : string) (n : Entry.t) : bool :=
  JS.includes (JS.toLowerCase (Entry.name n)) lowerQuery
  || JS.includes (JS.toLowerCase (Entry.description n)) lowerQuery
  || existsb (fun t => JS.includes (JS.toLowerCase t) lowerQuery) (Entry.topics n)
  || from_option (existsb (fun t => JS.includes (JS.toLowerCase t) lowerQuery)) false
       (Entry.tags n).

(** [searchConversations(query)] *)
Definition searchConversations (query : string) (this : Library.t) : list Entry.t :=
  let lowerQuery := JS.toLowerCase query in
  filter (fun n => hit lowerQuery n = true) (conversations this).

End ConversationLibrary.

(** ** Configuration ([src/config.ts]) *)

Module Config.

Local Open Scope Z_scope.

(** An integer literal stands for the Number of that value. *)
Local Coercion JS.Finite : Z >-> JS.number.

Record t := mk {
  geminiUrl : string;
  headless : bool;
  browserTimeout : JS.number;
  viewport : Z * Z;
  maxSessions : JS.number;
  sessionTimeout : JS.number;
  autoLoginEnabled : bool;
  loginEmail : string;
  loginPassword : string;
  autoLoginTimeoutMs : JS.number;
  stealthEnabled : bool;
  stealthRandomDelays : bool;
  stealthHumanTyping : bool;
  stealthMouseMovements : bool;
  typingWpmMin : JS.number;
  typingWpmMax : JS.number;
  minDelayMs : JS.number;
  maxDelayMs : JS.number;
  configDir : string;
  dataDir : string;
  browserStateDir : string;
  chromeProfileDir : string;
  chromeInstancesDir : string;
  conversationDescription : string;
  conversationTopics : list string;
  conversationContentTypes : list string;
  conversationUseCases : list string;
  profileStrategy : string;
  cloneProfileOnIsolated : bool;
  cleanupInstancesOnStartup : bool;
  cleanupInstancesOnShutdown : bool;
  instanceProfileTtlHours : JS.number;
  instanceProfileMaxCount : JS.number;
}.

(** The two directories [envPaths("gemini-mcp")] gives. *)
Record Paths := { paths_config : string; paths_data : string }.

(** [path.join(a, b)] on two plain segments. *)
Definition join (a b : string) : string := a +:+ "/" +:+ b.

Definition DEFAULTS (paths : Paths) : t :=
  mk "" true 30000 (1024, 768)
     10 900
     false "" "" 120000
     true true true true 160 240 100 400
     (paths_config paths) (paths_data paths)
     (join (paths_data paths) "browser_state")
     (join (paths_data paths) "chrome_profile")
     (join (paths_data paths) "chrome_profile_instances")
     "General knowledge base" ["General topics"]
     ["documentation"; "examples"] ["General research"]
     "auto" false true true 72 20.

(** [process.env] *)
Definition Env := string -> option string.

Definition parseBoolean (value : option string) (defaultValue : bool) : bool :=
  match value with
  | None => defaultValue
  | Some v =>
      let lower := JS.toLowerCase v in
      if String.eqb lower "true" || String.eqb lower "1" then true
      else if String.eqb lower "false" || String.eqb lower "0" then false
      else defaultValue
  end.

Definition parseInteger (value : option string) (defaultValue : JS.number) : JS.number :=
  match value with
  | None => defaultValue
  | Some v => default defaultValue (JS.parseInt v)
  end.

Definition parseArray (value : option string) (defaultValue : list string)
    : list string :=
  if JS.truthy value
  then filter (fun s => JS.is_empty s = false)
         (JS.trim <$> JS.split_comma "" (default "" value))
  else defaultValue.

Definition applyEnvOverrides (env : Env) (config : t) : t :=
  mk (JS.or_else (env "CONVERSATION_URL") (geminiUrl config))
     (parseBoolean (env "HEADLESS") (headless config))
     (parseInteger (env "BROWSER_TIMEOUT") (browserTimeout config))
     (viewport config)
     (parseInteger (env "MAX_SESSIONS") (maxSessions config))
     (parseInteger (env "SESSION_TIMEOUT") (sessionTimeout config))
     (parseBoolean (env "AUTO_LOGIN_ENABLED") (autoLoginEnabled config))
     (JS.or_else (env "LOGIN_EMAIL") (loginEmail config))
     (JS.or_else (env "LOGIN_PASSWORD") (loginPassword config))
     (parseInteger (env "AUTO_LOGIN_TIMEOUT_MS") (autoLoginTimeoutMs config))
     (parseBoolean (env "STEALTH_ENABLED") (stealthEnabled config))
     (parseBoolean (env "STEALTH_RANDOM_DELAYS") (stealthRandomDelays config))
     (parseBoolean (env "STEALTH_HUMAN_TYPING") (stealthHumanTyping config))
     (parseBoolean (env "STEALTH_MOUSE_MOVEMENTS") (stealthMouseMovements config))
     (parseInteger (env "TYPING_WPM_MIN") (typingWpmMin config))
     (parseInteger (env "TYPING_WPM_MAX") (typingWpmMax config))
     (parseInteger (env "MIN_DELAY_MS") (minDelayMs config))
     (parseInteger (env "MAX_DELAY_MS") (maxDelayMs config))
     (configDir config) (dataDir config) (browserStateDir config)
     (chromeProfileDir config) (chromeInstancesDir config)
     (JS.or_else (env "CONVERSATION_DESCRIPTION") (conversationDescription config))
     (parseArray (env "CONVERSATION_TOPICS") (conversationTopics config))
     (parseArray (env "CONVERSATION_CONTENT_TYPES") (conversationContentTypes config))
     (parseArray (env "CONVERSATION_USE_CASES") (conversationUseCases config))
     (JS.or_else (env "CONVERSATION_PROFILE_STRATEGY") (profileStrategy config))
     (parseBoolean (env "CONVERSATION_CLONE_PROFILE") (cloneProfileOnIsolated config))
     (parseBoolean (env "CONVERSATION_CLEANUP_ON_STARTUP") (cleanupInstancesOnStartup config))
     (parseBoolean (env "CONVERSATION_CLEANUP_ON_SHUTDOWN") (cleanupInstancesOnShutdown config))
     (parseInteger (env "CONVERSATION_INSTANCE_TTL_HOURS") (instanceProfileTtlHours config))
     (parseInteger (env "CONVERSATION_INSTANCE_MAX_COUNT") (instanceProfileMaxCount config)).

Definition buildConfig (env : Env) (paths : Paths) : t :=
  applyEnvOverrides env (DEFAULTS paths).

Record Stealth := {
  enabled : option bool;
  random_delays : option bool;
  human_typing : option bool;
  mouse_movements : option bool;
  typing_wpm_min : option JS.number;
  typing_wpm_max : option JS.number;
  delay_min_ms : option JS.number;
  delay_max_ms : option JS.number;
}.

Record BrowserOptions := {
  show : option bool;
  opt_headless : option bool;
  timeout_ms : option JS.number;
  stealth : option Stealth;
  opt_viewport : option (option Z * option Z);
}.

(** [o.f !== undefined ? o.f : d] for an optional record [o]. *)
Definition pick {O A} (o : option O) (f : O -> option A) (d : A) : A :=
  default d (o ≫= f).

(** [applyBrowserOptions(options, legacyShowBrowser)] over the global
    [CONFIG]; later assignments win. *)
Definition applyBrowserOptions (CONFIG : t) (options : option BrowserOptions)
    (legacyShowBrowser : option bool) : t :=
  let headless0 := default (headless CONFIG) (negb <$> legacyShowBrowser) in
  let headless1 := default headless0 (negb <$> (options ≫= show)) in
  let s := options ≫= stealth in
  mk (geminiUrl CONFIG)
     (pick options opt_headless headless1)
     (pick options timeout_ms (browserTimeout CONFIG))
     (match options ≫= opt_viewport with
      | Some (w, h) => (default (fst (viewport CONFIG)) w, default (snd (viewport CONFIG)) h)
      | None => viewport CONFIG
      end)
     (maxSessions CONFIG) (sessionTimeout CONFIG)
     (autoLoginEnabled CONFIG) (loginEmail CONFIG) (loginPassword CONFIG)
     (autoLoginTimeoutMs CONFIG)
     (pick s enabled (stealthEnabled CONFIG))
     (pick s random_delays (stealthRandomDelays CONFIG))
     (pick s human_typing (stealthHumanTyping CONFIG))
     (pick s mouse_movements (stealthMouseMovements CONFIG))
     (pick s typing_wpm_min (typingWpmMin CONFIG))
     (pick s typing_wpm_max (typingWpmMax CONFIG))
     (pick s delay_min_ms (minDelayMs CONFIG))
     (pick s delay_max_ms (maxDelayMs CONFIG))
     (configDir CONFIG) (dataDir CONFIG) (browserStateDir CONFIG)
     (chromeProfileDir CONFIG) (chromeInstancesDir CONFIG)
     (conversationDescription CONFIG) (conversationTopics CONFIG)
     (conversationContentTypes CONFIG) (conversationUseCases CONFIG)
     (profileStrategy CONFIG) (cloneProfileOnIsolated CONFIG)
     (cleanupInstancesOnStartup CONFIG) (cleanupInstancesOnShutdown CONFIG)
     (instanceProfileTtlHours CONFIG) (instanceProfileMaxCount CONFIG).

End Config.

(** ** Construction of the library
    ([src/library/conversation-library.ts], lines 25 to 96)

    While the constructor runs, [this.library] is not yet assigned: it is
    kept as an optional library, [None] for [undefined]. The library file is
    [None] when it does not exist, and otherwise what reading and parsing it
    gives. *)

Module ConversationLibraryInit.

Import Library.

Definition PLACEHOLDER : string :=
  "General knowledge base - configure CONVERSATION_DESCRIPTION to help Claude understand what's in this conversation".

Definition hasConfig (CONFIG : Config.t) : bool :=
  negb (JS.is_empty (Config.geminiUrl CONFIG))
  && negb (JS.is_empty (Config.conversationDescription CONFIG))
  && negb (String.eqb (Config.conversationDescription CONFIG) PLACEHOLDER).

(** [this.generateId(name)]; reading [this.library.conversations] throws
    while [this.library] is [undefined] (the message is the one of V8). *)
Definition generateId (this_library : option Library.t) (name : string)
    : option (Thrown + string) :=
  match this_library with
  | None =>
      Some (inl (ThrownError TypeError
                   "Cannot read properties of undefined (reading 'conversations')"))
  | Some this => inr <$> ConversationLibrary.generateId this name
  end.

(** [createDefaultLibrary()] *)
Definition createDefaultLibrary (CONFIG : Config.t) (io : IO)
    (this_library : option Library.t) : option (Thrown + Library.t) :=
  if hasConfig CONFIG then
    r ← generateId this_library (Config.conversationDescription CONFIG);
    Some match r with
         | inl e => inl e
         | inr id =>
             let conversations :=
               [Entry.mk id (Config.geminiUrl CONFIG)
                  (JS.take 50 (Config.conversationDescription CONFIG))
                  (Config.conversationDescription CONFIG)
                  (Config.conversationTopics CONFIG)
                  (Config.conversationContentTypes CONFIG)
                  (Config.conversationUseCases CONFIG)
                  (now io) (now io) 0 (Some [])] in
             inr (Library.mk conversations (Entry.id <$> head conversations)
                    (now io) "1.0.0")
         end
  else Some (inr (Library.mk [] None (now io) "1.0.0")).

(** [loadLibrary()]: a file that is read and parsed is the library; in
    every other case the default library is created and saved. *)
Definition loadLibrary (CONFIG : Config.t) (io : IO) (file : option (Thrown + Library.t))
    (this_library : option Library.t) : option (Thrown + Library.t) :=
  match file with
  | Some (inr library) => Some (inr library)
  | _ =>
      r ← createDefaultLibrary CONFIG io this_library;
      Some match r with
           | inl e => inl e
           | inr defaultLibrary =>
               match write_error io with
               | Some err => inl err
               | None =>
                   inr (ConversationLibrary.with_last_modified (now io) defaultLibrary)
               end
           end
  end.

(** [new ConversationLibrary()]: the library held afterwards, or what the
    constructor throws. *)
Definition constructor (CONFIG : Config.t) (io : IO) (file : option (Thrown + Library.t))
    : option (Thrown + Library.t) :=
  loadLibrary CONFIG io file None.

End ConversationLibraryInit.

(** ** SessionManager

    Modelled from the spec: the session manager
    ([src/session/session-manager.ts]), after sections 3, 4.1, 5 and 7.
    Operations run to completion one at a time (section 5), so a session in
    the registry is [idle] or, while an [ask] is in flight, [busy]. Time is
    counted in seconds, like [sessionTimeout]. *)

Module SessionManager.

Local Open Scope Z_scope.

Inductive Status := idle | busy | closing | closed.

Inductive Strategy := single | isolated.

Record Profile := { profile_path : string; strategy : Strategy }.

Record Session := mkSession {
  sessionId : string;
  createdAt : Z;
  lastActivity : Z;
  messageCount : nat;
  geminiUrl : option string;
  status : Status;
  profile : Profile;
}.

(** The registry in registration order, the capacity counters, and the
    isolated profiles scheduled for deletion. *)
Record t := mk {
  sessions : list Session;
  maxSessions : Z;
  sessionTimeout : Z;
  scheduled : list Profile;
}.

Definition init (maxSessions sessionTimeout : Z) : t := mk [] maxSessions sessionTimeout [].

(** What one creation finds at its collaborators: the clock, the id
    generator, ProfileAllocator.allocate, AuthStore.getValidStatePath and
    the opening of the browser-process handle ([None]: it opened). *)
Record Acquire := {
  clock : Z;
  generated_id : string;
  allocated : Thrown + Profile;
  credentials : option string;
  started : option Thrown;
}.

Definition acquire_ok (a : Acquire) : bool :=
  match allocated a, credentials a, started a with
  | inr _, Some _, None => true
  | _, _, _ => false
  end.

Definition is_idle (s : Session) : bool :=
  match status s with idle => true | _ => false end.

Definition is_busy (s : Session) : bool :=
  match status s with busy => true | _ => false end.

Definition live (s : Session) : bool := is_idle s || is_busy s.

Definition has_id (id : string) (s : Session) : bool := String.eqb (sessionId s) id.

Definition with_sessions (l : list Session) (m : t) : t :=
  mk l (maxSessions m) (sessionTimeout m) (scheduled m).

Definition is_isolated (p : Profile) : bool :=
  match strategy p with isolated => true | single => false end.

(** Modelled from the spec: releasing the profile of a closed session (the
    missing profile allocator): an isolated one is scheduled for deletion,
    the shared one is left alone. *)
Definition release (p : Profile) (m : t) : t :=
  if is_isolated p
  then mk (sessions m) (maxSessions m) (sessionTimeout m) (scheduled m ++ [p])
  else m.

(** Modelled from the spec: the body of [closeSession], applied to every
    registered session that satisfies [doomed]: its handle and profile are
    released and it leaves the registry. Returns how many were closed. *)
Definition close_where (doomed : Session -> bool) : Eff t nat :=
  fun m =>
    let gone := filter (fun s => doomed s = true) (sessions m) in
    let kept := filter (fun s => doomed s = false) (sessions m) in
    (inr (length gone),
     foldl (fun m' s => release (profile s) m') (with_sessions kept m) gone).

(** Modelled from the spec: [closeSession(id)] of the missing session
    manager; returns whether a session was found. *)
Definition closeSession (id : string) : Eff t bool :=
  bind (close_where (has_id id)) (fun n => ret (negb (n =? 0)%nat)).

(** Modelled from the spec: [closeAllSessions()] of the missing session
    manager. *)
Definition closeAllSessions : Eff t unit :=
  bind (close_where (fun _ => true)) (fun _ => ret tt).

Definition bound_to (url : string) (s : Session) : bool :=
  bool_decide (geminiUrl s = Some url).

(** Modelled from the spec: [closeSessionsForConversation(url)] of the
    missing session manager: closes every session whose bound target URL
    equals [url] and returns the count. *)
Definition closeSessionsForConversation (url : string) : Eff t nat :=
  close_where (bound_to url).

(** Modelled from the spec: the idle duration the missing session manager
    compares with [sessionTimeout]. *)
Definition idle_duration (now : Z) (s : Session) : Z := now - lastActivity s.

Definition expired (now : Z) (m : t) (s : Session) : bool :=
  is_idle s && (sessionTimeout m <=? idle_duration now s).

(** Modelled from the spec: one tick of the background sweep of the
    missing session manager. *)
Definition sweep (now : Z) : Eff t nat :=
  fun m => close_where (expired now m) m.

(** Modelled from the spec: the eviction victim of the missing session
    manager, the least-recently-active idle session; the earliest registered
    wins a tie. *)
Fixpoint least_recent_idle (l : list Session) : option Session :=
  match l with
  | [] => None
  | s :: l' =>
      match least_recent_idle l' with
      | Some v =>
          if is_idle s && (lastActivity s <=? lastActivity v) then Some s else Some v
      | None => if is_idle s then Some s else None
      end
  end.

Definition exhausted (m : t) : Thrown :=
  ThrownError ResourceExhausted
    "Session capacity reached and every session is busy; close a session or raise the limit".

(** Modelled from the spec: the capacity step of [getOrCreateSession]. *)
Definition ensureCapacity : Eff t unit :=
  fun m =>
    if maxSessions m <=? Z.of_nat (length (sessions m))
    then match least_recent_idle (sessions m) with
         | Some victim => bind (closeSession (sessionId victim)) (fun _ => ret tt) m
         | None => (inl (exhausted m), m)
         end
    else (inr tt, m).

Definition auth_required : Thrown :=
  ThrownError AuthenticationRequired "No valid authentication state; run setup_auth first".

(** Modelled from the spec: allocation, authentication and browser start
    of a new session; whatever was acquired before a failure is released
    and nothing is registered. *)
Definition create (a : Acquire) (id : option string) (targetURL : option string)
    : Eff t Session :=
  fun m =>
    match allocated a with
    | inl e => (inl e, m)
    | inr p =>
        match credentials a, started a with
        | None, _ => (inl auth_required, release p m)
        | Some _, Some e => (inl e, release p m)
        | Some _, None =>
            let sid := default (generated_id a) id in
            let s := mkSession sid (clock a) (clock a) 0 targetURL idle p in
            (inr s,
             with_sessions (filter (fun x => has_id sid x = false) (sessions m) ++ [s]) m)
        end
    end.

Definition find_live (id : option string) (m : t) : option (nat * Session) :=
  i ← id; list_find (fun s => has_id i s = true ∧ live s = true) (sessions m).

(** Modelled from the spec: [getOrCreateSession(id?, targetURL?,
    headlessOverride?)] of the missing session manager. *)
Definition getOrCreateSession (a : Acquire) (id : option string)
    (targetURL : option string) (headlessOverride : option bool) : Eff t Session :=
  fun m =>
    match find_live id m with
    | Some (index, s) =>
        let s' :=
          mkSession (sessionId s) (createdAt s) (clock a) (messageCount s)
            (match targetURL with Some u => Some u | None => geminiUrl s end)
            (status s) (profile s) in
        (inr s', with_sessions (<[index := s']> (sessions m)) m)
    | None => bind ensureCapacity (fun _ => create a id targetURL) m
    end.

(** [getSession(id)] *)
Definition getSession (id : string) (m : t) : option Session :=
  snd <$> list_find (fun s => has_id id s = true) (sessions m).

Definition set_status (st : Status) (s : Session) : Session :=
  mkSession (sessionId s) (createdAt s) (lastActivity s) (messageCount s)
    (geminiUrl s) st (profile s).

Definition answered (now : Z) (s : Session) : Session :=
  mkSession (sessionId s) (createdAt s) now (S (messageCount s))
    (geminiUrl s) idle (profile s).

Definition update (id : string) (f : Session -> Session) (m : t) : t :=
  with_sessions ((fun s => if has_id id s then f s else s) <$> sessions m) m.

(** Modelled from the spec: the two ends of [Session.ask]: the session is
    [busy] while the handle works, then [idle] again; an answer marks
    activity and counts a message. *)
Definition beginAsk (id : string) (m : t) : t := update id (set_status busy) m.

Definition endAsk (now : Z) (outcome : Thrown + string) (id : string) (m : t) : t :=
  match outcome with
  | inr _ => update id (answered now) m
  | inl _ => update id (set_status idle) m
  end.

Definition ask (now : Z) (outcome : Thrown + string) (id : string) : Eff t string :=
  fun m =>
    (outcome, endAsk now outcome id (beginAsk id m)).

(** [getInfo()] of a session: age, message count, last activity. *)
Definition getInfo (now : Z) (s : Session) : Z * nat * Z :=
  (now - createdAt s, messageCount s, lastActivity s).

(** The manager's moves: its public operations, the sweep tick and the two
    ends of an [ask]. *)
Inductive step : t -> t -> Prop :=
| step_get a id url h m r m' :
    getOrCreateSession a id url h m = (r, m') -> step m m'
| step_close id m r m' : closeSession id m = (r, m') -> step m m'
| step_close_all m r m' : closeAllSessions m = (r, m') -> step m m'
| step_close_url url m r m' :
    closeSessionsForConversation url m = (r, m') -> step m m'
| step_sweep now m r m' : sweep now m = (r, m') -> step m m'
| step_begin id m s :
    getSession id m = Some s -> is_idle s = true -> step m (beginAsk id m)
| step_end now outcome id m s :
    getSession id m = Some s -> is_busy s = true -> step m (endAsk now outcome id m).

Inductive reachable : t -> Prop :=
| reachable_init maxSessions sessionTimeout : reachable (init maxSessions sessionTimeout)
| reachable_step m m' : reachable m -> step m m' -> reachable m'.

(** Creating one session after another, each with what it finds at its
    collaborators; stops at the first failure. *)
Fixpoint createAll (requests : list (string * Acquire)) : Eff t (list Session) :=
  match requests with
  | [] => ret []
  | (id, a) :: rest =>
      bind (getOrCreateSession a (Some id) None None) (fun s =>
      bind (createAll rest) (fun ss => ret (s :: ss)))
  end.

Definition session_ids (m : t) : list string := sessionId <$> sessions m.

End SessionManager.

(** ** CleanupManager

    Modelled from the spec: the cleanup manager
    ([src/utils/cleanup-manager.ts]), after sections 4.4 and 6. *)

Module CleanupManager.

Local Open Scope Z_scope.

Inductive Category := BrowserState | Profiles | InstanceProfiles | AuthData | LibraryFile.

Global Instance Category_eq_dec : EqDecision Category.
Proof. solve_decision. Defined.

(** A path on disk: the category its location puts it in ([None] for a
    path that is no artifact of the server), its size, and whether the
    system refuses to delete it. *)
Record Node := { category : option Category; bytes : Z; locked : bool }.

Abbreviation Disk := (gmap string Node).

Record CategoryPreview := {
  cat : Category;
  paths : list string;
  totalBytes : Z;
}.

Record Preview := {
  categories : list CategoryPreview;
  totalPaths : list string;
  totalSizeBytes : Z;
}.

Definition sum (l : list Z) : Z := foldr Z.add 0 l.

Definition size_of (disk : Disk) (p : string) : Z :=
  from_option bytes 0 (disk !! p).

(** Modelled from the spec: the categories the missing cleanup manager
    scans: all of them, the library file unless it is preserved. *)
Definition scanned (preserveLibrary : bool) : list Category :=
  [BrowserState; Profiles; InstanceProfiles; AuthData]
    ++ (if preserveLibrary then [] else [LibraryFile]).

Definition in_category (c : Category) (entry : string * Node) : bool :=
  bool_decide (category entry.2 = Some c).

Definition scanCategory (disk : Disk) (c : Category) : CategoryPreview :=
  let found := filter (fun e => in_category c e = true) (map_to_list disk) in
  {| cat := c; paths := fst <$> found; totalBytes := sum ((fun e => bytes e.2) <$> found) |}.

(** Modelled from the spec: [getCleanupPaths(mode, preserveLibrary)] of the
    missing cleanup manager; it reads the disk and changes nothing. *)
Definition getCleanupPaths (mode : string) (preserveLibrary : bool) (disk : Disk)
    : Preview :=
  let cs := scanCategory disk <$> scanned preserveLibrary in
  {| categories := cs;
     totalPaths := mjoin (paths <$> cs);
     totalSizeBytes := sum (totalBytes <$> cs) |}.

Record Result := {
  success : bool;
  deletedPaths : list string;
  failedPaths : list string;
  freedBytes : Z;
  categorySummary : list (Category * (nat * Z));
}.

Definition is_locked (disk : Disk) (p : string) : bool :=
  from_option locked false (disk !! p).

(** Modelled from the spec: one deletion of the missing cleanup manager; a
    path the system holds stays and is reported. *)
Definition deletePath (p : string) (disk : Disk) : bool * Disk :=
  if is_locked disk p then (false, disk) else (true, delete p disk).

(** Modelled from the spec: best-effort deletion of a list of paths by the
    missing cleanup manager: (deleted, failed, disk). *)
Fixpoint deleteAll (ps : list string) (disk : Disk)
    : list string * list string * Disk :=
  match ps with
  | [] => ([], [], disk)
  | p :: rest =>
      let '(ok, disk1) := deletePath p disk in
      let '(deleted, failed, disk2) := deleteAll rest disk1 in
      if ok then (p :: deleted, failed, disk2) else (deleted, p :: failed, disk2)
  end.

Definition summarize (disk : Disk) (deleted : list string) (c : CategoryPreview)
    : Category * (nat * Z) :=
  let mine := filter (fun p => p ∈ deleted) (paths c) in
  (cat c, (length mine, sum (size_of disk <$> mine))).

(** Modelled from the spec: [performCleanup(mode, preserveLibrary)] of the
    missing cleanup manager. *)
Definition performCleanup (mode : string) (preserveLibrary : bool)
    : Eff Disk Result :=
  fun disk =>
    let preview := getCleanupPaths mode preserveLibrary disk in
    let '(deleted, failed, disk') := deleteAll (totalPaths preview) disk in
    (inr {| success := bool_decide (failed = []);
            deletedPaths := deleted;
            failedPaths := failed;
            freedBytes := sum (size_of disk <$> deleted);
            categorySummary := summarize disk deleted <$> categories preview |},
     disk').

End CleanupManager.

(** ** Tool handlers ([src/tools/handlers.ts]) *)

Module ToolHandlers.

Local Open Scope eff_scope.

Definition LF : string := String (ascii_of_nat 10) EmptyString.

Definition FOLLOW_UP_REMINDER : string :=
  LF +:+ LF +:+
  "EXTREMELY IMPORTANT: Is that ALL you need to know? You can always ask another question using the same session ID! Think about it carefully: before you reply to the user, review their original request and this answer. If anything is still unclear or missing, ask me another question first.".

(** The calls a handler makes on the session manager and on the cleanup
    manager, in order. *)
Inductive Call :=
| CallGetOrCreateSession (session_id url : option string) (overrideHeadless : option bool)
| CallAsk (sessionId question : string)
| CallCloseSessionsForConversation (url : string)
| CallGetCleanupPaths (mode : string) (preserveLibrary : bool)
| CallGetPlatformInfo
| CallFormatBytes (n : Z)
| CallPerformCleanup (mode : string) (preserveLibrary : bool).

(** The objects the handlers hold or reach: the library, the session
    manager, the global [CONFIG], the disk the cleanup manager works on, and
    the record of calls. *)
Record World := mkWorld {
  library : Library.t;
  sessionManager : SessionManager.t;
  CONFIG : Config.t;
  disk : CleanupManager.Disk;
  calls : list Call;
}.

Definition onLibrary {A} (m : Eff Library.t A) : Eff World A :=
  fun w =>
    let '(r, l) := m (library w) in
    (r, mkWorld l (sessionManager w) (CONFIG w) (disk w) (calls w)).

Definition onSessionManager {A} (m : Eff SessionManager.t A) : Eff World A :=
  fun w =>
    let '(r, s) := m (sessionManager w) in
    (r, mkWorld (library w) s (CONFIG w) (disk w) (calls w)).

Definition onDisk {A} (m : Eff CleanupManager.Disk A) : Eff World A :=
  fun w =>
    let '(r, d) := m (disk w) in
    (r, mkWorld (library w) (sessionManager w) (CONFIG w) d (calls w)).

(** [Object.assign(CONFIG, c)] with a full configuration [c]. *)
Definition assignConfig (c : Config.t) : Eff World unit :=
  fun w => (inr tt, mkWorld (library w) (sessionManager w) c (disk w) (calls w)).

Definition record (c : Call) : Eff World unit :=
  fun w =>
    (inr tt, mkWorld (library w) (sessionManager w) (CONFIG w) (disk w) (calls w ++ [c])).

(** [try { m } finally { f }] where [f] does not throw. *)
Definition try_finally {A} (m : Eff World A) (f : Eff World unit) : Eff World A :=
  fun w =>
    let '(r, w1) := m w in
    (r, (f w1).2).

Record ToolResult (A : Type) := {
  success : bool;
  data : option A;
  error : option string;
}.
Arguments success {A} _.
Arguments data {A} _.
Arguments error {A} _.

Definition succeeded {A} (a : A) : ToolResult A :=
  {| success := true; data := Some a; error := None |}.

Definition failed {A} (msg : string) : ToolResult A :=
  {| success := false; data := None; error := Some msg |}.

(** A progress callback: what it throws, if anything, when called. *)
Definition ProgressCallback := string -> nat -> nat -> option Thrown.

(** [await sendProgress?.(message, progress, total)] *)
Definition progress (sendProgress : option ProgressCallback) (message : string)
    (n total : nat) : Eff World unit :=
  match sendProgress ≫= (fun f => f message n total) with
  | Some e => throw e
  | None => ret tt
  end.

Record AskQuestionArgs := {
  question : string;
  session_id : option string;
  conversation_id : option string;
  gemini_url : option string;
  show_browser : option bool;
  browser_options : option Config.BrowserOptions;
}.

Record AskQuestionResult := {
  status : string;
  asked : string;
  answer : string;
  result_session_id : string;
  result_gemini_url : option string;
  session_info : Z * nat * Z;
}.

(** What one [ask_question] call finds outside the handler. *)
Record AskEnv := {
  io : IO;
  acquire : SessionManager.Acquire;
  answered_at : Z;
  rawAnswer : Thrown + string;
  sendProgress : option ProgressCallback;
}.

(** Lines 68 to 89 of [handleAskQuestion]: the value of
    [resolvedConversationUrl] when the session is requested. *)
Definition resolvedConversationUrl (io : IO) (gemini_url conversation_id : option string)
    : Eff Library.t (option string) :=
  if negb (JS.truthy gemini_url) && JS.truthy conversation_id then
    conversation <- ConversationLibrary.incrementUseCount io (default "" conversation_id) ;;
    match conversation with
    | None =>
        throw (ThrownError PlainError
                 ("Conversation not found in library: " +:+ default "" conversation_id))
    | Some c => ret (Some (Entry.url c))
    end
  else if negb (JS.truthy gemini_url) then
    this <- get ;;
    match ConversationLibrary.getActiveConversation this with
    | Some active =>
        conversation <- ConversationLibrary.incrementUseCount io (Entry.id active) ;;
        match conversation with
        | None =>
            throw (ThrownError PlainError
                     ("Active conversation not found: " +:+ Entry.id active))
        | Some c => ret (Some (Entry.url c))
        end
    | None => ret gemini_url
    end
  else ret gemini_url.

(** [show_browser] takes precedence over [browser_options.show], which takes
    precedence over [browser_options.headless]. *)
Definition overrideHeadless (show_browser : option bool)
    (browser_options : option Config.BrowserOptions) : option bool :=
  match show_browser with
  | Some b => Some b
  | None =>
      match browser_options ≫= Config.show with
      | Some b => Some b
      | None => negb <$> (browser_options ≫= Config.opt_headless)
      end
  end.

(** The [try] block of [handleAskQuestion], for a call that runs from its
    first line to its last with nothing else running while it waits at an
    [await]; [askQuestionSteps] below is the same block a step at a time. *)
Definition askQuestion (args : AskQuestionArgs) (env : AskEnv) : Eff World AskQuestionResult :=
  resolved <- onLibrary (resolvedConversationUrl (io env) (gemini_url args) (conversation_id args)) ;;
  progress (sendProgress env) "Getting or creating browser session..." 1 5 ;;;
  originalConfig <- (fun w => (inr (CONFIG w), w)) ;;
  assignConfig (Config.applyBrowserOptions originalConfig (browser_options args) (show_browser args)) ;;;
  try_finally
    (let headless := overrideHeadless (show_browser args) (browser_options args) in
     record (CallGetOrCreateSession (session_id args) resolved headless) ;;;
     session <- onSessionManager
       (SessionManager.getOrCreateSession (acquire env) (session_id args) resolved headless) ;;
     progress (sendProgress env) "Asking question to Gemini App..." 2 5 ;;;
     record (CallAsk (SessionManager.sessionId session) (question args)) ;;;
     raw <- onSessionManager
       (SessionManager.ask (answered_at env) (rawAnswer env) (SessionManager.sessionId session)) ;;
     let answer := JS.trimEnd raw +:+ FOLLOW_UP_REMINDER in
     w <- get ;;
     let current :=
       default session (SessionManager.getSession (SessionManager.sessionId session) (sessionManager w)) in
     let result :=
       {| status := "success";
          asked := question args;
          answer := answer;
          result_session_id := SessionManager.sessionId current;
          result_gemini_url := SessionManager.geminiUrl current;
          session_info := SessionManager.getInfo (answered_at env) current |} in
     progress (sendProgress env) "Question answered successfully!" 5 5 ;;;
     ret result)
    (assignConfig originalConfig).

(** An [async] handler between two of its [await]s: it has finished, or it
    waits and goes on, up to its next [await], from the world it finds when
    it is resumed. *)
#[warnings="-register-all"]
Inductive Co (A : Type) :=
| Finished (r : Thrown + A)
| Await (resume : World -> Co A * World).
Arguments Finished {A} _.
Arguments Await {A} _.

Definition finished {A} (c : Co A) : bool :=
  match c with
  | Finished _ => true
  | Await _ => false
  end.

(** A handler run to its end; [between n] is what else happens to the world
    while the handler waits at its [n]-th [await]. *)
Fixpoint run_among {A} (between : nat -> World -> World) (n : nat) (c : Co A)
    (w : World) : (Thrown + A) * World :=
  match c with
  | Finished r => (r, w)
  | Await resume =>
      let '(c', w') := resume (between n w) in
      run_among between (S n) c' w'
  end.

(** A handler run to its end with nothing in between. *)
Definition run {A} (c : Co A) (w : World) : (Thrown + A) * World :=
  run_among (fun _ w' => w') 0 c w.

(** Two handlers on one world. The schedule tells which of them goes on at
    each step, [true] for the first; a finished handler makes no step. *)
Fixpoint interleave {A B} (schedule : list bool) (a : Co A) (b : Co B) (w : World)
    : Co A * Co B * World :=
  match schedule with
  | [] => (a, b, w)
  | true :: rest =>
      match a with
      | Await resume => let '(a', w') := resume w in interleave rest a' b w'
      | Finished _ => interleave rest a b w
      end
  | false :: rest =>
      match b with
      | Await resume => let '(b', w') := resume w in interleave rest a b' w'
      | Finished _ => interleave rest a b w
      end
  end.

(** The [try] block of [handleAskQuestion] a step at a time, with its five
    [await]s: lines 92, 112, 119, 122 and 142. What is awaited is started
    before the handler waits and its outcome is met when the handler is
    resumed. [CONFIG] is copied (line 95) in the world found after the first
    [await], and the [finally] clause (line 151) writes the copy back in the
    world found when the block is left. *)
Definition askQuestionSteps (args : AskQuestionArgs) (env : AskEnv) (w : World)
    : Co AskQuestionResult * World :=
  match onLibrary (resolvedConversationUrl (io env) (gemini_url args) (conversation_id args)) w with
  | (inl e, w) => (Finished (inl e), w)
  | (inr resolved, w) =>
      let sent := progress (sendProgress env) "Getting or creating browser session..." 1 5 in
      (Await (fun w =>
         match sent w with
         | (inl e, w) => (Finished (inl e), w)
         | (inr _, w) =>
             let originalConfig := CONFIG w in
             let finally (r : Thrown + AskQuestionResult) (w : World) :=
               (Finished r, (assignConfig originalConfig w).2) in
             let w := (assignConfig (Config.applyBrowserOptions originalConfig
                                       (browser_options args) (show_browser args)) w).2 in
             let headless := overrideHeadless (show_browser args) (browser_options args) in
             let w := (record (CallGetOrCreateSession (session_id args) resolved headless) w).2 in
             let '(got, w) :=
               onSessionManager
                 (SessionManager.getOrCreateSession (acquire env) (session_id args)
                    resolved headless) w in
             (Await (fun w =>
                match got with
                | inl e => finally (inl e) w
                | inr session =>
                    let sent := progress (sendProgress env) "Asking question to Gemini App..." 2 5 in
                    (Await (fun w =>
                       match sent w with
                       | (inl e, w) => finally (inl e) w
                       | (inr _, w) =>
                           let w := (record (CallAsk (SessionManager.sessionId session)
                                               (question args)) w).2 in
                           let '(asked, w) :=
                             onSessionManager
                               (SessionManager.ask (answered_at env) (rawAnswer env)
                                  (SessionManager.sessionId session)) w in
                           (Await (fun w =>
                              match asked with
                              | inl e => finally (inl e) w
                              | inr raw =>
                                  let answer := JS.trimEnd raw +:+ FOLLOW_UP_REMINDER in
                                  let current :=
                                    default session
                                      (SessionManager.getSession
                                         (SessionManager.sessionId session) (sessionManager w)) in
                                  let result :=
                                    {| status := "success";
                                       asked := question args;
                                       answer := answer;
                                       result_session_id := SessionManager.sessionId current;
                                       result_gemini_url := SessionManager.geminiUrl current;
                                       session_info :=
                                         SessionManager.getInfo (answered_at env) current |} in
                                  let sent :=
                                    progress (sendProgress env) "Question answered successfully!" 5 5 in
                                  (Await (fun w =>
                                     match sent w with
                                     | (inl e, w) => finally (inl e) w
                                     | (inr _, w) => finally (inr result) w
                                     end), w)
                              end), w)
                       end), w)
                end), w)
         end), w)
  end.


Definition RATE_LIMIT_GUIDANCE : string :=
  "Gemini App rate limit reached (50 queries/day for free accounts)." +:+ LF +:+ LF +:+
  "You can:" +:+ LF +:+
  "1. Use the 're_auth' tool to login with a different Google account" +:+ LF +:+
  "2. Wait until tomorrow for the quota to reset" +:+ LF +:+
  "3. Upgrade to Google AI Pro/Ultra for 5x higher limits" +:+ LF +:+ LF +:+
  "Original error: ".

(** The test of the [catch] clause of [handleAskQuestion]. *)
Definition isRateLimit (e : Thrown) : bool :=
  instanceof_RateLimitError e
  || JS.includes (JS.toLowerCase (error_message e)) "rate limit".

(** The [catch] clause of [handleAskQuestion]. *)
Definition askQuestionCatch {A} (e : Thrown) : ToolResult A :=
  let errorMessage := error_message e in
  if isRateLimit e
  then failed (RATE_LIMIT_GUIDANCE +:+ errorMessage)
  else failed errorMessage.

(** [handleAskQuestion(args, sendProgress)] *)
Definition handleAskQuestion (args : AskQuestionArgs) (env : AskEnv) (w : World)
    : ToolResult AskQuestionResult * World :=
  match askQuestion args env w with
  | (inr result, w') => (succeeded result, w')
  | (inl e, w') => (askQuestionCatch e, w')
  end.

(** [handleRemoveConversation(args)] *)
Definition handleRemoveConversation (id : string) (io : IO) (w : World)
    : ToolResult (bool * nat) * World :=
  let body : Eff World (ToolResult (bool * nat)) :=
    this <- onLibrary get ;;
    match ConversationLibrary.getConversation id this with
    | None => ret (failed ("Conversation not found: " +:+ id))
    | Some conversation =>
        removed <- onLibrary (ConversationLibrary.removeConversation io id) ;;
        if removed : bool then
          record (CallCloseSessionsForConversation (Entry.url conversation)) ;;;
          closedSessions <- onSessionManager
            (SessionManager.closeSessionsForConversation (Entry.url conversation)) ;;
          ret (succeeded (true, closedSessions))
        else ret (failed ("Conversation not found: " +:+ id))
    end in
  match body w with
  | (inr r, w') => (r, w')
  | (inl e, w') => (failed (error_message e), w')
  end.

Record CleanupData := {
  cleanup_status : string;
  cleanup_mode : string;
  preview : option (list CleanupManager.CategoryPreview * nat * Z);
  result : option CleanupManager.Result;
}.

(** [handleCleanupData(args)]; [preserve_library] defaults to [false]. *)
Definition handleCleanupData (confirm : bool) (preserve_library : option bool) (w : World)
    : ToolResult CleanupData * World :=
  let preserve := default false preserve_library in
  let mode := "deep" in
  let body : Eff World (ToolResult CleanupData) :=
    if negb confirm then
      record (CallGetCleanupPaths mode preserve) ;;;
      d <- onDisk get ;;
      let p := CleanupManager.getCleanupPaths mode preserve d in
      record CallGetPlatformInfo ;;;
      record (CallFormatBytes (CleanupManager.totalSizeBytes p)) ;;;
      ret (succeeded
             {| cleanup_status := "preview";
                cleanup_mode := mode;
                preview := Some (CleanupManager.categories p,
                                 length (CleanupManager.totalPaths p),
                                 CleanupManager.totalSizeBytes p);
                result := None |})
    else
      record (CallPerformCleanup mode preserve) ;;;
      r <- onDisk (CleanupManager.performCleanup mode preserve) ;;
      ret {| success := CleanupManager.success r;
             data := Some {| cleanup_status :=
                               if CleanupManager.success r then "completed" else "partial";
                             cleanup_mode := mode;
                             preview := None;
                             result := Some r |};
             error := None |} in
  match body w with
  | (inr r, w') => (r, w')
  | (inl e, w') => (failed (error_message e), w')
  end.



(** [handleGetConversation(args)] *)
Definition handleGetConversation (id : string) (w : World) : ToolResult Entry.t :=
  match ConversationLibrary.getConversation id (library w) with
  | None => failed ("Conversation not found: " +:+ id)
  | Some conversation => succeeded conversation
  end.

(** [handleSelectConversation(args)] *)
Definition handleSelectConversation (id : string) (io : IO) (w : World)
    : ToolResult Entry.t * World :=
  match onLibrary (ConversationLibrary.selectConversation io id) w with
  | (inr conversation, w') => (succeeded conversation, w')
  | (inl e, w') => (failed (error_message e), w')
  end.

(** [handleUpdateConversation(args)] *)
Definition handleUpdateConversation (args : UpdateConversationInput) (io : IO) (w : World)
    : ToolResult Entry.t * World :=
  match onLibrary (ConversationLibrary.updateConversation io args) w with
  | (inr conversation, w') => (succeeded conversation, w')
  | (inl e, w') => (failed (error_message e), w')
  end.


(** [handleGetLibraryStats()] *)
Definition handleGetLibraryStats (w : World) : ToolResult ConversationLibrary.LibraryStats :=
  succeeded (ConversationLibrary.getStats (library w)).

End ToolHandlers.

(** ** Resource handlers ([src/resources/resource-handlers.ts]) *)

Module ResourceHandlers.

Local Open Scope N_scope.

(** *** [decodeURIComponent]

    The decoded string is kept as its UTF-16 code units, which may lie above
    the code units a [string] holds. [None] is a thrown [URIError]. *)

Definition unit_of (c : ascii) : N := N_of_ascii c.

Definition units (s : string) : list N := unit_of <$> list_ascii_of_string s.

Definition string_of_units (us : list N) : string :=
  string_of_list_ascii (ascii_of_N <$> us).

Definition hex_digit (c : ascii) : option N :=
  let n := unit_of c in
  if (48 <=? n) && (n <=? 57) then Some (n - 48)
  else if (65 <=? n) && (n <=? 70) then Some (n - 55)
  else if (97 <=? n) && (n <=? 102) then Some (n - 87)
  else None.

Inductive Token :=
| Literal (u : N)
| Octet (b : N).

(** The escapes of the string; a percent sign must be followed by two
    hexadecimal digits. *)
Fixpoint tokens (s : string) : option (list Token) :=
  match s with
  | EmptyString => Some []
  | String c rest =>
      if (unit_of c =? 37) then
        match rest with
        | String h (String l rest') =>
            hi ← hex_digit h;
            lo ← hex_digit l;
            ts ← tokens rest';
            Some (Octet (16 * hi + lo) :: ts)
        | _ => None
        end
      else
        ts ← tokens rest;
        Some (Literal (unit_of c) :: ts)
  end.

Definition continuation (b : N) : bool := (128 <=? b) && (b <=? 191).

(** [UTF16EncodeCodePoint] *)
Definition utf16 (cp : N) : list N :=
  if cp <? 65536 then [cp]
  else [55296 + (cp - 65536) / 1024; 56320 + (cp - 65536) mod 1024].

(** The octets are read as UTF-8: one, two, three or four of them by the
    leading bits of the first; overlong forms, surrogates and code points
    above U+10FFFF are refused. *)
Fixpoint decode (ts : list Token) : option (list N) :=
  match ts with
  | [] => Some []
  | Literal u :: rest => cons u <$> decode rest
  | Octet b :: rest =>
      if b <? 128 then cons b <$> decode rest
      else if b <? 192 then None
      else if b <? 224 then
        match rest with
        | Octet b1 :: rest1 =>
            let cp := (b - 192) * 64 + (b1 - 128) in
            if continuation b1 && (128 <=? cp)
            then app (utf16 cp) <$> decode rest1 else None
        | _ => None
        end
      else if b <? 240 then
        match rest with
        | Octet b1 :: Octet b2 :: rest2 =>
            let cp := (b - 224) * 4096 + (b1 - 128) * 64 + (b2 - 128) in
            if continuation b1 && continuation b2 && (2048 <=? cp)
               && negb ((55296 <=? cp) && (cp <=? 57343))
            then app (utf16 cp) <$> decode rest2 else None
        | _ => None
        end
      else if b <? 248 then
        match rest with
        | Octet b1 :: Octet b2 :: Octet b3 :: rest3 =>
            let cp := (b - 240) * 262144 + (b1 - 128) * 4096 + (b2 - 128) * 64 + (b3 - 128) in
            if continuation b1 && continuation b2 && continuation b3
               && (65536 <=? cp) && (cp <=? 1114111)
            then app (utf16 cp) <$> decode rest3 else None
        | _ => None
        end
      else None
  end.

Definition decodeURIComponent (s : string) : option (list N) :=
  tokens s ≫= decode.

(** *** The handlers *)

Record Resource := {
  uri : string;
  name : string;
  description : string;
  mimeType : string;
}.

Definition LIBRARY : string := "conversationlm://library".

Definition METADATA : string := "conversationlm://metadata".

Definition prefix : string := "conversationlm://library/".

(** Characters outside ASCII stand in the fixed texts as their UTF-8
    bytes. *)
Definition libraryResource : Resource :=
  {| uri := LIBRARY;
     name := "Conversation Library";
     description :=
       "Complete conversation library with all available knowledge sources. " +:+
       "Read this to discover what conversations are available. " +:+
       "⚠️ If you think a conversation might help with the user's task, " +:+
       "ASK THE USER FOR PERMISSION before consulting it: " +:+
       "'Should I consult the [conversation] for this task?'";
     mimeType := "application/json" |}.

Definition conversationResource (conversation : Entry.t) : Resource :=
  {| uri := prefix +:+ Entry.id conversation;
     name := Entry.name conversation;
     description :=
       Entry.description conversation +:+ " | Topics: " +:+
       JS.join ", " (Entry.topics conversation) +:+ " | " +:+
       "💡 Use ask_question to query this conversation (ask user permission first if task isn't explicitly about these topics)";
     mimeType := "application/json" |}.

Definition metadataResource : Resource :=
  {| uri := METADATA;
     name := "Active Conversation Metadata (Legacy)";
     description :=
       "Information about the currently active conversation. " +:+
       "DEPRECATED: Use conversationlm://library instead for multi-conversation support. " +:+
       "⚠️ Always ask user permission before using conversations for tasks they didn't explicitly mention.";
     mimeType := "application/json" |}.

(** The [ListResources] handler. *)
Definition listResources (this : Library.t) : list Resource :=
  let conversations := ConversationLibrary.listConversations this in
  ([libraryResource]
   ++ (conversationResource <$> conversations)
   ++ match ConversationLibrary.getActiveConversation this with
      | Some _ => [metadataResource]
      | None => []
      end)%list.

Record ActiveSummary := {
  active_id : string;
  active_name : string;
  active_description : string;
  active_topics : list string;
}.

Record ConversationSummary := {
  summary_id : string;
  summary_name : string;
  summary_description : string;
  summary_topics : list string;
  summary_content_types : list string;
  summary_use_cases : list string;
  summary_url : string;
  summary_use_count : nat;
  summary_last_used : string;
  summary_tags : option (list string);
}.

Record Metadata := {
  meta_description : string;
  meta_topics : list string;
  meta_content_types : list string;
  meta_use_cases : list string;
  meta_gemini_url : string;
  meta_conversation_id : string;
  meta_last_used : string;
  meta_use_count : nat;
  meta_note : string;
}.

(** The value a resource text is the [JSON.stringify] of. *)
Inductive Body :=
| LibraryData (active_conversation : option ActiveSummary)
    (conversations : list ConversationSummary)
    (stats : ConversationLibrary.LibraryStats)
| ConversationData (conversation : Entry.t)
| MetadataData (metadata : Metadata).

Record Content := {
  content_uri : string;
  content_mimeType : string;
  text : Body;
}.

Definition summarise (nb : Entry.t) : ConversationSummary :=
  {| summary_id := Entry.id nb;
     summary_name := Entry.name nb;
     summary_description := Entry.description nb;
     summary_topics := Entry.topics nb;
     summary_content_types := Entry.content_types nb;
     summary_use_cases := Entry.use_cases nb;
     summary_url := Entry.url nb;
     summary_use_count := Entry.use_count nb;
     summary_last_used := Entry.last_used nb;
     summary_tags := Entry.tags nb |}.

Definition is_letter_or_digit (u : N) : bool :=
  ((97 <=? u) && (u <=? 122)) || ((65 <=? u) && (u <=? 90)) || ((48 <=? u) && (u <=? 57)).

Definition is_id_unit (u : N) : bool := is_letter_or_digit u || (u =? 45).

(** [/^[a-z0-9][a-z0-9-]{0,62}$/i.test(id)] *)
Definition id_pattern (id : list N) : bool :=
  match id with
  | [] => false
  | u :: rest =>
      is_letter_or_digit u && forallb is_id_unit rest && (length rest <=? 62)%nat
  end.

Definition error {A} (message : string) : Thrown + A := inl (ThrownError PlainError message).

(** The [ReadResource] handler. *)
Definition readResource (uri : string) (this : Library.t) : Thrown + list Content :=
  if String.eqb uri LIBRARY then
    let conversations := ConversationLibrary.listConversations this in
    let stats := ConversationLibrary.getStats this in
    let active := ConversationLibrary.getActiveConversation this in
    let libraryData :=
      LibraryData
        ((fun a => {| active_id := Entry.id a;
                      active_name := Entry.name a;
                      active_description := Entry.description a;
                      active_topics := Entry.topics a |}) <$> active)
        (summarise <$> conversations)
        stats in
    inr [{| content_uri := uri; content_mimeType := "application/json"; text := libraryData |}]
  else if String.prefix prefix uri then
    let encodedId := JS.drop (String.length prefix) uri in
    if JS.is_empty encodedId then
      error "Conversation resource requires an ID (e.g. conversationlm://library/{id})"
    else
      match decodeURIComponent encodedId with
      | None => error ("Invalid conversation identifier encoding: " +:+ encodedId)
      | Some id =>
          if negb (id_pattern id) then
            error ("Invalid conversation identifier: " +:+ encodedId +:+
                   ". Conversation IDs may only contain letters, numbers, and hyphens.")
          else
            let id := string_of_units id in
            match ConversationLibrary.getConversation id this with
            | None => error ("Conversation not found: " +:+ id)
            | Some conversation =>
                inr [{| content_uri := uri;
                        content_mimeType := "application/json";
                        text := ConversationData conversation |}]
            end
      end
  else if String.eqb uri METADATA then
    match ConversationLibrary.getActiveConversation this with
    | None =>
        error "No active conversation. Use conversationlm://library to see all conversations."
    | Some active =>
        let metadata :=
          {| meta_description := Entry.description active;
             meta_topics := Entry.topics active;
             meta_content_types := Entry.content_types active;
             meta_use_cases := Entry.use_cases active;
             meta_gemini_url := Entry.url active;
             meta_conversation_id := Entry.id active;
             meta_last_used := Entry.last_used active;
             meta_use_count := Entry.use_count active;
             meta_note :=
               "DEPRECATED: Use conversationlm://library or conversationlm://library/{id} instead" |} in
        inr [{| content_uri := uri;
                content_mimeType := "application/json";
                text := MetadataData metadata |}]
    end
  else error ("Unknown resource: " +:+ uri).

(** [completeConversationIds(input)]; [input] is the [String()] rendering
    of the argument value, [None] when it is [undefined] or [null]. *)
Definition completeConversationIds (input : option string) (this : Library.t)
    : list string :=
  let query := JS.toLowerCase (default "" input) in
  take 50
    (filter (fun id => JS.includes (JS.toLowerCase id) query = true)
       (Entry.id <$> ConversationLibrary.listConversations this)).

Record Completion := {
  values : list string;
  total : nat;
}.

(** [buildCompletion(values)] *)
Definition buildCompletion (values : list string) : Completion :=
  {| values := values; total := length values |}.

(** The [ref] and [argument] of a completion request; a field that is
    absent is [None]. *)
Record Ref := { ref_type : option string; ref_uri : option string }.

Record Argument := { arg_name : option string; arg_value : option string }.

(** The [Complete] handler. *)
Definition complete (ref : option Ref) (argument : option Argument) (this : Library.t)
    : Completion :=
  let no_completion := {| values := []; total := 0%nat |} in
  match ref with
  | Some r =>
      if bool_decide (ref_type r = Some "ref/resource") then
        let uri := JS.or_else (ref_uri r) "" in
        if String.eqb uri "conversationlm://library/{id}"
           && bool_decide (argument ≫= arg_name = Some "id")
        then buildCompletion (completeConversationIds (argument ≫= arg_value) this)
        else no_completion
      else no_completion
  | None => no_completion
  end.

End ResourceHandlers.

(** * Statements and sample data *)

(** An optional string that is present and not the empty string. *)
Definition nonempty (x : option string) : option string :=
  match x with
  | Some EmptyString => None
  | _ => x
  end.

(** The library entry an id names: the first listed entry that carries
    it. *)
Definition entry_named (id : string) (lib : Library.t) : option Entry.t :=
  head (filter (fun n => Entry.id n = id) (Library.conversations lib)).

Inductive Resolution :=
| UseUrl (url : option string)
| NotInLibrary (conversation_id : string).

(** The precedence of target URLs with every string taken as it comes: an
    explicit [gemini_url]; else the library entry [conversation_id] names,
    which must exist; else the active conversation, if an active id is set;
    else nothing. *)
Definition stated_precedence (gemini_url conversation_id : option string)
    (lib : Library.t) : Resolution :=
  match gemini_url, conversation_id, Library.active_conversation_id lib with
  | Some url, _, _ => UseUrl (Some url)
  | None, Some id, _ =>
      match entry_named id lib with
      | Some c => UseUrl (Some (Entry.url c))
      | None => NotInLibrary id
      end
  | None, None, Some a =>
      match entry_named a lib with
      | Some c => UseUrl (Some (Entry.url c))
      | None => UseUrl None
      end
  | None, None, None => UseUrl None
  end.

(** The same precedence with an empty string counted as absent, be it an
    argument or the active id. With nothing to bind, the session is
    requested with [gemini_url] as it came, absent or empty. *)
Definition precedence (gemini_url conversation_id : option string) (lib : Library.t)
    : Resolution :=
  match nonempty gemini_url, nonempty conversation_id,
        nonempty (Library.active_conversation_id lib) with
  | Some url, _, _ => UseUrl (Some url)
  | None, Some id, _ =>
      match entry_named id lib with
      | Some c => UseUrl (Some (Entry.url c))
      | None => NotInLibrary id
      end
  | None, None, Some a =>
      match entry_named a lib with
      | Some c => UseUrl (Some (Entry.url c))
      | None => UseUrl gemini_url
      end
  | None, None, None => UseUrl gemini_url
  end.

(** An ask_question call follows a precedence [rule]. When the rule finds
    that [conversation_id] names no entry, the call fails, its error
    carrying "Conversation not found in library" and the id, and the session
    manager is neither called nor changed. When the rule gives a URL, the
    call makes no call at all or its first call is [getOrCreateSession] with
    the session id given and that URL; it is made when the library can be
    written and the progress callback does not throw. *)
Definition target_url_follows
    (rule : option string -> option string -> Library.t -> Resolution)
    (args : ToolHandlers.AskQuestionArgs) (env : ToolHandlers.AskEnv)
    (w : ToolHandlers.World) : Prop :=
  let out := ToolHandlers.handleAskQuestion args env w in
  match rule (ToolHandlers.gemini_url args) (ToolHandlers.conversation_id args)
          (ToolHandlers.library w) with
  | NotInLibrary cid =>
      ToolHandlers.success out.1 = false
      ∧ (∃ lead, ToolHandlers.error out.1
                 = Some (lead +:+ "Conversation not found in library: " +:+ cid))
      ∧ ToolHandlers.calls out.2 = ToolHandlers.calls w
      ∧ ToolHandlers.sessionManager out.2 = ToolHandlers.sessionManager w
  | UseUrl u =>
      let request :=
        ToolHandlers.CallGetOrCreateSession (ToolHandlers.session_id args) u
          (ToolHandlers.overrideHeadless (ToolHandlers.show_browser args)
             (ToolHandlers.browser_options args)) in
      (ToolHandlers.calls out.2 = ToolHandlers.calls w
       ∨ ∃ rest, ToolHandlers.calls out.2 = (ToolHandlers.calls w ++ request :: rest)%list)
      ∧ (write_error (ToolHandlers.io env) = None ->
         (ToolHandlers.sendProgress env
            ≫= fun f => f "Getting or creating browser session..." 1 5) = None ->
         ∃ rest, ToolHandlers.calls out.2 = (ToolHandlers.calls w ++ request :: rest)%list)
  end.

Module Sample.

Definition clock0 : IO := {| now := "2025-01-01T00:00:00.000Z"; write_error := None |}.

Definition docs_input : AddConversationInput :=
  {| add_url := "https://gemini.google.com/app/docs";
     add_name := "Docs";
     add_description := "Project documentation";
     add_topics := ["api"];
     add_content_types := None;
     add_use_cases := None;
     add_tags := None |}.

Definition one_docs : Library.t :=
  Eval vm_compute in
    default (ConversationLibrary.emptyLibrary clock0)
      (snd <$> ConversationLibrary.addConversation clock0 docs_input
                 (ConversationLibrary.emptyLibrary clock0)).

(** The library after adding a conversation named Docs twice. *)
Definition two_docs : Library.t :=
  Eval vm_compute in
    default one_docs (snd <$> ConversationLibrary.addConversation clock0 docs_input one_docs).

Definition good_profile : SessionManager.Profile :=
  {| SessionManager.profile_path := "chrome_profile";
     SessionManager.strategy := SessionManager.single |}.

(** Collaborators that all succeed, at time [t]. *)
Definition good_acquire (t : Z) : SessionManager.Acquire :=
  {| SessionManager.clock := t;
     SessionManager.generated_id := "generated";
     SessionManager.allocated := inr good_profile;
     SessionManager.credentials := Some "state.json";
     SessionManager.started := None |}.

(** Two idle sessions under a maximum of two. *)
Definition full_manager : SessionManager.t :=
  Eval vm_compute in
    (SessionManager.createAll [("a", good_acquire 10); ("b", good_acquire 20)]
       (SessionManager.init 2 900)).2.

Definition session_s1 : SessionManager.Session :=
  SessionManager.mkSession "s1" 0 0 0 None SessionManager.busy good_profile.

(** One session, asked a question at time 0 that has not come back. *)
Definition busy_manager : SessionManager.t :=
  Eval vm_compute in
    SessionManager.beginAsk "s1"
      (SessionManager.getOrCreateSession (good_acquire 0) (Some "s1") None None
         (SessionManager.init 2 900)).2.

(** A disk whose shared profile directory is held by a running browser. *)
Definition held_profile_disk : CleanupManager.Disk :=
  <["chrome_profile" := {| CleanupManager.category := Some CleanupManager.Profiles;
                           CleanupManager.bytes := 100;
                           CleanupManager.locked := true |}]>
    (<["state.json" := {| CleanupManager.category := Some CleanupManager.AuthData;
                          CleanupManager.bytes := 5;
                          CleanupManager.locked := false |}]> ∅).

Definition world : ToolHandlers.World :=
  ToolHandlers.mkWorld two_docs (SessionManager.init 2 900)
    (Config.DEFAULTS {| Config.paths_config := "config"; Config.paths_data := "data" |})
    held_profile_disk [].

(** A question for the second Docs conversation. *)
Definition ask_docs : ToolHandlers.AskQuestionArgs :=
  {| ToolHandlers.question := "What changed?";
     ToolHandlers.session_id := None;
     ToolHandlers.conversation_id := Some "docs-1";
     ToolHandlers.gemini_url := None;
     ToolHandlers.show_browser := None;
     ToolHandlers.browser_options := None |}.

Definition asked (raw : Thrown + string) : ToolHandlers.AskEnv :=
  {| ToolHandlers.io := clock0;
     ToolHandlers.acquire := good_acquire 100;
     ToolHandlers.answered_at := 130;
     ToolHandlers.rawAnswer := raw;
     ToolHandlers.sendProgress := None |}.

Definition answering : ToolHandlers.AskEnv :=
  asked (inr ("Nothing changed.  " +:+ ToolHandlers.LF)).

Definition quota_error : Thrown := ThrownError RateLimitError "Daily quota exceeded".

Definition limited : ToolHandlers.AskEnv := asked (inl quota_error).

End Sample.

(** ** The shape of ids *)

(** A lower-case letter, a digit or a hyphen. *)
Definition is_slug_char (c : ascii) : bool :=
  ConversationLibrary.is_alnum c || ConversationLibrary.is_dash c.

Definition starts_with_dash (s : string) : bool :=
  match s with
  | String c _ => ConversationLibrary.is_dash c
  | EmptyString => false
  end.

(** Two hyphens in a row somewhere. *)
Fixpoint dash_pair (s : string) : bool :=
  match s with
  | String c s' => (ConversationLibrary.is_dash c && starts_with_dash s') || dash_pair s'
  | EmptyString => false
  end.

(** Some code unit is a lower-case letter or a digit. *)
Fixpoint has_alnum (s : string) : bool :=
  match s with
  | String c s' => ConversationLibrary.is_alnum c || has_alnum s'
  | EmptyString => false
  end.

(** ** The shape of configuration values *)

Definition starts_with_digit (s : string) : bool :=
  match s with
  | String c _ => JS.is_digit c
  | EmptyString => false
  end.

Definition is_comma (c : ascii) : bool := (JS.code c =? 44)%nat.

(** The digit 9, [n] times. *)
Fixpoint nines (n : nat) : string :=
  match n with
  | O => EmptyString
  | S n' => String "9" (nines n')
  end.

(** An element of a list read from the environment: not empty, no white
    space in front or behind, no comma. *)
Definition is_element (s : string) : Prop :=
  s ≠ "" ∧ JS.starts_with_space s = false ∧ JS.ends_with_space s = false
  ∧ JS.all (fun c => negb (is_comma c)) s = true.

(** ** More sample data *)

Module Cases.

(** The second Docs conversation of [Sample.two_docs]. *)
Definition second_docs : Entry.t :=
  Eval vm_compute in
    default (ConversationLibrary.newEntry Sample.clock0 "" Sample.docs_input)
      (ConversationLibrary.getConversation "docs-1" Sample.two_docs).

Definition first_docs : Entry.t :=
  Eval vm_compute in
    default (ConversationLibrary.newEntry Sample.clock0 "" Sample.docs_input)
      (ConversationLibrary.getConversation "docs" Sample.two_docs).

(** A new name and nothing else. *)
Definition rename : UpdateConversationInput :=
  {| upd_id := "docs";
     upd_name := Some "Handbook";
     upd_description := Some "";
     upd_topics := None;
     upd_content_types := None;
     upd_use_cases := None;
     upd_tags := None;
     upd_url := None |}.

Definition no_environment : Config.Env := fun _ => None.

Definition paths : Config.Paths :=
  {| Config.paths_config := "config"; Config.paths_data := "data" |}.

(** A conversation whose name has neither letter nor digit. *)
Definition unnamed_input : AddConversationInput :=
  {| add_url := "https://gemini.google.com/app/unnamed";
     add_name := "?!";
     add_description := "A conversation without a name";
     add_topics := ["misc"];
     add_content_types := None;
     add_use_cases := None;
     add_tags := None |}.

(** The library after adding it to the empty library. *)
Definition unnamed_library : Library.t :=
  Eval vm_compute in
    default (ConversationLibrary.emptyLibrary Sample.clock0)
      (snd <$> ConversationLibrary.addConversation Sample.clock0 unnamed_input
                 (ConversationLibrary.emptyLibrary Sample.clock0)).

Definition notes_input : AddConversationInput :=
  {| add_url := "https://gemini.google.com/app/notes";
     add_name := "Notes";
     add_description := "Meeting notes";
     add_topics := ["meetings"];
     add_content_types := None;
     add_use_cases := None;
     add_tags := None |}.

(** Docs, the active conversation, and Notes. *)
Definition docs_and_notes : Library.t :=
  Eval vm_compute in
    default Sample.one_docs
      (snd <$> ConversationLibrary.addConversation Sample.clock0 notes_input
                 Sample.one_docs).

Definition world_of (lib : Library.t) : ToolHandlers.World :=
  ToolHandlers.mkWorld lib (SessionManager.init 2 900) (Config.DEFAULTS paths)
    Sample.held_profile_disk [].

(** A question with the two arguments that choose the target URL. *)
Definition ask (gemini_url conversation_id : option string) : ToolHandlers.AskQuestionArgs :=
  {| ToolHandlers.question := "What changed?";
     ToolHandlers.session_id := None;
     ToolHandlers.conversation_id := conversation_id;
     ToolHandlers.gemini_url := gemini_url;
     ToolHandlers.show_browser := None;
     ToolHandlers.browser_options := None |}.

(** A question that asks for a visible browser. *)
Definition ask_visible : ToolHandlers.AskQuestionArgs :=
  {| ToolHandlers.question := "What changed?";
     ToolHandlers.session_id := None;
     ToolHandlers.conversation_id := None;
     ToolHandlers.gemini_url := None;
     ToolHandlers.show_browser := Some true;
     ToolHandlers.browser_options := None |}.

(** Two calls one after the other, six steps each. *)
Definition in_turn : list bool :=
  [true; true; true; true; true; true; false; false; false; false; false; false].

(** The second call starts while the first waits for its session. *)
Definition overlapping : list bool :=
  [true; true; false; false; true; true; true; true; false; false; false; false].

End Cases.

(** * Properties *)

(** ** Strings *)

Lemma of_nat_inj (n m : nat) : JS.of_nat n = JS.of_nat m -> n = m.
Proof.
  unfold JS.of_nat. intros H.
  assert (Hu : Nat.to_uint n = Nat.to_uint m).
  { apply (f_equal NilEmpty.uint_of_string) in H.
    rewrite !NilEmpty.usu in H. now injection H. }
  apply (f_equal Nat.of_uint) in Hu.
  now rewrite !Unsigned.of_to in Hu.
Qed.

Lemma append_cons (c : ascii) (s t : string) : String c s +:+ t = String c (s +:+ t).
Proof. reflexivity. Qed.

Lemma append_nil_l (t : string) : "" +:+ t = t.
Proof. reflexivity. Qed.

Lemma append_empty_r (s : string) : s +:+ "" = s.
Proof.
  induction s as [|c s IH]; [reflexivity|].
  rewrite append_cons. congruence.
Qed.

Lemma append_assoc (a b c : string) : (a +:+ b) +:+ c = a +:+ (b +:+ c).
Proof.
  induction a as [|x a IH]; [reflexivity|].
  rewrite !append_cons. congruence.
Qed.

Lemma candidate_inj (base : string) (j k : nat) :
  ConversationLibrary.candidate base j = ConversationLibrary.candidate base k -> j = k.
Proof.
  destruct j as [|j], k as [|k]; unfold ConversationLibrary.candidate;
    intros H; try reflexivity.
  - rewrite <- (append_empty_r base) in H at 1.
    apply String.app_inj in H. rewrite append_cons in H. discriminate.
  - rewrite <- (append_empty_r base) in H at 2.
    apply String.app_inj in H. rewrite append_cons in H. discriminate.
  - do 2 apply String.app_inj in H. now apply of_nat_inj.
Qed.

(** ** The id search of [generateId] *)

Section GenerateId.

Import ConversationLibrary.

Variable taken : list string.
Variable base : string.

Lemma generateId_loop_fresh fuel id counter r :
  generateId_loop fuel taken base id counter = Some r -> r ∉ taken.
Proof.
  revert id counter. induction fuel as [|fuel IH]; simpl; intros id counter H.
  - discriminate.
  - case_bool_decide as Hin.
    + eapply IH, H.
    + congruence.
Qed.

(** Leaving the loop: the result is the first candidate not taken. *)
Lemma generateId_loop_some fuel j r :
  generateId_loop fuel taken base (candidate base j) (S j) = Some r ->
  ∃ k, (j <= k)%nat ∧ r = candidate base k ∧ (candidate base k ∉ taken)
       ∧ (∀ i, (j <= i)%nat -> (i < k)%nat -> candidate base i ∈ taken).
Proof.
  revert j. induction fuel as [|fuel IH]; simpl; intros j H.
  - discriminate.
  - case_bool_decide as Hin.
    + destruct (IH (S j) H) as (k & Hk & -> & Hfresh & Hbelow).
      exists k. repeat split; [lia | assumption |].
      intros i Hi1 Hi2. destruct (decide (i = j)) as [->|]; [assumption|].
      apply Hbelow; lia.
    + injection H as <-. exists j. repeat split; [lia | assumption |].
      intros i Hi1 Hi2. lia.
Qed.

(** Running out of fuel: every candidate tried was taken. *)
Lemma generateId_loop_none fuel j :
  generateId_loop fuel taken base (candidate base j) (S j) = None ->
  ∀ i, (j <= i)%nat -> (i < j + fuel)%nat -> candidate base i ∈ taken.
Proof.
  revert j. induction fuel as [|fuel IH]; simpl; intros j H i Hi1 Hi2.
  - lia.
  - case_bool_decide as Hin; [|discriminate].
    destruct (decide (i = j)) as [->|]; [assumption|].
    apply (IH (S j) H); lia.
Qed.

(** One more iteration than there are taken ids is always enough. *)
Lemma generateId_loop_terminates :
  generateId_loop (S (length taken)) taken base base 1 ≠ None.
Proof.
  intros H.
  pose proof (generateId_loop_none (S (length taken)) 0 H) as Hall.
  set (tried := candidate base <$> seq 0 (S (length taken))).
  assert (Hnodup : NoDup tried).
  { apply NoDup_fmap_2_strong; [|apply NoDup_seq].
    intros a b _ _. apply candidate_inj. }
  assert (Hsub : tried ⊆+ taken).
  { apply NoDup_submseteq; [assumption|].
    intros x Hx. apply list_elem_of_fmap in Hx as (i & -> & Hi).
    apply elem_of_seq in Hi. apply Hall; lia. }
  apply submseteq_length in Hsub.
  unfold tried in Hsub. rewrite length_fmap, length_seq in Hsub. lia.
Qed.

End GenerateId.

(** ** The conversation library *)

Section LibraryFacts.

Import ConversationLibrary Library.

Lemma find_by_id_Some id this i c :
  find_by_id id this = Some (i, c) ->
  conversations this !! i = Some c ∧ Entry.id c = id.
Proof.
  unfold find_by_id. intros H. apply list_find_Some in H as (Hl & Hid & _).
  split; assumption.
Qed.

Lemma find_by_id_None id this : find_by_id id this = None <-> id ∉ ids this.
Proof.
  unfold find_by_id, ids. rewrite list_find_None, Forall_forall. split.
  - intros H Hin. apply list_elem_of_fmap in Hin as (c & -> & Hc).
    now apply (H c Hc).
  - intros H c Hc Hid. apply H. apply list_elem_of_fmap. exists c.
    split; [congruence | assumption].
Qed.

Lemma find_by_id_listed id this i c : find_by_id id this = Some (i, c) -> id ∈ ids this.
Proof.
  intros H. apply find_by_id_Some in H as [Hl <-].
  unfold ids. apply list_elem_of_fmap. exists c. split; [reflexivity|].
  eapply list_elem_of_lookup_2, Hl.
Qed.

(** Rewriting the found entry by one with the same id keeps the list of
    ids. *)
Lemma ids_rewrite id this i c e :
  find_by_id id this = Some (i, c) -> Entry.id e = Entry.id c ->
  Entry.id <$> <[i := e]> (conversations this) = ids this.
Proof.
  intros H He. apply find_by_id_Some in H as [Hl _].
  unfold ids. rewrite list_fmap_insert, He. apply list_insert_id.
  now rewrite list_lookup_fmap, Hl.
Qed.

Lemma saveLibrary_cases io updated this :
  (write_error io = None
   ∧ saveLibrary io updated this = (inr tt, with_last_modified (now io) updated))
  ∨ (∃ err, write_error io = Some err ∧ saveLibrary io updated this = (inl err, this)).
Proof.
  unfold saveLibrary. destruct (write_error io) as [err|]; [right; eauto | left; auto].
Qed.

(** What [selectConversation] does to the ids and to the active id. *)
Lemma selectConversation_effect io id this r this' :
  selectConversation io id this = (r, this') ->
  ids this' = ids this
  ∧ (active_conversation_id this' = active_conversation_id this
     ∨ (active_conversation_id this' = Some id ∧ id ∈ ids this)).
Proof.
  unfold selectConversation. destruct (find_by_id id this) as [[i c]|] eqn:Hf.
  - pose proof (ids_rewrite id this i c (touch io c) Hf eq_refl) as Hids.
    pose proof (find_by_id_listed _ _ _ _ Hf) as Hin.
    unfold bind, saveLibrary. destruct (write_error io); intros [= <- <-];
      unfold ids; simpl; auto.
  - intros [= <- <-]. auto.
Qed.

Lemma updateConversation_effect io input this r this' :
  updateConversation io input this = (r, this') ->
  ids this' = ids this ∧ active_conversation_id this' = active_conversation_id this.
Proof.
  unfold updateConversation.
  destruct (find_by_id (upd_id input) this) as [[i c]|] eqn:Hf.
  - pose proof (ids_rewrite _ this i c (merge input c) Hf eq_refl) as Hids.
    unfold bind, saveLibrary. destruct (write_error io); intros [= <- <-];
      unfold ids; simpl; auto.
  - intros [= <- <-]. auto.
Qed.

Lemma incrementUseCount_effect io id this r this' :
  incrementUseCount io id this = (r, this') ->
  ids this' = ids this ∧ active_conversation_id this' = active_conversation_id this.
Proof.
  unfold incrementUseCount. destruct (find_by_id id this) as [[i c]|] eqn:Hf.
  - pose proof (ids_rewrite _ this i c (used io c) Hf eq_refl) as Hids.
    unfold bind, saveLibrary. destruct (write_error io); intros [= <- <-];
      unfold ids; simpl; auto.
  - intros [= <- <-]. auto.
Qed.

Lemma ids_filter id (cs : list Entry.t) :
  Entry.id <$> filter (fun n => Entry.id n ≠ id) cs
  = filter (fun x => x ≠ id) (Entry.id <$> cs).
Proof.
  induction cs as [|c cs IH]; [reflexivity|].
  rewrite fmap_cons, !filter_cons. destruct (decide (Entry.id c ≠ id)).
  - rewrite fmap_cons. congruence.
  - assumption.
Qed.

(** [removeConversation] changes nothing, or drops the entries named [id]
    and moves the active id off a dropped entry. *)
Lemma removeConversation_effect io id this r this' :
  removeConversation io id this = (r, this') ->
  this' = this
  ∨ (r = inr true
     ∧ write_error io = None
     ∧ id ∈ ids this
     ∧ conversations this' = filter (fun n => Entry.id n ≠ id) (conversations this)
     ∧ active_conversation_id this' =
         if bool_decide (active_conversation_id this = Some id)
         then Entry.id <$> head (conversations this')
         else active_conversation_id this).
Proof.
  unfold removeConversation, getConversation.
  destruct (find_by_id id this) as [[i c]|] eqn:Hf; simpl.
  - pose proof (find_by_id_listed _ _ _ _ Hf) as Hin.
    unfold bind, saveLibrary. destruct (write_error io) as [err|].
    + intros [= <- <-]. now left.
    + intros [= <- <-]. right. repeat split; try assumption.
      * case_bool_decide; reflexivity.
      * case_bool_decide; reflexivity.
  - intros [= <- <-]. now left.
Qed.

(** [addConversation] always comes back: it appends an entry whose id is the
    first candidate no listed conversation has, and makes it active when the
    save succeeds and it is the only entry. *)
Lemma addConversation_effect io input this :
  ∃ k r this',
    let id := candidate (slug (add_name input)) k in
    let c := newEntry io id input in
    addConversation io input this = Some (r, this')
    ∧ (id ∉ ids this)
    ∧ (∀ i, (i < k)%nat -> candidate (slug (add_name input)) i ∈ ids this)
    ∧ conversations this' = (conversations this ++ [c])%list
    ∧ match write_error io with
      | None =>
          r = inr c
          ∧ active_conversation_id this' =
              (if (length (conversations this) =? 0)%nat then Some id
               else active_conversation_id this)
      | Some err => r = inl err ∧ active_conversation_id this' = active_conversation_id this
      end.
Proof.
  unfold addConversation, generateId.
  destruct (generateId_loop (S (length (conversations this))) (ids this)
              (slug (add_name input)) (slug (add_name input)) 1) as [id|] eqn:Hloop.
  - pose proof (generateId_loop_some (ids this) (slug (add_name input)) _ 0 id Hloop)
      as (k & _ & -> & Hfresh & Hbelow).
    exists k. simpl. unfold bind, saveLibrary.
    assert (Hb : ∀ i, (i < k)%nat -> candidate (slug (add_name input)) i ∈ ids this).
    { intros i Hi. apply Hbelow; lia. }
    rewrite length_app, Nat.add_1_r. simpl.
    destruct (write_error io) as [err|]; simpl.
    + do 2 eexists. split; [reflexivity|]. auto.
    + do 2 eexists. split; [reflexivity|].
      destruct (conversations this) as [|c0 cs] eqn:Hcs; simpl; auto.
  - exfalso. revert Hloop. unfold ids. rewrite <- (length_fmap Entry.id).
    apply generateId_loop_terminates.
Qed.

Lemma step_library_ok this this' : step this this' -> library_ok this -> library_ok this'.
Proof.
  unfold library_ok, active_ok.
  intros Hstep [Hnd Hact]. destruct Hstep as
    [io input this r this' H | io id this r this' H | io input this r this' H
    | io id this r this' H | io id this r this' H].
  - destruct (addConversation_effect io input this)
      as (k & r0 & this0 & Heq & Hfresh & _ & Hcs & Hcase).
    rewrite Heq in H. injection H as <- <-.
    assert (Hids : ids this0 = (ids this ++ [candidate (slug (add_name input)) k])%list).
    { unfold ids. rewrite Hcs, fmap_app. reflexivity. }
    split.
    + rewrite Hids. apply NoDup_app. repeat split; [assumption | | apply NoDup_singleton].
      intros x Hx Hx'. apply list_elem_of_singleton in Hx'. congruence.
    + rewrite Hids. destruct (write_error io).
      * destruct Hcase as [_ ->]. destruct (active_conversation_id this); [|exact I].
        apply elem_of_app. now left.
      * destruct Hcase as [_ ->].
        destruct (length (conversations this) =? 0)%nat.
        -- apply elem_of_app. right. now apply list_elem_of_singleton.
        -- destruct (active_conversation_id this); [|exact I].
           apply elem_of_app. now left.
  - apply selectConversation_effect in H as [-> [-> | [-> Hin]]]; auto.
  - apply updateConversation_effect in H as [-> ->]; auto.
  - apply removeConversation_effect in H as [-> | (_ & _ & Hin & Hcs & Hact')]; [auto|].
    assert (Hids : ids this' = filter (fun x => x ≠ id) (ids this)).
    { unfold ids. rewrite Hcs. apply ids_filter. }
    split.
    + rewrite Hids. now apply NoDup_filter.
    + rewrite Hact'. case_bool_decide as Ha.
      * unfold ids. destruct (conversations this') as [|c cs]; simpl; [exact I|].
        apply list_elem_of_here.
      * destruct (active_conversation_id this) as [a|]; [|exact I].
        rewrite Hids. apply list_elem_of_filter. split; [congruence | assumption].
  - apply incrementUseCount_effect in H as [-> ->]; auto.
Qed.

Lemma reachable_library_ok this : reachable this -> library_ok this.
Proof.
  induction 1 as [io | this this' _ IH Hstep].
  - split; [apply NoDup_nil_2 | exact I].
  - eapply step_library_ok; eassumption.
Qed.

End LibraryFacts.

Section LibraryClaims.

Import ConversationLibrary Library.


(** C10: in every reachable library state the conversation ids are pairwise
    distinct. From such a state [addConversation] always comes back; the id
    of the entry it appends is the slug of the name when no conversation has
    it, and otherwise the slug followed by [-k] for the least [k >= 1] that
    no conversation has; [selectConversation], [updateConversation] and
    [incrementUseCount] leave the list of ids as it is, and
    [removeConversation] only drops ids. *)
Theorem C10_conversation_ids_are_distinct (this : Library.t) :
  reachable this ->
  NoDup (ids this)
  ∧ (∀ io input, ∃ k r this',
       addConversation io input this = Some (r, this')
       ∧ ids this' = (ids this ++ [candidate (slug (add_name input)) k])%list
       ∧ (candidate (slug (add_name input)) k ∉ ids this)
       ∧ (∀ i, (i < k)%nat -> candidate (slug (add_name input)) i ∈ ids this))
  ∧ (∀ io id r this', selectConversation io id this = (r, this') -> ids this' = ids this)
  ∧ (∀ io input r this', updateConversation io input this = (r, this') -> ids this' = ids this)
  ∧ (∀ io id r this', incrementUseCount io id this = (r, this') -> ids this' = ids this)
  ∧ (∀ io id r this', removeConversation io id this = (r, this') ->
       ids this' = ids this ∨ ids this' = filter (fun x => x ≠ id) (ids this)).
Proof.
  intros Hreach. destruct (reachable_library_ok this Hreach) as [Hnd _].
  split; [assumption|]. repeat split.
  - intros io input.
    destruct (addConversation_effect io input this)
      as (k & r & this' & Heq & Hfresh & Hbelow & Hcs & _).
    exists k, r, this'. split; [exact Heq|]. split; [|split; assumption].
    unfold ids. rewrite Hcs, fmap_app. reflexivity.
  - intros io id r this' H. now apply selectConversation_effect in H as [-> _].
  - intros io input r this' H. now apply updateConversation_effect in H as [-> _].
  - intros io id r this' H. now apply incrementUseCount_effect in H as [-> _].
  - intros io id r this' H.
    apply removeConversation_effect in H as [-> | (_ & _ & _ & Hcs & _)]; [now left|].
    right. unfold ids. rewrite Hcs. apply ids_filter.
Qed.

Lemma two_docs_ids : ids Sample.two_docs = ["docs"; "docs-1"].
Proof. vm_compute. reflexivity. Qed.

Lemma two_docs_reachable : reachable Sample.two_docs.
Proof.
  apply (reachable_step Sample.one_docs).
  - apply (reachable_step (emptyLibrary Sample.clock0)); [apply reachable_init|].
    eapply (step_add Sample.clock0 Sample.docs_input). vm_compute. reflexivity.
  - eapply (step_add Sample.clock0 Sample.docs_input). vm_compute. reflexivity.
Qed.


Lemma C10_witness : NoDup (ids Sample.two_docs).
Proof.
  exact (proj1 (C10_conversation_ids_are_distinct Sample.two_docs two_docs_reachable)).
Defined.

End LibraryClaims.

(** ** Trailing white space *)

Section TrimEnd.

Lemma trimEnd_empty_iff (s : string) :
  JS.is_empty (JS.trimEnd s) = true <-> JS.all_space s = true.
Proof.
  induction s as [|c s IH]; simpl; [tauto|].
  destruct (JS.is_space c); simpl.
  - destruct (JS.is_empty (JS.trimEnd s)); simpl; [tauto|]. rewrite <- IH. tauto.
  - split; discriminate.
Qed.

(** [trimEnd] cuts a suffix of white space off. *)
Lemma trimEnd_suffix (s : string) :
  ∃ ws, s = JS.trimEnd s +:+ ws ∧ JS.all_space ws = true.
Proof.
  induction s as [|c s (ws & IH & Hws)]; simpl.
  - exists "". split; reflexivity.
  - destruct (JS.is_space c && JS.is_empty (JS.trimEnd s)) eqn:Hc.
    + apply andb_true_iff in Hc as [Hc He]. apply trimEnd_empty_iff in He.
      exists (String c s). split; [reflexivity|]. simpl. now rewrite Hc.
    + exists ws. rewrite append_cons. split; [congruence | assumption].
Qed.

(** What is left does not end in white space. *)
Lemma trimEnd_tight (s : string) : JS.ends_with_space (JS.trimEnd s) = false.
Proof.
  induction s as [|c s IH]; simpl; [reflexivity|].
  destruct (JS.is_space c) eqn:Hc; simpl.
  - destruct (JS.trimEnd s) as [|d t] eqn:Ht; simpl; [reflexivity|]. exact IH.
  - destruct (JS.trimEnd s) as [|d t] eqn:Ht; simpl; [assumption | exact IH].
Qed.

Lemma all_space_append (a b : string) :
  JS.all_space (a +:+ b) = JS.all_space a && JS.all_space b.
Proof.
  induction a as [|c a IH]; [reflexivity|].
  rewrite append_cons. simpl. rewrite IH. now rewrite andb_assoc.
Qed.

Lemma reminder_is_not_space : JS.all_space ToolHandlers.FOLLOW_UP_REMINDER = false.
Proof. vm_compute. reflexivity. Qed.

(** The answer with the reminder appended is never the raw answer. *)
Lemma reminded_differs (raw : string) :
  JS.trimEnd raw +:+ ToolHandlers.FOLLOW_UP_REMINDER ≠ raw.
Proof.
  destruct (trimEnd_suffix raw) as (ws & Hraw & Hws). intros H.
  rewrite Hraw in H at 2. apply String.app_inj in H.
  rewrite <- H, reminder_is_not_space in Hws. discriminate.
Qed.

End TrimEnd.

(** ** The ask_question handler *)

Section Named.

Import ConversationLibrary Library.

Lemma list_find_head {A} (P : A -> Prop) `{!∀ x, Decision (P x)} (l : list A) :
  snd <$> list_find P l = head (filter P l).
Proof.
  induction l as [|x l IH]; [reflexivity|].
  simpl. rewrite filter_cons. destruct (decide (P x)); [reflexivity|].
  rewrite <- IH. destruct (list_find P l) as [[i y]|]; reflexivity.
Qed.

(** [getConversation] gives the first listed entry with the id. *)
Lemma getConversation_head (id : string) (this : Library.t) :
  getConversation id this = head (filter (fun n => Entry.id n = id) (conversations this)).
Proof. unfold getConversation, find_by_id. apply list_find_head. Qed.

Lemma getConversation_named (id : string) (this : Library.t) :
  getConversation id this = entry_named id this.
Proof. apply getConversation_head. Qed.

Lemma truthy_nonempty (x : option string) :
  JS.truthy x = match nonempty x with Some _ => true | None => false end.
Proof. destruct x as [[|c s]|]; reflexivity. Qed.

Lemma nonempty_default (x : option string) (s : string) :
  nonempty x = Some s -> default "" x = s.
Proof. destruct x as [[|c x]|]; [discriminate | now intros [= <-] | discriminate]. Qed.

Lemma nonempty_Some (x : option string) (s : string) :
  nonempty x = Some s -> x = Some s ∧ s ≠ "".
Proof.
  destruct x as [[|c x]|]; [discriminate | | discriminate].
  intros [= <-]. split; [reflexivity | discriminate].
Qed.

(** [getActiveConversation] gives the entry a non-empty active id names. *)
Lemma getActiveConversation_named (this : Library.t) :
  getActiveConversation this
  = match nonempty (active_conversation_id this) with
    | Some a => entry_named a this
    | None => None
    end.
Proof.
  unfold getActiveConversation. rewrite truthy_nonempty.
  destruct (active_conversation_id this) as [[|c a]|]; simpl; [reflexivity | | reflexivity].
  apply getConversation_named.
Qed.

(** The precedence through the tests the handler makes. *)
Lemma precedence_as_tested (g c : option string) (lib : Library.t) :
  precedence g c lib
  = if JS.truthy g then UseUrl g
    else if JS.truthy c then
      match getConversation (default "" c) lib with
      | Some e => UseUrl (Some (Entry.url e))
      | None => NotInLibrary (default "" c)
      end
    else
      match getActiveConversation lib with
      | Some active => UseUrl (Some (Entry.url active))
      | None => UseUrl g
      end.
Proof.
  unfold precedence. rewrite getActiveConversation_named, !truthy_nonempty.
  destruct (nonempty g) as [u|] eqn:Hg.
  - apply nonempty_Some in Hg as [-> _]. reflexivity.
  - destruct (nonempty c) as [id|] eqn:Hc.
    + rewrite (nonempty_default _ _ Hc), getConversation_named. reflexivity.
    + destruct (nonempty (active_conversation_id lib)); reflexivity.
Qed.

End Named.

Section AskFacts.

Import ToolHandlers.

Lemma getConversation_find id lib c :
  ConversationLibrary.getConversation id lib = Some c ->
  ∃ i, ConversationLibrary.find_by_id id lib = Some (i, c) ∧ Entry.id c = id.
Proof.
  unfold ConversationLibrary.getConversation.
  destruct (ConversationLibrary.find_by_id id lib) as [[i c']|] eqn:Hf; [|discriminate].
  intros [= <-]. exists i. split; [reflexivity|].
  now apply find_by_id_Some in Hf as [_ ?].
Qed.

Lemma getActiveConversation_find lib a :
  ConversationLibrary.getActiveConversation lib = Some a ->
  ∃ i, ConversationLibrary.find_by_id (Entry.id a) lib = Some (i, a).
Proof.
  unfold ConversationLibrary.getActiveConversation.
  destruct (JS.truthy _); [|discriminate].
  destruct (Library.active_conversation_id lib) as [aid|]; [|discriminate]. simpl.
  intros H. apply getConversation_find in H as (i & Hf & <-). eauto.
Qed.

(** An id the library does not know stops the resolution, whatever the
    disk does. *)
Lemma resolved_not_in_library io g c lib cid :
  precedence g c lib = NotInLibrary cid ->
  resolvedConversationUrl io g c lib
  = (inl (ThrownError PlainError ("Conversation not found in library: " +:+ cid)), lib).
Proof.
  rewrite precedence_as_tested. unfold resolvedConversationUrl.
  destruct (JS.truthy g); simpl; [discriminate|].
  destruct (JS.truthy c); simpl.
  - unfold ConversationLibrary.getConversation, bind,
      ConversationLibrary.incrementUseCount.
    destruct (ConversationLibrary.find_by_id (default "" c) lib) as [[i e]|];
      simpl; [discriminate|].
    now intros [= <-].
  - destruct (ConversationLibrary.getActiveConversation lib); discriminate.
Qed.

(** Otherwise the resolution gives the URL of the precedence, unless the
    library cannot be written. *)
Lemma resolved_by_precedence io g c lib u :
  precedence g c lib = UseUrl u ->
  write_error io = None ->
  ∃ lib', resolvedConversationUrl io g c lib = (inr u, lib').
Proof.
  rewrite precedence_as_tested. unfold resolvedConversationUrl. intros H Hw.
  destruct (JS.truthy g); simpl.
  - injection H as <-. eexists. reflexivity.
  - destruct (JS.truthy c); simpl.
    + destruct (ConversationLibrary.getConversation (default "" c) lib) as [e|] eqn:Hg;
        [|discriminate].
      injection H as <-. apply getConversation_find in Hg as (i & Hf & _).
      unfold bind, ConversationLibrary.incrementUseCount, ConversationLibrary.saveLibrary.
      rewrite Hf, Hw. simpl. eexists. reflexivity.
    + unfold bind, get.
      destruct (ConversationLibrary.getActiveConversation lib) as [a|] eqn:Ha.
      * injection H as <-. apply getActiveConversation_find in Ha as (i & Hf).
        unfold ConversationLibrary.incrementUseCount, bind,
          ConversationLibrary.saveLibrary.
        rewrite Hf, Hw. simpl. eexists. reflexivity.
      * injection H as <-. eexists. reflexivity.
Qed.

Lemma askQuestion_returns args env w res w' :
  askQuestion args env w = (inr res, w') ->
  ∃ raw, rawAnswer env = inr raw ∧ answer res = JS.trimEnd raw +:+ FOLLOW_UP_REMINDER.
Proof.
  unfold askQuestion, bind, try_finally, onLibrary, onSessionManager, progress,
    record, assignConfig, get, ret, throw, SessionManager.ask.
  intros H. repeat (case_match; simplify_eq/=); eauto.
Qed.

(** A resolution that throws ends the call before the session manager is
    reached. *)
Lemma askQuestion_unresolved args env w e lib' :
  resolvedConversationUrl (io env) (gemini_url args) (conversation_id args) (library w)
    = (inl e, lib') ->
  askQuestion args env w
  = (inl e, mkWorld lib' (sessionManager w) (CONFIG w) (disk w) (calls w)).
Proof.
  intros H. unfold askQuestion, bind, onLibrary. now rewrite H.
Qed.

(** A resolution that returns [u] is followed, unless the progress callback
    throws, by a request to the session manager for [u]. *)
Lemma askQuestion_requests args env w u lib' :
  resolvedConversationUrl (io env) (gemini_url args) (conversation_id args) (library w)
    = (inr u, lib') ->
  (sendProgress env ≫= fun f => f "Getting or creating browser session..." 1 5) = None ->
  ∃ rest,
    calls (askQuestion args env w).2
    = (calls w ++
       CallGetOrCreateSession (session_id args) u
         (overrideHeadless (show_browser args) (browser_options args)) :: rest)%list.
Proof.
  intros H Hp.
  unfold askQuestion, bind, try_finally, onLibrary, onSessionManager, progress,
    record, assignConfig, get, ret, throw, SessionManager.ask.
  rewrite H, Hp. simpl.
  repeat (case_match; simplify_eq/=); rewrite <- ?app_assoc; simpl; eauto.
Qed.

(** Whatever the disk does, a resolution that returns gives the URL of the
    precedence. *)
Lemma resolved_is_by_precedence io g c lib u u' lib' :
  precedence g c lib = UseUrl u ->
  resolvedConversationUrl io g c lib = (inr u', lib') ->
  u' = u.
Proof.
  rewrite precedence_as_tested. unfold resolvedConversationUrl. intros H.
  destruct (JS.truthy g); simpl.
  - injection H as <-. now intros [= <- _].
  - destruct (JS.truthy c); simpl.
    + destruct (ConversationLibrary.getConversation (default "" c) lib) as [e|] eqn:Hg;
        [|discriminate].
      injection H as <-. apply getConversation_find in Hg as (i & Hf & _).
      unfold bind, ConversationLibrary.incrementUseCount, ConversationLibrary.saveLibrary.
      rewrite Hf. destruct (write_error io); simpl; [discriminate|].
      now intros [= <- _].
    + unfold bind, get.
      destruct (ConversationLibrary.getActiveConversation lib) as [a|] eqn:Ha.
      * injection H as <-. apply getActiveConversation_find in Ha as (i & Hf).
        unfold ConversationLibrary.incrementUseCount, bind,
          ConversationLibrary.saveLibrary.
        rewrite Hf. destruct (write_error io); simpl; [discriminate|].
        now intros [= <- _].
      * injection H as <-. now intros [= <- _].
Qed.

(** A progress callback that throws ends the call before the session
    manager is reached. *)
Lemma askQuestion_interrupted args env w u lib' e :
  resolvedConversationUrl (io env) (gemini_url args) (conversation_id args) (library w)
    = (inr u, lib') ->
  (sendProgress env ≫= fun f => f "Getting or creating browser session..." 1 5) = Some e ->
  askQuestion args env w
  = (inl e, mkWorld lib' (sessionManager w) (CONFIG w) (disk w) (calls w)).
Proof.
  intros H Hp. unfold askQuestion, bind, onLibrary, progress, throw.
  now rewrite H, Hp.
Qed.

(** The session manager is asked for the URL of the precedence or not at
    all. *)
Lemma askQuestion_first_call args env w u :
  precedence (gemini_url args) (conversation_id args) (library w) = UseUrl u ->
  calls (askQuestion args env w).2 = calls w
  ∨ ∃ rest,
      calls (askQuestion args env w).2
      = (calls w ++
         CallGetOrCreateSession (session_id args) u
           (overrideHeadless (show_browser args) (browser_options args)) :: rest)%list.
Proof.
  intros Hp.
  destruct (resolvedConversationUrl (io env) (gemini_url args) (conversation_id args)
              (library w)) as [[e|u'] lib'] eqn:Hres.
  - left. now rewrite (askQuestion_unresolved args env w e lib' Hres).
  - pose proof (resolved_is_by_precedence _ _ _ _ _ _ _ Hp Hres) as ->.
    destruct (sendProgress env ≫= fun f => f "Getting or creating browser session..." 1 5)
      as [e|] eqn:Hprog.
    + left. now rewrite (askQuestion_interrupted args env w u lib' e Hres Hprog).
    + right. exact (askQuestion_requests args env w u lib' Hres Hprog).
Qed.

End AskFacts.

Lemma prefix_append (p a b : string) :
  String.prefix p a = true -> String.prefix p (a +:+ b) = true.
Proof.
  revert p. induction a as [|d a IH]; intros p H.
  - destruct p; [|discriminate]. destruct b; reflexivity.
  - rewrite append_cons. destruct p as [|c p]; [reflexivity|].
    simpl in *. destruct (ascii_dec c d); [now apply IH | discriminate].
Qed.

Lemma includes_append (a b p : string) :
  JS.includes a p = true -> JS.includes (a +:+ b) p = true.
Proof.
  induction a as [|c a IH]; intros H.
  - simpl in H. rewrite orb_false_r in H. destruct p; [|discriminate].
    destruct b; reflexivity.
  - change (String c a +:+ b) with (String c (a +:+ b)).
    simpl in H. apply orb_true_iff in H as [H|H].
    + apply (prefix_append p (String c a) b) in H.
      change (String c a +:+ b) with (String c (a +:+ b)) in H.
      change (JS.includes (String c (a +:+ b)) p)
        with (String.prefix p (String c (a +:+ b)) || JS.includes (a +:+ b) p).
      now rewrite H.
    + change (JS.includes (String c (a +:+ b)) p)
        with (String.prefix p (String c (a +:+ b)) || JS.includes (a +:+ b) p).
      rewrite (IH H). apply orb_true_r.
Qed.

Lemma toLowerCase_append (a b : string) :
  JS.toLowerCase (a +:+ b) = JS.toLowerCase a +:+ JS.toLowerCase b.
Proof.
  induction a as [|c a IH]; [reflexivity|].
  change (String c a +:+ b) with (String c (a +:+ b)).
  change (JS.toLowerCase (String c (a +:+ b)))
    with (String (JS.lower_char c) (JS.toLowerCase (a +:+ b))).
  rewrite IH. reflexivity.
Qed.

Section AskClaims.

Import ToolHandlers.

(** A message built from the rate-limit guidance is itself recognised as a
    rate-limit message. *)
Lemma guidance_is_recognised (m : string) :
  JS.includes (JS.toLowerCase (RATE_LIMIT_GUIDANCE +:+ m)) "rate limit" = true.
Proof.
  rewrite toLowerCase_append. apply includes_append. vm_compute. reflexivity.
Qed.

(** C5: when the [try] block of an ask_question call throws [e], the handler
    returns a failure whose error is the rate-limit guidance (followed by
    the original message) if [e] is a RateLimitError or its message contains
    "rate limit" in any letter case, and the bare message otherwise. The
    guidance names the re_auth tool and the wait until the quota resets. The
    two kinds of report never coincide: the error reported for a rate-limit
    failure differs from the error reported for any other failure, its own
    bare message included. *)
Theorem C5_rate_limit_is_told_apart (args : AskQuestionArgs) (env : AskEnv)
    (w w' : World) (e : Thrown) :
  askQuestion args env w = (inl e, w') ->
  let r := (handleAskQuestion args env w).1 in
  success r = false
  ∧ data r = None
  ∧ isRateLimit e =
      instanceof_RateLimitError e
      || JS.includes (JS.toLowerCase (error_message e)) "rate limit"
  ∧ error r = Some (if isRateLimit e
                    then RATE_LIMIT_GUIDANCE +:+ error_message e
                    else error_message e)
  ∧ JS.includes RATE_LIMIT_GUIDANCE "Use the 're_auth' tool to login with a different Google account" = true
  ∧ JS.includes RATE_LIMIT_GUIDANCE "Wait until tomorrow for the quota to reset" = true
  ∧ (isRateLimit e = true ->
       ∀ e', isRateLimit e' = false -> error r ≠ Some (error_message e')).
Proof.
  intros H r. subst r. unfold handleAskQuestion. rewrite H. simpl.
  unfold askQuestionCatch.
  split; [destruct (isRateLimit e); reflexivity|].
  split; [destruct (isRateLimit e); reflexivity|].
  split; [reflexivity|].
  split; [destruct (isRateLimit e); reflexivity|].
  split; [vm_compute; reflexivity|].
  split; [vm_compute; reflexivity|].
  intros He e' He'. rewrite He. simpl. intros [= Heq].
  unfold isRateLimit in He'. apply orb_false_iff in He' as [_ He'].
  rewrite <- Heq, guidance_is_recognised in He'. discriminate.
Qed.

(** The library with one entry under the empty id, which is also the active
    id, is a library the operations build. *)
Lemma unnamed_library_reachable :
  ConversationLibrary.reachable Cases.unnamed_library
  ∧ ConversationLibrary.ids Cases.unnamed_library = [""]
  ∧ Library.active_conversation_id Cases.unnamed_library = Some ""
  ∧ Entry.url <$> entry_named "" Cases.unnamed_library
    = Some "https://gemini.google.com/app/unnamed".
Proof.
  split; [|repeat split].
  apply (ConversationLibrary.reachable_step (ConversationLibrary.emptyLibrary Sample.clock0));
    [apply ConversationLibrary.reachable_init|].
  eapply (ConversationLibrary.step_add Sample.clock0 Cases.unnamed_input).
  vm_compute. reflexivity.
Qed.

(** C7, counterexample: the precedence with every string taken as it comes
    is not followed where a string is empty. With the empty id active and
    naming the one listed conversation, a call without arguments requests a
    session with no URL, not with that conversation's. With an empty
    [gemini_url] and a [conversation_id] that names Docs, the session is
    requested with the URL of Docs, not with the explicit one. With an empty
    [conversation_id], which names no entry of the two Docs conversations,
    the call does not fail: it succeeds on the active conversation. *)
Lemma C7_counterexample_empty_strings :
  (stated_precedence None None Cases.unnamed_library
   = UseUrl (Some "https://gemini.google.com/app/unnamed")
   ∧ calls (handleAskQuestion (Cases.ask None None) Sample.answering
              (Cases.world_of Cases.unnamed_library)).2
     = [CallGetOrCreateSession None None None; CallAsk "generated" "What changed?"]
   ∧ ¬ target_url_follows stated_precedence (Cases.ask None None) Sample.answering
         (Cases.world_of Cases.unnamed_library))
  ∧ (stated_precedence (Some "") (Some "docs") Sample.two_docs = UseUrl (Some "")
     ∧ calls (handleAskQuestion (Cases.ask (Some "") (Some "docs")) Sample.answering
                Sample.world).2
       = [CallGetOrCreateSession None (Some "https://gemini.google.com/app/docs") None;
          CallAsk "generated" "What changed?"]
     ∧ ¬ target_url_follows stated_precedence (Cases.ask (Some "") (Some "docs"))
           Sample.answering Sample.world)
  ∧ (stated_precedence None (Some "") Sample.two_docs = NotInLibrary ""
     ∧ success (handleAskQuestion (Cases.ask None (Some "")) Sample.answering
                  Sample.world).1 = true
     ∧ ¬ target_url_follows stated_precedence (Cases.ask None (Some ""))
           Sample.answering Sample.world).
Proof.
  split; [|split].
  - split; [vm_compute; reflexivity|]. split; [vm_compute; reflexivity|].
    intros [_ H]. specialize (H eq_refl eq_refl). destruct H as [rest H].
    vm_compute in H. discriminate H.
  - split; [vm_compute; reflexivity|]. split; [vm_compute; reflexivity|].
    intros [_ H]. specialize (H eq_refl eq_refl). destruct H as [rest H].
    vm_compute in H. discriminate H.
  - split; [vm_compute; reflexivity|]. split; [vm_compute; reflexivity|].
    intros [H _]. vm_compute in H. discriminate H.
Qed.

(** C7, amended: the URL an ask_question call asks the session manager for
    follows the precedence with an empty string counted as absent: a
    non-empty [gemini_url]; else the URL of the library entry a non-empty
    [conversation_id] names; else the URL of the active conversation, the
    entry a non-empty active id names; else none, the session being
    requested with [gemini_url] as it came. When the [conversation_id] names
    no entry the call fails, its error carrying "Conversation not found in
    library" and the id, and the session manager is neither called nor
    changed. Otherwise the call makes no call at all or its first call is
    [getOrCreateSession] with the session id given and that URL; it is made
    when the library can be written and the progress callback does not
    throw. *)
Theorem C7_target_url_precedence (args : AskQuestionArgs) (env : AskEnv) (w : World) :
  target_url_follows precedence args env w.
Proof.
  unfold target_url_follows. set (out := handleAskQuestion args env w).
  assert (Hout : out.2 = (askQuestion args env w).2).
  { subst out. unfold handleAskQuestion.
    destruct (askQuestion args env w) as [[e|res] w1]; reflexivity. }
  destruct (precedence (gemini_url args) (conversation_id args) (library w))
    as [u|cid] eqn:Hp.
  - cbv zeta. rewrite Hout. split.
    + exact (askQuestion_first_call args env w u Hp).
    + intros Hw Hprog.
      destruct (resolved_by_precedence _ _ _ _ _ Hp Hw) as (lib' & Hres).
      exact (askQuestion_requests args env w u lib' Hres Hprog).
  - pose proof (resolved_not_in_library (io env) _ _ _ _ Hp) as Hres.
    pose proof (askQuestion_unresolved args env w _ _ Hres) as Hask.
    subst out. unfold handleAskQuestion. rewrite Hask. simpl.
    unfold askQuestionCatch. simpl.
    destruct (isRateLimit _); simpl.
    + repeat split. exists RATE_LIMIT_GUIDANCE. reflexivity.
    + repeat split. exists "". reflexivity.
Qed.

(** C8: the answer of a successful ask_question call is the session's raw
    answer cut before its trailing white space, with FOLLOW_UP_REMINDER
    appended; it is never the raw answer itself. The raw answer is the
    trimmed one followed by white space only, and the trimmed one does not
    end in white space. *)
Theorem C8_answer_carries_the_reminder (args : AskQuestionArgs) (env : AskEnv)
    (w : World) :
  success (handleAskQuestion args env w).1 = true ->
  ∃ raw res,
    rawAnswer env = inr raw
    ∧ data (handleAskQuestion args env w).1 = Some res
    ∧ answer res = JS.trimEnd raw +:+ FOLLOW_UP_REMINDER
    ∧ answer res ≠ raw
    ∧ (∃ ws, raw = JS.trimEnd raw +:+ ws ∧ JS.all_space ws = true)
    ∧ JS.ends_with_space (JS.trimEnd raw) = false.
Proof.
  unfold handleAskQuestion.
  destruct (askQuestion args env w) as [[e|res] w'] eqn:Hask; simpl.
  - unfold askQuestionCatch. destruct (isRateLimit e); discriminate.
  - intros _. destruct (askQuestion_returns _ _ _ _ _ Hask) as (raw & Hraw & Hans).
    exists raw, res. repeat split; try assumption.
    + rewrite Hans. apply reminded_differs.
    + apply trimEnd_suffix.
    + apply trimEnd_tight.
Qed.

End AskClaims.

(** ** The session manager *)

Section ManagerFacts.

Import SessionManager.

Local Open Scope Z_scope.

Lemma has_id_true id s : has_id id s = true <-> sessionId s = id.
Proof. unfold has_id. apply String.eqb_eq. Qed.

Lemma has_id_false id s : has_id id s = false <-> sessionId s ≠ id.
Proof. unfold has_id. apply String.eqb_neq. Qed.

Lemma release_all_keeps l m :
  sessions (foldl (fun m' s => release (profile s) m') m l) = sessions m
  ∧ maxSessions (foldl (fun m' s => release (profile s) m') m l) = maxSessions m
  ∧ sessionTimeout (foldl (fun m' s => release (profile s) m') m l) = sessionTimeout m.
Proof.
  revert m. induction l as [|s l IH]; intros m; simpl; [auto|].
  destruct (IH (release (profile s) m)) as (-> & -> & ->).
  unfold release. destruct (is_isolated (profile s)); auto.
Qed.

(** Closing by a predicate: the count returned and the registry left. *)
Lemma close_where_effect doomed m :
  ∃ m', close_where doomed m
        = (inr (length (filter (fun s => doomed s = true) (sessions m))), m')
    ∧ sessions m' = filter (fun s => doomed s = false) (sessions m)
    ∧ maxSessions m' = maxSessions m
    ∧ sessionTimeout m' = sessionTimeout m.
Proof.
  unfold close_where. eexists. split; [reflexivity|].
  destruct (release_all_keeps
              (filter (fun s => doomed s = true) (sessions m))
              (with_sessions (filter (fun s => doomed s = false) (sessions m)) m))
    as (-> & -> & ->).
  auto.
Qed.

Lemma sweep_registry now m :
  sessions (sweep now m).2 = filter (fun s => expired now m s = false) (sessions m).
Proof.
  unfold sweep. destruct (close_where_effect (expired now m) m) as (m' & -> & H & _).
  exact H.
Qed.

(** What a sweep closes, and what it leaves, in any state. *)
Lemma sweep_closes_expired_idle now m s :
  s ∈ sessions m ->
  (s ∉ sessions (sweep now m).2 <->
   status s = idle ∧ sessionTimeout m <= idle_duration now s).
Proof.
  intros Hs. rewrite sweep_registry, list_elem_of_filter.
  unfold expired, is_idle. split.
  - intros H. destruct (status s) eqn:Hst; simpl in *;
      try (exfalso; apply H; split; [reflexivity | assumption]).
    destruct (sessionTimeout m <=? idle_duration now s) eqn:Hle.
    + split; [reflexivity | now apply Z.leb_le].
    + exfalso. apply H. split; [reflexivity | assumption].
  - intros [Hst Hle] [H _]. rewrite Hst in H. simpl in H.
    apply Z.leb_le in Hle. congruence.
Qed.

End ManagerFacts.

Section Capacity.

Import SessionManager.

Local Open Scope Z_scope.

Lemma least_recent_idle_None l :
  least_recent_idle l = None <-> Forall (fun s => is_idle s = false) l.
Proof.
  induction l as [|s l IH]; simpl.
  - split; [constructor | reflexivity].
  - destruct (least_recent_idle l) as [v|].
    + split.
      * destruct (is_idle s && (lastActivity s <=? lastActivity v)); discriminate.
      * intros H. apply Forall_cons in H as [_ H]. apply IH in H. discriminate.
    + destruct (is_idle s) eqn:Hs.
      * split; [discriminate|]. intros H. apply Forall_cons in H as [H _]. congruence.
      * split; [|reflexivity]. intros _. constructor; [assumption | now apply IH].
Qed.

(** The victim is registered, idle, and no idle session was active less
    recently. *)
Lemma least_recent_idle_Some l v :
  least_recent_idle l = Some v ->
  v ∈ l ∧ is_idle v = true
  ∧ ∀ x, x ∈ l -> is_idle x = true -> lastActivity v <= lastActivity x.
Proof.
  revert v. induction l as [|s l IH]; simpl; intros v H; [discriminate|].
  destruct (least_recent_idle l) as [u|] eqn:Hl.
  - destruct (IH u eq_refl) as (Hu & Hidle & Hmin).
    destruct (is_idle s && (lastActivity s <=? lastActivity u)) eqn:Hc;
      injection H as <-.
    + apply andb_true_iff in Hc as [Hs Hle]. apply Z.leb_le in Hle.
      split; [apply list_elem_of_here|]. split; [assumption|].
      intros x Hx Hxi. apply elem_of_cons in Hx as [->|Hx]; [lia|].
      specialize (Hmin x Hx Hxi). lia.
    + split; [now apply list_elem_of_further|]. split; [assumption|].
      intros x Hx Hxi. apply elem_of_cons in Hx as [->|Hx]; [|now apply Hmin].
      rewrite Hxi in Hc. simpl in Hc. apply Z.leb_gt in Hc. lia.
  - apply least_recent_idle_None in Hl.
    destruct (is_idle s) eqn:Hs; [|discriminate]. injection H as <-.
    split; [apply list_elem_of_here|]. split; [assumption|].
    intros x Hx Hxi. apply elem_of_cons in Hx as [->|Hx]; [lia|].
    rewrite Forall_forall in Hl. specialize (Hl x Hx). congruence.
Qed.

Lemma find_live_unknown id m : id ∉ session_ids m -> find_live (Some id) m = None.
Proof.
  intros Hid. unfold find_live. simpl. apply list_find_None, Forall_forall.
  intros s Hs [Hh _]. apply has_id_true in Hh. apply Hid.
  unfold session_ids. apply list_elem_of_fmap. exists s. split; [congruence | assumption].
Qed.

Lemma filter_other_ids id (l : list Session) :
  id ∉ sessionId <$> l -> filter (fun x => has_id id x = false) l = l.
Proof.
  induction l as [|s l IH]; intros H; [reflexivity|].
  rewrite fmap_cons in H. apply not_elem_of_cons in H as [Hs Hl].
  rewrite filter_cons_True by (apply has_id_false; congruence).
  now rewrite IH.
Qed.

(** With distinct ids, closing one registered id takes exactly one session
    away. *)
Lemma filter_one_id v (l : list Session) :
  NoDup (sessionId <$> l) -> v ∈ l ->
  S (length (filter (fun x => has_id (sessionId v) x = false) l)) = length l.
Proof.
  induction l as [|s l IH]; intros Hnd Hv; [now apply elem_of_nil in Hv|].
  rewrite fmap_cons in Hnd. apply NoDup_cons in Hnd as [Hs Hnd].
  apply elem_of_cons in Hv as [->|Hv].
  - rewrite filter_cons_False by (rewrite has_id_false; tauto).
    now rewrite filter_other_ids.
  - rewrite filter_cons_True.
    + simpl. now rewrite IH.
    + apply has_id_false. intros Heq. apply Hs. rewrite Heq.
      apply list_elem_of_fmap. eauto.
Qed.

(** A creation that finds its collaborators well registers an idle
    session. *)
Lemma create_ok a id url m :
  acquire_ok a = true ->
  ∃ s, create a id url m
       = (inr s, with_sessions
                   (filter (fun x => has_id (sessionId s) x = false) (sessions m) ++ [s]) m)
    ∧ sessionId s = default (generated_id a) id
    ∧ status s = idle
    ∧ geminiUrl s = url
    ∧ lastActivity s = clock a.
Proof.
  unfold acquire_ok, create.
  destruct (allocated a) as [e|p]; [discriminate|].
  destruct (credentials a); [|discriminate].
  destruct (started a); [discriminate|]. intros _.
  exists (mkSession (default (generated_id a) id) (clock a) (clock a) 0 url idle p).
  split; [reflexivity|]. simpl. auto.
Qed.

(** Below capacity a new id is registered without any eviction. *)
Lemma getOrCreateSession_room a id url h m :
  Z.of_nat (length (sessions m)) < maxSessions m ->
  id ∉ session_ids m ->
  acquire_ok a = true ->
  ∃ s, getOrCreateSession a (Some id) url h m
       = (inr s, with_sessions (sessions m ++ [s]) m)
    ∧ sessionId s = id ∧ status s = idle.
Proof.
  intros Hroom Hid Hok. unfold getOrCreateSession.
  rewrite (find_live_unknown id m Hid). unfold bind, ensureCapacity.
  rewrite (proj2 (Z.leb_gt _ _) Hroom).
  destruct (create_ok a (Some id) url m Hok) as (s & Hc & Hsid & Hst & _).
  simpl in Hsid. rewrite Hc, Hsid, (filter_other_ids id _ Hid).
  exists s. auto.
Qed.

(** At capacity with an idle session, the least recently active idle
    session is closed and the new one registered. *)
Lemma getOrCreateSession_evicts a id url h m :
  maxSessions m <= Z.of_nat (length (sessions m)) ->
  (∃ x, x ∈ sessions m ∧ is_idle x = true) ->
  id ∉ session_ids m ->
  acquire_ok a = true ->
  ∃ v s m',
    getOrCreateSession a (Some id) url h m = (inr s, m')
    ∧ least_recent_idle (sessions m) = Some v
    ∧ sessions m' = (filter (fun x => has_id (sessionId v) x = false) (sessions m) ++ [s])%list
    ∧ maxSessions m' = maxSessions m
    ∧ sessionId s = id ∧ status s = idle.
Proof.
  intros Hfull (x & Hx & Hxi) Hid Hok. unfold getOrCreateSession.
  rewrite (find_live_unknown id m Hid). unfold bind at 1, ensureCapacity.
  rewrite (proj2 (Z.leb_le _ _) Hfull).
  destruct (least_recent_idle (sessions m)) as [v|] eqn:Hv.
  - unfold closeSession, bind.
    destruct (close_where_effect (has_id (sessionId v)) m) as (m1 & -> & Hs1 & Hmax & _).
    simpl.
    destruct (create_ok a (Some id) url m1 Hok) as (s & Hc & Hsid & Hst & _).
    simpl in Hsid. rewrite Hc. exists v, s. eexists. split; [reflexivity|].
    split; [reflexivity|]. simpl. rewrite Hsid, Hs1.
    rewrite filter_other_ids; [auto|].
    intros Hin. apply Hid. apply list_elem_of_fmap in Hin as (y & -> & Hy).
    apply list_elem_of_filter in Hy as [_ Hy].
    unfold session_ids. apply list_elem_of_fmap. eauto.
  - apply least_recent_idle_None in Hv. rewrite Forall_forall in Hv.
    specialize (Hv x Hx). congruence.
Qed.

(** At capacity with no idle session the call fails and changes nothing. *)
Lemma getOrCreateSession_exhausted a id url h m :
  maxSessions m <= Z.of_nat (length (sessions m)) ->
  Forall (fun s => status s = busy) (sessions m) ->
  id ∉ session_ids m ->
  getOrCreateSession a (Some id) url h m = (inl (exhausted m), m).
Proof.
  intros Hfull Hbusy Hid. unfold getOrCreateSession.
  rewrite (find_live_unknown id m Hid). unfold bind, ensureCapacity.
  rewrite (proj2 (Z.leb_le _ _) Hfull).
  replace (least_recent_idle (sessions m)) with (@None Session); [reflexivity|].
  symmetry. apply least_recent_idle_None.
  eapply Forall_impl; [exact Hbusy|]. intros s Hs. unfold is_idle. now rewrite Hs.
Qed.

End Capacity.

Section CapacityClaims.

Import SessionManager.

Local Open Scope Z_scope.

Lemma createAll_room requests m :
  Z.of_nat (length (sessions m) + length requests) <= maxSessions m ->
  NoDup requests.*1 ->
  (∀ id, id ∈ requests.*1 -> id ∉ session_ids m) ->
  Forall (fun r => acquire_ok r.2 = true) requests ->
  ∃ ss m',
    createAll requests m = (inr ss, m')
    ∧ sessions m' = (sessions m ++ ss)%list
    ∧ maxSessions m' = maxSessions m
    ∧ sessionId <$> ss = requests.*1
    ∧ Forall (fun s => status s = idle) ss.
Proof.
  revert m. induction requests as [|[id a] rest IH]; intros m Hlen Hnd Hfresh Hok.
  - exists [], m. simpl. rewrite app_nil_r. repeat split. constructor.
  - simpl in Hlen, Hnd. apply NoDup_cons in Hnd as [Hid Hnd].
    apply Forall_cons in Hok as [Ha Hok]. simpl in Ha.
    destruct (getOrCreateSession_room a id None None m) as (s & Hget & Hsid & Hst);
      [lia | apply Hfresh; simpl; apply list_elem_of_here | assumption |].
    destruct (IH (with_sessions (sessions m ++ [s]) m)) as (ss & m' & Hall & Hss & Hmax & Hids & Hidle).
    + simpl. rewrite length_app. simpl. lia.
    + assumption.
    + intros x Hx. unfold session_ids. simpl. rewrite fmap_app. simpl.
      intros Hin. apply elem_of_app in Hin as [Hin|Hin].
      * apply (Hfresh x); [simpl; now apply list_elem_of_further | exact Hin].
      * apply list_elem_of_singleton in Hin. rewrite Hin, Hsid in Hx. contradiction.
    + assumption.
    + exists (s :: ss), m'. simpl. unfold bind. rewrite Hget, Hall.
      split; [reflexivity|]. rewrite Hss. simpl. rewrite <- app_assoc. simpl.
      split; [reflexivity|]. split; [exact Hmax|].
      split; [f_equal; [exact Hsid | exact Hids] | now constructor].
Qed.

(** C1: for a configured maximum of [M] sessions, creating [M] sessions
    with distinct ids, one after another and none of them asked anything,
    succeeds and leaves exactly these registered and idle. When the [M]
    registered sessions are all idle, so that there is a least-recently-active
    one ([M >= 1]), a call for a further id succeeds: it closes that session
    and registers the new one, so that [M] sessions stay registered. When
    the [M] registered sessions are all busy, a call for a further id fails
    with ResourceExhausted and changes nothing. Successes are those of calls
    that find profile, credentials and browser. *)
Theorem C1_capacity_and_eviction (M : nat) :
  (∀ timeout requests,
      length requests = M ->
      NoDup requests.*1 ->
      Forall (fun r => acquire_ok r.2 = true) requests ->
      ∃ ss m',
        createAll requests (init (Z.of_nat M) timeout) = (inr ss, m')
        ∧ sessions m' = ss
        ∧ sessionId <$> ss = requests.*1
        ∧ Forall (fun s => status s = idle) ss)
  ∧ ((1 <= M)%nat ->
     ∀ m a id url h,
      maxSessions m = Z.of_nat M ->
      length (sessions m) = M ->
      NoDup (session_ids m) ->
      Forall (fun s => status s = idle) (sessions m) ->
      id ∉ session_ids m ->
      acquire_ok a = true ->
      ∃ v s m',
        getOrCreateSession a (Some id) url h m = (inr s, m')
        ∧ v ∈ sessions m
        ∧ (∀ x, x ∈ sessions m -> lastActivity v <= lastActivity x)
        ∧ sessions m'
          = (filter (fun x => sessionId x ≠ sessionId v) (sessions m) ++ [s])%list
        ∧ (v ∉ sessions m')
        ∧ length (sessions m') = M
        ∧ sessionId s = id
        ∧ status s = idle)
  ∧ (∀ m a id url h,
      maxSessions m = Z.of_nat M ->
      length (sessions m) = M ->
      Forall (fun s => status s = busy) (sessions m) ->
      id ∉ session_ids m ->
      ∃ message,
        getOrCreateSession a (Some id) url h m
        = (inl (ThrownError ResourceExhausted message), m)).
Proof.
  split; [|split].
  - intros timeout requests Hlen Hnd Hok.
    destruct (createAll_room requests (init (Z.of_nat M) timeout))
      as (ss & m' & Hall & Hss & _ & Hids & Hidle); simpl; try assumption.
    + lia.
    + intros id _. apply not_elem_of_nil.
    + exists ss, m'. auto.
  - intros HM m a id url h Hmax Hlen Hnd Hidle Hid Hok.
    destruct (sessions m) as [|x0 l0] eqn:Hsess; [simpl in Hlen; lia|].
    destruct (getOrCreateSession_evicts a id url h m)
      as (v & s & m' & Hget & Hv & Hss & _ & Hsid & Hst); try assumption.
    + rewrite Hsess. lia.
    + exists x0. rewrite Hsess. split; [apply list_elem_of_here|].
      apply Forall_cons in Hidle as [Hx0 _]. unfold is_idle. now rewrite Hx0.
    + rewrite Hsess in Hv, Hss. rewrite <- Hsess in *.
      destruct (least_recent_idle_Some _ _ Hv) as (Hvin & _ & Hmin).
      assert (Hfilter :
        filter (fun x => has_id (sessionId v) x = false) (sessions m)
        = filter (fun x => sessionId x ≠ sessionId v) (sessions m)).
      { apply list_filter_iff. intros x. apply has_id_false. }
      exists v, s, m'. split; [exact Hget|]. split; [exact Hvin|].
      split.
      { intros x Hx. apply Hmin; [exact Hx|].
        rewrite Forall_forall in Hidle. unfold is_idle. now rewrite (Hidle x Hx). }
      split; [now rewrite Hss, Hfilter|].
      split.
      { rewrite Hss. intros Hin. apply elem_of_app in Hin as [Hin|Hin].
        - apply list_elem_of_filter in Hin as [Hin _]. apply has_id_false in Hin.
          now apply Hin.
        - apply list_elem_of_singleton in Hin. apply Hid. subst v.
          unfold session_ids. rewrite <- Hsid. apply list_elem_of_fmap. eauto. }
      split; [|auto].
      rewrite Hss, length_app. simpl.
      pose proof (filter_one_id v (sessions m) Hnd Hvin) as Hone. lia.
  - intros m a id url h Hmax Hlen Hbusy Hid. eexists.
    apply getOrCreateSession_exhausted; [lia | assumption | assumption].
Qed.

End CapacityClaims.

Section SweepAndRemoval.

Import SessionManager.

Local Open Scope Z_scope.

(** C2: in every reachable state of the session manager, a sweep tick at
    any time closes a registered session exactly when its status is idle and
    its idle duration has reached [sessionTimeout]; a busy session is still
    registered after the tick, however old it is. *)
Theorem C2_sweep_closes_only_expired_idle_sessions (m : SessionManager.t) :
  reachable m ->
  ∀ now s, s ∈ sessions m ->
    (s ∉ sessions (sweep now m).2 <->
     status s = idle ∧ sessionTimeout m <= idle_duration now s)
    ∧ (status s = busy -> s ∈ sessions (sweep now m).2).
Proof.
  intros _ now s Hs. split; [now apply sweep_closes_expired_idle|].
  intros Hbusy. rewrite sweep_registry. apply list_elem_of_filter.
  split; [|assumption]. unfold expired, is_idle. now rewrite Hbusy.
Qed.

(** Closing by URL: the count and the registry, with the URL test spelled
    out. *)
Lemma closeSessionsForConversation_effect url m :
  ∃ m', closeSessionsForConversation url m
        = (inr (length (filter (fun s => geminiUrl s = Some url) (sessions m))), m')
    ∧ sessions m' = filter (fun s => geminiUrl s ≠ Some url) (sessions m).
Proof.
  unfold closeSessionsForConversation.
  destruct (close_where_effect (bound_to url) m) as (m' & Heq & Hs & _).
  exists m'. rewrite Heq, Hs. split.
  - do 3 f_equal. apply list_filter_iff. intros s. unfold bound_to.
    apply bool_decide_eq_true.
  - apply list_filter_iff. intros s. unfold bound_to. apply bool_decide_eq_false.
Qed.

End SweepAndRemoval.

Section RemovalClaim.

Import ToolHandlers.

Lemma handleRemoveConversation_unknown id io w :
  ConversationLibrary.getConversation id (library w) = None ->
  handleRemoveConversation id io w = (failed ("Conversation not found: " +:+ id), w).
Proof.
  intros Hget. unfold handleRemoveConversation, bind, onLibrary, get, ret.
  cbn [library]. rewrite Hget. destruct w; reflexivity.
Qed.

Lemma handleRemoveConversation_unsaved id io w c err :
  ConversationLibrary.getConversation id (library w) = Some c ->
  write_error io = Some err ->
  handleRemoveConversation id io w = (failed (error_message err), w).
Proof.
  intros Hget Hw.
  unfold handleRemoveConversation, bind, onLibrary, get, ret,
    ConversationLibrary.removeConversation, ConversationLibrary.saveLibrary.
  cbn [library]. rewrite Hget. cbn [library]. rewrite Hget.
  unfold bind. rewrite Hw. destruct w; reflexivity.
Qed.

Lemma handleRemoveConversation_saved id io w c :
  ConversationLibrary.getConversation id (library w) = Some c ->
  write_error io = None ->
  ∃ lib' m',
    handleRemoveConversation id io w
    = (succeeded
         (true,
          length (filter (fun s => SessionManager.geminiUrl s = Some (Entry.url c))
                    (SessionManager.sessions (sessionManager w)))),
       mkWorld lib' m' (CONFIG w) (disk w)
         (calls w ++ [CallCloseSessionsForConversation (Entry.url c)]))
    ∧ Library.conversations lib'
      = filter (fun n => Entry.id n ≠ id) (Library.conversations (library w))
    ∧ SessionManager.sessions m'
      = filter (fun s => SessionManager.geminiUrl s ≠ Some (Entry.url c))
          (SessionManager.sessions (sessionManager w)).
Proof.
  intros Hget Hw.
  destruct (closeSessionsForConversation_effect (Entry.url c) (sessionManager w))
    as (m' & Heq & Hs).
  unfold handleRemoveConversation, bind, onLibrary, get, ret, record, onSessionManager,
    ConversationLibrary.removeConversation, ConversationLibrary.saveLibrary.
  cbn [library]. rewrite Hget. cbn [library]. rewrite Hget.
  unfold bind. rewrite Hw. unfold ret.
  cbn -[SessionManager.closeSessionsForConversation filter bool_decide]. rewrite Heq.
  do 2 eexists. split; [reflexivity|]. split; [|exact Hs].
  case_bool_decide; reflexivity.
Qed.

Lemma no_session_bound (url : string) (l : list SessionManager.Session) :
  filter (fun s => SessionManager.geminiUrl s = Some url) l = [] ->
  filter (fun s => SessionManager.geminiUrl s ≠ Some url) l = l.
Proof.
  induction l as [|x l IH]; [reflexivity|].
  rewrite !filter_cons.
  destruct (decide (SessionManager.geminiUrl x = Some url)) as [Hp|Hp]; [discriminate|].
  intros Hnone. destruct (decide (SessionManager.geminiUrl x ≠ Some url));
    [|contradiction].
  f_equal. now apply IH.
Qed.

(** C3: remove_conversation on an id the library does not list reports
    "Conversation not found" and changes nothing: no call is made and no
    session is closed. On a listed id whose removal is saved, the handler
    calls [closeSessionsForConversation] once, with the URL of the removed
    entry; the sessions bound to that URL leave the registry, every other
    session stays, and the handler reports success with the number closed,
    which is 0 when no session is bound to the URL. When the save fails the
    handler reports the failure and closes no session. *)
Theorem C3_removal_closes_the_sessions_of_the_url (id : string) (io : IO) (w : World) :
  let out := handleRemoveConversation id io w in
  match ConversationLibrary.getConversation id (library w), write_error io with
  | None, _ => out = (failed ("Conversation not found: " +:+ id), w)
  | Some c, Some err =>
      out.1 = failed (error_message err)
      ∧ sessionManager out.2 = sessionManager w
      ∧ calls out.2 = calls w
  | Some c, None =>
      let registered := SessionManager.sessions (sessionManager w) in
      let bound := filter (fun s => SessionManager.geminiUrl s = Some (Entry.url c)) registered in
      out.1 = succeeded (true, length bound)
      ∧ calls out.2 = (calls w ++ [CallCloseSessionsForConversation (Entry.url c)])%list
      ∧ SessionManager.sessions (sessionManager out.2)
        = filter (fun s => SessionManager.geminiUrl s ≠ Some (Entry.url c)) registered
      ∧ (∀ s, s ∈ SessionManager.sessions (sessionManager out.2) <->
              s ∈ registered ∧ SessionManager.geminiUrl s ≠ Some (Entry.url c))
      ∧ (bound = [] ->
         out.1 = succeeded (true, 0%nat)
         ∧ SessionManager.sessions (sessionManager out.2) = registered)
      ∧ ConversationLibrary.getConversation id (library out.2) = None
  end.
Proof.
  intros out. subst out.
  destruct (ConversationLibrary.getConversation id (library w)) as [c|] eqn:Hget.
  - destruct (write_error io) as [err|] eqn:Hw.
    + rewrite (handleRemoveConversation_unsaved id io w c err Hget Hw). auto.
    + destruct (handleRemoveConversation_saved id io w c Hget Hw)
        as (lib' & m' & -> & Hlib & Hs).
      cbn [fst snd library sessionManager calls].
      split; [reflexivity|]. split; [reflexivity|]. split; [exact Hs|].
      split; [|split].
      * intros s. rewrite Hs, list_elem_of_filter. tauto.
      * intros Hb. rewrite Hb. split; [reflexivity|]. rewrite Hs.
        now apply no_session_bound.
      * unfold ConversationLibrary.getConversation, ConversationLibrary.find_by_id.
        rewrite Hlib.
        replace (list_find (fun n => Entry.id n = id)
                   (filter (fun n => Entry.id n ≠ id) (Library.conversations (library w))))
          with (@None (nat * Entry.t)); [reflexivity|].
        symmetry. apply list_find_None, Forall_forall.
        intros n Hn. apply list_elem_of_filter in Hn as [Hn _]. exact Hn.
  - rewrite (handleRemoveConversation_unknown id io w Hget).
    destruct (write_error io); reflexivity.
Qed.

End RemovalClaim.

(** ** The cleanup manager *)

Section CleanupFacts.

Import CleanupManager.





End CleanupFacts.

Section CleanupClaim.

Import CleanupManager ToolHandlers.







End CleanupClaim.

(** ** The properties at the sample data *)

Section Witnesses.

Import ToolHandlers.

Lemma full_manager_ids : SessionManager.session_ids Sample.full_manager = ["a"; "b"].
Proof. reflexivity. Qed.

(** C1 at a maximum of two: with sessions a and b idle, a call for c closes
    one of them and registers c. *)
Lemma C1_witness :
  ∃ v s m',
    SessionManager.getOrCreateSession (Sample.good_acquire 30) (Some "c") None None
      Sample.full_manager = (inr s, m')
    ∧ v ∈ SessionManager.sessions Sample.full_manager
    ∧ (∀ x, x ∈ SessionManager.sessions Sample.full_manager ->
            (SessionManager.lastActivity v <= SessionManager.lastActivity x)%Z)
    ∧ SessionManager.sessions m'
      = (filter (fun x => SessionManager.sessionId x ≠ SessionManager.sessionId v)
           (SessionManager.sessions Sample.full_manager) ++ [s])%list
    ∧ (v ∉ SessionManager.sessions m')
    ∧ length (SessionManager.sessions m') = 2%nat
    ∧ SessionManager.sessionId s = "c"
    ∧ SessionManager.status s = SessionManager.idle.
Proof.
  apply (proj1 (proj2 (C1_capacity_and_eviction 2))).
  - lia.
  - reflexivity.
  - reflexivity.
  - rewrite full_manager_ids. apply NoDup_cons. split.
    + intros H. apply list_elem_of_singleton in H. discriminate.
    + apply NoDup_singleton.
  - repeat constructor.
  - rewrite full_manager_ids. intros H.
    apply elem_of_cons in H as [H|H]; [discriminate|].
    apply list_elem_of_singleton in H. discriminate.
  - reflexivity.
Defined.

Lemma busy_manager_reachable : SessionManager.reachable Sample.busy_manager.
Proof.
  apply (SessionManager.reachable_step
           (SessionManager.getOrCreateSession (Sample.good_acquire 0) (Some "s1") None None
              (SessionManager.init 2 900)).2).
  - apply (SessionManager.reachable_step (SessionManager.init 2 900));
      [apply SessionManager.reachable_init|].
    eapply (SessionManager.step_get (Sample.good_acquire 0) (Some "s1") None None).
    apply surjective_pairing.
  - eapply (SessionManager.step_begin "s1"); reflexivity.
Qed.

(** C2 at the sample: the session that has been busy since time 0 is still
    registered after a sweep at time 1000000, far beyond the timeout of
    900. *)
Lemma C2_witness :
  Sample.session_s1 ∈ SessionManager.sessions (SessionManager.sweep 1000000 Sample.busy_manager).2.
Proof.
  apply (C2_sweep_closes_only_expired_idle_sessions Sample.busy_manager
           busy_manager_reachable 1000000 Sample.session_s1).
  - apply list_elem_of_here.
  - reflexivity.
Defined.

Lemma limited_call_throws :
  askQuestion Sample.ask_docs Sample.limited Sample.world
  = (inl Sample.quota_error, (askQuestion Sample.ask_docs Sample.limited Sample.world).2).
Proof. vm_compute. reflexivity. Qed.

(** C5 at the sample: a RateLimitError from the session comes back as the
    rate-limit guidance followed by its message. *)
Lemma C5_witness :
  error (handleAskQuestion Sample.ask_docs Sample.limited Sample.world).1
  = Some (RATE_LIMIT_GUIDANCE +:+ "Daily quota exceeded").
Proof.
  exact (proj1 (proj2 (proj2 (proj2
           (C5_rate_limit_is_told_apart Sample.ask_docs Sample.limited Sample.world _
              Sample.quota_error limited_call_throws))))).
Defined.

(** C7 at the samples, one call for each step of the precedence: an
    explicit URL beside a [conversation_id]; a [conversation_id] that names
    Notes while Docs is active; no argument while Docs is active; no
    argument and an empty library; a [conversation_id] that names nothing. *)
Lemma C7_witness :
  (∃ rest,
     calls (handleAskQuestion (Cases.ask (Some "https://gemini.google.com/app/other")
                                 (Some "notes"))
              Sample.answering (Cases.world_of Cases.docs_and_notes)).2
     = ([] ++ CallGetOrCreateSession None (Some "https://gemini.google.com/app/other") None
           :: rest)%list)
  ∧ (∃ rest,
       calls (handleAskQuestion (Cases.ask None (Some "notes")) Sample.answering
                (Cases.world_of Cases.docs_and_notes)).2
       = ([] ++ CallGetOrCreateSession None (Some "https://gemini.google.com/app/notes") None
             :: rest)%list)
  ∧ (∃ rest,
       calls (handleAskQuestion (Cases.ask None None) Sample.answering
                (Cases.world_of Cases.docs_and_notes)).2
       = ([] ++ CallGetOrCreateSession None (Some "https://gemini.google.com/app/docs") None
             :: rest)%list)
  ∧ (∃ rest,
       calls (handleAskQuestion (Cases.ask None None) Sample.answering
                (Cases.world_of (ConversationLibrary.emptyLibrary Sample.clock0))).2
       = ([] ++ CallGetOrCreateSession None None None :: rest)%list)
  ∧ (∃ lead,
       error (handleAskQuestion (Cases.ask None (Some "nope")) Sample.answering
                (Cases.world_of Cases.docs_and_notes)).1
       = Some (lead +:+ "Conversation not found in library: " +:+ "nope")).
Proof.
  split; [|split; [|split; [|split]]].
  - exact (proj2 (C7_target_url_precedence
                    (Cases.ask (Some "https://gemini.google.com/app/other") (Some "notes"))
                    Sample.answering (Cases.world_of Cases.docs_and_notes))
             eq_refl eq_refl).
  - exact (proj2 (C7_target_url_precedence (Cases.ask None (Some "notes"))
                    Sample.answering (Cases.world_of Cases.docs_and_notes))
             eq_refl eq_refl).
  - exact (proj2 (C7_target_url_precedence (Cases.ask None None)
                    Sample.answering (Cases.world_of Cases.docs_and_notes))
             eq_refl eq_refl).
  - exact (proj2 (C7_target_url_precedence (Cases.ask None None) Sample.answering
                    (Cases.world_of (ConversationLibrary.emptyLibrary Sample.clock0)))
             eq_refl eq_refl).
  - exact (proj1 (proj2 (C7_target_url_precedence (Cases.ask None (Some "nope"))
                           Sample.answering (Cases.world_of Cases.docs_and_notes)))).
Defined.

Lemma answering_call_succeeds :
  success (handleAskQuestion Sample.ask_docs Sample.answering Sample.world).1 = true.
Proof. vm_compute. reflexivity. Qed.

(** C8 at the sample: the answer returned is the trimmed raw answer with the
    reminder. *)
Lemma C8_witness :
  ∃ raw res,
    rawAnswer Sample.answering = inr raw
    ∧ data (handleAskQuestion Sample.ask_docs Sample.answering Sample.world).1 = Some res
    ∧ answer res = JS.trimEnd raw +:+ FOLLOW_UP_REMINDER
    ∧ answer res ≠ raw
    ∧ (∃ ws, raw = JS.trimEnd raw +:+ ws ∧ JS.all_space ws = true)
    ∧ JS.ends_with_space (JS.trimEnd raw) = false.
Proof.
  exact (C8_answer_carries_the_reminder Sample.ask_docs Sample.answering Sample.world
           answering_call_succeeds).
Defined.

(** C3 at the sample: removing the first Docs conversation makes one call,
    for its URL, and reports that no session had to be closed. *)
Lemma C3_witness :
  (handleRemoveConversation "docs" Sample.clock0 Sample.world).1 = succeeded (true, 0%nat)
  ∧ calls (handleRemoveConversation "docs" Sample.clock0 Sample.world).2
    = ([] ++ [CallCloseSessionsForConversation "https://gemini.google.com/app/docs"])%list.
Proof.
  pose proof (C3_removal_closes_the_sessions_of_the_url "docs" Sample.clock0 Sample.world)
    as H.
  exact (conj (proj1 H) (proj1 (proj2 H))).
Defined.


End Witnesses.

(** ** Worked examples *)

Section Examples.

Import ConversationLibrary ToolHandlers.

Example slug_of_a_title : slug "n8n Workflow  Automation!!" = "n8n-workflow-automation".
Proof. reflexivity. Qed.

Example slug_is_cut_at_thirty :
  slug "0123456789 0123456789 01234567 89" = "0123456789-0123456789-01234567".
Proof. reflexivity. Qed.

Example slug_without_letters_or_digits : slug "?!" = "".
Proof. reflexivity. Qed.

Example candidates_of_docs :
  candidate "docs" 0 = "docs" ∧ candidate "docs" 1 = "docs-1"
  ∧ candidate "docs" 12 = "docs-12".
Proof. repeat split; reflexivity. Qed.

Example third_docs_gets_suffix_two :
  (fun out => ids out.2) <$> addConversation Sample.clock0 Sample.docs_input Sample.two_docs
  = Some ["docs"; "docs-1"; "docs-2"].
Proof. vm_compute. reflexivity. Qed.

(** A save that fails leaves the pushed entry in memory, and no active id. *)
Example unsaved_entry_stays_in_memory :
  let disk_full := {| now := "t"; write_error := Some (ThrownError IOFailure "ENOSPC") |} in
  (fun out => (ids out.2, Library.active_conversation_id out.2))
    <$> addConversation disk_full Sample.docs_input (emptyLibrary Sample.clock0)
  = Some (["docs"], None).
Proof. vm_compute. reflexivity. Qed.

(** The active conversation is the listed entry a non-empty active id
    names. *)
Lemma getActiveConversation_iff (this : Library.t) (a : Entry.t) :
  getActiveConversation this = Some a <->
  ∃ aid, Library.active_conversation_id this = Some aid ∧ aid ≠ ""
         ∧ getConversation aid this = Some a.
Proof.
  unfold getActiveConversation, JS.truthy.
  destruct (Library.active_conversation_id this) as [aid|]; simpl.
  - destruct aid as [|c aid]; simpl.
    + split; [discriminate|]. intros (x & [= <-] & Hne & _). now destruct Hne.
    + split.
      * intros H. eexists. split; [reflexivity|]. split; [discriminate | exact H].
      * intros (x & [= <-] & _ & H). exact H.
  - split; [discriminate|]. intros (x & [=] & _).
Qed.

Example parseInt_reads_a_leading_integer :
  JS.parseInt "300000" = Some (JS.Finite 300000)
  ∧ JS.parseInt "  -42ms" = Some (JS.Finite (-42))
  ∧ JS.parseInt "+7" = Some (JS.Finite 7)
  ∧ JS.parseInt "-0" = Some JS.NegativeZero
  ∧ JS.parseInt "soon" = None ∧ JS.parseInt "" = None.
Proof. repeat split; vm_compute; reflexivity. Qed.

(** Above 2^53 the value read is the nearest double. *)
Example parseInt_rounds_to_a_double :
  JS.parseInt "9007199254740992" = Some (JS.Finite 9007199254740992)
  ∧ JS.parseInt "9007199254740993" = Some (JS.Finite 9007199254740992)
  ∧ JS.parseInt "9007199254740995" = Some (JS.Finite 9007199254740996)
  ∧ JS.parseInt "123456789012345678901234567890"
    = Some (JS.Finite 123456789012345677877719597056)
  ∧ JS.parseInt (nines 400) = Some (JS.Infinity false)
  ∧ JS.parseInt ("-" +:+ nines 400) = Some (JS.Infinity true).
Proof. repeat split; vm_compute; reflexivity. Qed.

Example login_timeout_of_five_minutes :
  Config.autoLoginTimeoutMs
    (Config.buildConfig
       (fun k => if String.eqb k "AUTO_LOGIN_TIMEOUT_MS" then Some "300000" else None)
       {| Config.paths_config := "config"; Config.paths_data := "data" |})
  = JS.Finite 300000.
Proof. vm_compute. reflexivity. Qed.

Example trimEnd_keeps_inner_space :
  JS.trimEnd ("a  b " +:+ LF +:+ " ") = "a  b".
Proof. reflexivity. Qed.

Example rate_limit_in_any_case : isRateLimit (ThrownValue "Hit the RATE Limit") = true.
Proof. reflexivity. Qed.

Example timeout_is_not_a_rate_limit :
  isRateLimit (ThrownError Timeout "Timed out waiting for the answer") = false.
Proof. reflexivity. Qed.

(** The sample question answered: the calls made and the answer returned. *)
Example answered_sample_call :
  let out := handleAskQuestion Sample.ask_docs Sample.answering Sample.world in
  calls out.2
  = [CallGetOrCreateSession None (Some "https://gemini.google.com/app/docs") None;
     CallAsk "generated" "What changed?"]
  ∧ (answer <$> data out.1) = Some ("Nothing changed." +:+ FOLLOW_UP_REMINDER)
  ∧ ids (library out.2) = ["docs"; "docs-1"].
Proof. vm_compute. repeat split; reflexivity. Qed.

(** Removing the first Docs conversation from the sample world. *)
Example removed_sample_conversation :
  let out := handleRemoveConversation "docs" Sample.clock0 Sample.world in
  out.1 = succeeded (true, 0%nat)
  ∧ ids (library out.2) = ["docs-1"]
  ∧ Library.active_conversation_id (library out.2) = Some "docs-1"
  ∧ calls out.2 = [CallCloseSessionsForConversation "https://gemini.google.com/app/docs"].
Proof. vm_compute. repeat split; reflexivity. Qed.

(** Cleaning the sample disk: the held profile stays, the state file goes. *)
Example cleaned_sample_disk :
  let out := handleCleanupData true (Some true) Sample.world in
  ToolHandlers.success out.1 = false
  ∧ (CleanupManager.deletedPaths <$> (data out.1 ≫= result)) = Some ["state.json"]
  ∧ (CleanupManager.failedPaths <$> (data out.1 ≫= result)) = Some ["chrome_profile"]
  ∧ disk out.2 !! "chrome_profile" = Sample.held_profile_disk !! "chrome_profile"
  ∧ disk out.2 !! "state.json" = None.
Proof. vm_compute. repeat split; reflexivity. Qed.

End Examples.

(** * Further properties *)

(** ** The slug of a name *)

Section Slug.

Import ConversationLibrary.

Lemma alnum_is_not_dash (c : ascii) : is_alnum c = true -> is_dash c = false.
Proof.
  unfold is_alnum, is_dash, JS.between. intros H.
  apply Nat.eqb_neq. intros E. rewrite E in H. discriminate H.
Qed.

Lemma dash_runs_chars (b : bool) (s : string) : JS.all is_slug_char (dash_runs b s) = true.
Proof.
  revert b. induction s as [|c s IH]; intros b; simpl; [reflexivity|].
  destruct (is_alnum c) eqn:Hc; simpl.
  - unfold is_slug_char at 1. rewrite Hc. simpl. apply IH.
  - destruct b; simpl; [apply IH|]. apply IH.
Qed.

Lemma dash_runs_pairs (b : bool) (s : string) :
  dash_pair (dash_runs b s) = false
  ∧ (b = true -> starts_with_dash (dash_runs b s) = false).
Proof.
  revert b. induction s as [|c s IH]; intros b; simpl; [auto|].
  destruct (is_alnum c) eqn:Hc; simpl.
  - rewrite (alnum_is_not_dash c Hc). simpl. split; [apply IH | reflexivity].
  - destruct b; simpl.
    + apply IH.
    + destruct (IH true) as [H1 H2]. rewrite H1, (H2 eq_refl). auto.
Qed.

Lemma drop_leading_dashes_shape (s : string) :
  JS.all is_slug_char s = true -> dash_pair s = false ->
  JS.all is_slug_char (drop_leading_dashes s) = true
  ∧ dash_pair (drop_leading_dashes s) = false
  ∧ starts_with_dash (drop_leading_dashes s) = false.
Proof.
  induction s as [|c s IH]; simpl; [auto|]. intros Ha Hp.
  apply andb_true_iff in Ha as [Hc Ha]. apply orb_false_iff in Hp as [Hcd Hp].
  destruct (is_dash c) eqn:Hd; [auto|].
  simpl. rewrite Hc, Ha, Hd, Hp. auto.
Qed.

Lemma drop_trailing_dashes_shape (s : string) :
  JS.all is_slug_char s = true -> dash_pair s = false -> starts_with_dash s = false ->
  JS.all is_slug_char (drop_trailing_dashes s) = true
  ∧ dash_pair (drop_trailing_dashes s) = false
  ∧ starts_with_dash (drop_trailing_dashes s) = false.
Proof.
  assert (Hstart : ∀ t, starts_with_dash t = false ->
                        starts_with_dash (drop_trailing_dashes t) = false).
  { intros [|c t]; simpl; [auto|]. intros H. rewrite H. simpl. exact H. }
  assert (Hgen : ∀ t, JS.all is_slug_char t = true -> dash_pair t = false ->
                      JS.all is_slug_char (drop_trailing_dashes t) = true
                      ∧ dash_pair (drop_trailing_dashes t) = false).
  { induction t as [|c t IH]; simpl; [auto|]. intros Ha Hp.
    apply andb_true_iff in Ha as [Hc Ha]. apply orb_false_iff in Hp as [Hcd Hp].
    destruct (IH Ha Hp) as [IH1 IH2].
    destruct (is_dash c && JS.is_empty (drop_trailing_dashes t)) eqn:E; simpl; [auto|].
    rewrite Hc, IH1, IH2. split; [reflexivity|].
    destruct (is_dash c) eqn:Hd; [|reflexivity].
    simpl in Hcd. rewrite (Hstart t Hcd). reflexivity. }
  intros Ha Hp Hs. destruct (Hgen s Ha Hp). auto.
Qed.

Lemma take_shape (n : nat) (s : string) :
  JS.all is_slug_char s = true -> dash_pair s = false -> starts_with_dash s = false ->
  JS.all is_slug_char (JS.take n s) = true
  ∧ dash_pair (JS.take n s) = false
  ∧ starts_with_dash (JS.take n s) = false
  ∧ (String.length (JS.take n s) <= n)%nat.
Proof.
  assert (Hstart : ∀ m t, starts_with_dash t = false ->
                          starts_with_dash (JS.take m t) = false).
  { intros [|m] [|c t]; simpl; auto. }
  assert (Hgen : ∀ m t, JS.all is_slug_char t = true -> dash_pair t = false ->
                        JS.all is_slug_char (JS.take m t) = true
                        ∧ dash_pair (JS.take m t) = false
                        ∧ (String.length (JS.take m t) <= m)%nat).
  { induction m as [|m IH]; intros [|c t]; simpl; try (intros; repeat split; auto; lia).
    intros Ha Hp.
    apply andb_true_iff in Ha as [Hc Ha]. apply orb_false_iff in Hp as [Hcd Hp].
    destruct (IH t Ha Hp) as (IH1 & IH2 & IH3).
    rewrite Hc, IH1, IH2. repeat split; [|lia].
    destruct (is_dash c) eqn:Hd; [|reflexivity].
    simpl in Hcd. rewrite (Hstart m t Hcd). reflexivity. }
  intros Ha Hp Hs. destruct (Hgen n s Ha Hp) as (H1 & H2 & H3). auto using Hstart.
Qed.

Lemma slug_shape (name : string) :
  (String.length (slug name) <= 30)%nat
  ∧ JS.all is_slug_char (slug name) = true
  ∧ starts_with_dash (slug name) = false
  ∧ dash_pair (slug name) = false.
Proof.
  unfold slug, strip_dashes.
  pose proof (dash_runs_chars false (JS.toLowerCase name)) as Ha.
  destruct (dash_runs_pairs false (JS.toLowerCase name)) as [Hp _].
  destruct (drop_leading_dashes_shape _ Ha Hp) as (Ha1 & Hp1 & Hs1).
  destruct (drop_trailing_dashes_shape _ Ha1 Hp1 Hs1) as (Ha2 & Hp2 & Hs2).
  destruct (take_shape 30 _ Ha2 Hp2 Hs2) as (Ha3 & Hp3 & Hs3 & Hl).
  auto.
Qed.

Lemma dash_is_not_alnum (c : ascii) : is_dash c = true -> is_alnum c = false.
Proof.
  intros H. destruct (is_alnum c) eqn:E; [|reflexivity].
  apply alnum_is_not_dash in E. congruence.
Qed.

Lemma dash_runs_alnum (b : bool) (s : string) : has_alnum (dash_runs b s) = has_alnum s.
Proof.
  revert b. induction s as [|c s IH]; intros b; simpl; [reflexivity|].
  destruct (is_alnum c) eqn:Hc; simpl.
  - now rewrite Hc.
  - destruct b; simpl; apply IH.
Qed.

Lemma drop_leading_dashes_alnum (s : string) :
  has_alnum (drop_leading_dashes s) = has_alnum s.
Proof.
  induction s as [|c s IH]; simpl; [reflexivity|].
  destruct (is_dash c) eqn:Hd; [|reflexivity].
  now rewrite (dash_is_not_alnum c Hd).
Qed.

(** The slug is empty when the lower-cased name has no letter or digit, and
    begins with one otherwise. *)
Lemma slug_first (name : string) :
  if has_alnum (JS.toLowerCase name)
  then ∃ c s, slug name = String c s ∧ is_alnum c = true
  else slug name = "".
Proof.
  unfold slug, strip_dashes.
  pose proof (dash_runs_chars false (JS.toLowerCase name)) as Ha.
  destruct (dash_runs_pairs false (JS.toLowerCase name)) as [Hp _].
  destruct (drop_leading_dashes_shape _ Ha Hp) as (Ha1 & _ & Hs1).
  rewrite <- (dash_runs_alnum false), <- drop_leading_dashes_alnum.
  destruct (drop_leading_dashes (dash_runs false (JS.toLowerCase name))) as [|c t];
    [reflexivity|].
  simpl in Ha1, Hs1. apply andb_true_iff in Ha1 as [Hc _].
  unfold is_slug_char in Hc. rewrite Hs1, orb_false_r in Hc.
  simpl. rewrite Hc, Hs1. simpl. eauto.
Qed.

(** X1: the slug [generateId] derives from a name has at most thirty code
    units, each a lower-case letter, a digit or a hyphen; it does not begin
    with a hyphen and has no two hyphens in a row; and it is empty exactly
    when the lower-cased name has no letter and no digit. *)
Theorem X1_slug_shape (name : string) :
  (String.length (slug name) <= 30)%nat
  ∧ JS.all is_slug_char (slug name) = true
  ∧ starts_with_dash (slug name) = false
  ∧ dash_pair (slug name) = false
  ∧ (slug name = "" <-> has_alnum (JS.toLowerCase name) = false).
Proof.
  destruct (slug_shape name) as (H1 & H2 & H3 & H4).
  repeat (split; [assumption|]).
  pose proof (slug_first name) as H.
  destruct (has_alnum (JS.toLowerCase name)).
  - destruct H as (c & s & -> & _). split; discriminate.
  - split; auto.
Qed.

End Slug.

(** ** Numbers *)

Section Numbers.

(** Up to [MAX_SAFE_INTEGER] a natural number is its own double. *)
Lemma round53_exact (m : Z) : (m <= JS.MAX_SAFE_INTEGER)%Z -> JS.round53 m = m.
Proof.
  unfold JS.round53, JS.MAX_SAFE_INTEGER. intros H.
  change (2 ^ 53)%Z with 9007199254740992%Z.
  destruct (Z.ltb_spec m 9007199254740992); [reflexivity | lia].
Qed.

Lemma to_number_exact (m : Z) :
  (0 <= m <= JS.MAX_SAFE_INTEGER)%Z -> JS.to_number false m = JS.Finite m.
Proof.
  intros [H0 H]. unfold JS.to_number. rewrite (round53_exact m H).
  assert (Hbig : (JS.MAX_SAFE_INTEGER < 2 ^ 1024)%Z) by (vm_compute; reflexivity).
  destruct (Z.leb_spec (2 ^ 1024) m); [lia | reflexivity].
Qed.

(** From 2^53 on a natural number and its double are both at least
    2^53. *)
Lemma round53_big (m : Z) :
  (JS.MAX_SAFE_INTEGER < m)%Z -> (JS.MAX_SAFE_INTEGER < JS.round53 m)%Z.
Proof.
  unfold JS.round53, JS.MAX_SAFE_INTEGER. intros H.
  change (2 ^ 53)%Z with 9007199254740992%Z.
  destruct (Z.ltb_spec m 9007199254740992) as [Hlt|Hge]; [lia|].
  assert (Hk : (53 <= Z.log2 m)%Z).
  { apply Z.log2_le_pow2; [lia|]. change (2 ^ 53)%Z with 9007199254740992%Z. lia. }
  set (e := (Z.log2 m - 52)%Z).
  assert (He : (1 <= e)%Z) by (unfold e; lia).
  destruct (Z.log2_spec m) as [Hlo _]; [lia|].
  rewrite Z.shiftl_mul_pow2, Z.shiftr_div_pow2 by lia.
  assert (Hpow : (2 ^ Z.log2 m = 2 ^ 52 * 2 ^ e)%Z).
  { rewrite <- Z.pow_add_r by lia. f_equal. unfold e. lia. }
  assert (H2e : (2 <= 2 ^ e)%Z).
  { change 2%Z with (2 ^ 1)%Z at 1. apply Z.pow_le_mono_r; lia. }
  assert (Hq : (2 ^ 52 <= m / 2 ^ e)%Z).
  { apply Z.div_le_lower_bound; [lia|]. rewrite Z.mul_comm. lia. }
  change (2 ^ 52)%Z with 4503599627370496%Z in *.
  destruct (_ || _); nia.
Qed.

Lemma plus_exact (a b : nat) :
  (Z.of_nat a + Z.of_nat b <= JS.MAX_SAFE_INTEGER)%Z -> JS.plus a b = a + b.
Proof.
  intros H. unfold JS.plus. rewrite round53_exact by assumption. lia.
Qed.

Lemma plus_safe (a b : nat) :
  (Z.of_nat (JS.plus a b) <= JS.MAX_SAFE_INTEGER)%Z ->
  (Z.of_nat a + Z.of_nat b <= JS.MAX_SAFE_INTEGER)%Z.
Proof.
  unfold JS.plus. intros H.
  destruct (Z_le_gt_dec (Z.of_nat a + Z.of_nat b) JS.MAX_SAFE_INTEGER) as [Hle|Hgt];
    [assumption|].
  pose proof (round53_big (Z.of_nat a + Z.of_nat b)) as Hbig.
  unfold JS.MAX_SAFE_INTEGER in *. lia.
Qed.

End Numbers.

(** ** Looking conversations up *)

Section Lookup.

Import ConversationLibrary Library.

Lemma getConversation_found (id : string) (this : Library.t) (c : Entry.t) :
  getConversation id this = Some c -> ∃ i, find_by_id id this = Some (i, c).
Proof.
  unfold getConversation. destruct (find_by_id id this) as [[i x]|]; [|discriminate].
  intros [= <-]. eauto.
Qed.

Lemma getConversation_listed (id : string) (this : Library.t) (c : Entry.t) :
  getConversation id this = Some c -> c ∈ conversations this ∧ Entry.id c = id.
Proof.
  intros H. apply getConversation_found in H as [i H].
  apply find_by_id_Some in H as [Hl Hid]. split; [|assumption].
  eapply list_elem_of_lookup_2, Hl.
Qed.

Lemma getConversation_None (id : string) (this : Library.t) :
  getConversation id this = None <-> id ∉ ids this.
Proof.
  rewrite <- find_by_id_None. unfold getConversation.
  destruct (find_by_id id this); simpl; split; congruence.
Qed.

Lemma filter_insert_same (id : string) (cs : list Entry.t) (i : nat) (c e : Entry.t) :
  list_find (fun n => Entry.id n = id) cs = Some (i, c) -> Entry.id e = id ->
  head (filter (fun n => Entry.id n = id) (<[i := e]> cs)) = Some e.
Proof.
  revert i. induction cs as [|x cs IH]; intros i; simpl; [discriminate|].
  destruct (decide (Entry.id x = id)) as [Hx|Hx].
  - intros [= <- <-] He. simpl. rewrite filter_cons_True by assumption. reflexivity.
  - destruct (list_find _ cs) as [[j y]|] eqn:Hf; simpl; [|discriminate].
    intros [= <- <-] He. simpl. rewrite filter_cons_False by assumption.
    now apply (IH j).
Qed.

Lemma filter_insert_other (id : string) (cs : list Entry.t) (i : nat) (c e : Entry.t) :
  cs !! i = Some c -> Entry.id c ≠ id -> Entry.id e ≠ id ->
  filter (fun n => Entry.id n = id) (<[i := e]> cs)
  = filter (fun n => Entry.id n = id) cs.
Proof.
  revert i. induction cs as [|x cs IH]; intros [|i]; simpl; try discriminate.
  - intros [= ->] Hc He. now rewrite !filter_cons_False by assumption.
  - intros Hl Hc He. rewrite !filter_cons. now rewrite (IH i Hl Hc He).
Qed.

(** Writing an entry with the same id over the first entry with that id:
    the id now names the new entry, every other id what it named. *)
Lemma rewritten_lookup (id : string) (this : Library.t) (i : nat) (c e : Entry.t)
    (a : option string) (m v : string) :
  find_by_id id this = Some (i, c) -> Entry.id e = id ->
  let this' := Library.mk (<[i := e]> (conversations this)) a m v in
  getConversation id this' = Some e
  ∧ ∀ id', id' ≠ id -> getConversation id' this' = getConversation id' this.
Proof.
  intros Hf He. simpl. split.
  - rewrite getConversation_head. simpl. eapply filter_insert_same; eassumption.
  - intros id' Hne. rewrite !getConversation_head. simpl.
    apply find_by_id_Some in Hf as [Hl Hc].
    rewrite (filter_insert_other id' _ i c e Hl); congruence.
Qed.

(** While the use counts add up to at most [MAX_SAFE_INTEGER], the sum
    [getStats] makes is the exact one. *)
Lemma total_forward (cs : list Entry.t) (a : nat) :
  (Z.of_nat (a + sum_list (Entry.use_count <$> cs)) <= JS.MAX_SAFE_INTEGER)%Z ->
  foldl (fun sum n => JS.plus sum (Entry.use_count n)) a cs
  = a + sum_list (Entry.use_count <$> cs).
Proof.
  revert a. induction cs as [|c cs IH]; intros a H; [simpl; lia|].
  rewrite fmap_cons in H |- *. cbn [foldl sum_list_with id] in H |- *.
  rewrite plus_exact by lia. rewrite IH by lia. lia.
Qed.

Lemma total_backward (cs : list Entry.t) (a : nat) :
  (Z.of_nat (foldl (fun sum n => JS.plus sum (Entry.use_count n)) a cs)
   <= JS.MAX_SAFE_INTEGER)%Z ->
  foldl (fun sum n => JS.plus sum (Entry.use_count n)) a cs
  = a + sum_list (Entry.use_count <$> cs).
Proof.
  induction cs as [|c cs IH] using rev_ind; intros H; [simpl; lia|].
  rewrite foldl_snoc in H |- *. apply plus_safe in H as Hsafe.
  rewrite plus_exact by assumption.
  rewrite IH by lia. rewrite fmap_app, sum_list_with_app. simpl. lia.
Qed.

(** One more use of a listed entry, below [MAX_SAFE_INTEGER]. *)
Lemma totalQueries_used (io : IO) (this : Library.t) (i : nat) (c : Entry.t)
    (a : option string) (m v : string) :
  conversations this !! i = Some c ->
  (Z.of_nat (totalQueries this) < JS.MAX_SAFE_INTEGER)%Z ->
  Entry.use_count (used io c) = S (Entry.use_count c)
  ∧ totalQueries (Library.mk (<[i := used io c]> (conversations this)) a m v)
    = S (totalQueries this).
Proof.
  intros Hl Hsafe. unfold totalQueries in *.
  pose proof (total_backward (conversations this) 0 ltac:(lia)) as Ht.
  rewrite Ht in Hsafe |- *.
  assert (Hsum : sum_list (Entry.use_count <$> conversations this)
                 = sum_list (Entry.use_count <$> take i (conversations this))
                   + (Entry.use_count c
                      + sum_list (Entry.use_count <$> drop (S i) (conversations this)))).
  { rewrite <- (take_drop_middle _ _ _ Hl) at 1.
    rewrite fmap_app, fmap_cons, sum_list_with_app. reflexivity. }
  assert (Hused : Entry.use_count (used io c) = S (Entry.use_count c)).
  { cbn [used Entry.use_count]. rewrite plus_exact by lia. lia. }
  split; [exact Hused|]. cbn [conversations].
  assert (Hnew : sum_list (Entry.use_count <$> <[i := used io c]> (conversations this))
                 = S (sum_list (Entry.use_count <$> conversations this))).
  { rewrite insert_take_drop by (eapply lookup_lt_Some, Hl).
    rewrite fmap_app, fmap_cons, sum_list_with_app, Hused, Hsum. simpl. lia. }
  rewrite total_forward by lia. lia.
Qed.

(** At 2^53 the count of an entry stays where it is. *)
Lemma use_count_stops (io : IO) (c : Entry.t) :
  Z.of_nat (Entry.use_count c) = (2 ^ 53)%Z ->
  Entry.use_count (used io c) = Entry.use_count c.
Proof.
  intros H. cbn [used Entry.use_count]. unfold JS.plus. rewrite H.
  change (JS.round53 (2 ^ 53 + Z.of_nat 1)) with (2 ^ 53)%Z.
  rewrite <- H. apply Nat2Z.id.
Qed.

End Lookup.

Section LibraryOperations.

Import ConversationLibrary Library.

(** X2: [addConversation] followed by [getConversation]: whatever the state
    of the library and whether or not the save succeeds, the call comes back,
    the id of the new entry then names that entry, and every other id names
    what it named before. The entry carries the url and the name given and a
    use count of zero; it is returned when the save succeeds, and the write
    error is thrown otherwise. *)
Theorem X2_added_conversation_is_found (io : IO) (input : AddConversationInput)
    (this : Library.t) :
  ∃ c r this',
    addConversation io input this = Some (r, this')
    ∧ getConversation (Entry.id c) this' = Some c
    ∧ (∀ id, id ≠ Entry.id c -> getConversation id this' = getConversation id this)
    ∧ Entry.url c = add_url input
    ∧ Entry.name c = add_name input
    ∧ Entry.use_count c = 0%nat
    ∧ r = match write_error io with Some err => inl err | None => inr c end.
Proof.
  destruct (addConversation_effect io input this)
    as (k & r & this' & Heq & Hfresh & _ & Hcs & Hcase).
  exists (newEntry io (candidate (slug (add_name input)) k) input), r, this'.
  split; [exact Heq|]. simpl. split; [|split].
  - rewrite getConversation_head, Hcs, filter_app.
    apply getConversation_None in Hfresh. rewrite getConversation_head in Hfresh.
    destruct (filter _ (conversations this)); [|discriminate].
    simpl. rewrite filter_cons_True by reflexivity. reflexivity.
  - intros id Hne. rewrite !getConversation_head, Hcs, filter_app.
    rewrite filter_cons_False by (simpl; congruence).
    rewrite filter_nil. now rewrite app_nil_r.
  - repeat split. destruct (write_error io); now destruct Hcase.
Qed.

(** X3: [selectConversation] followed by [getActiveConversation]: when the
    id names a listed conversation and the save succeeds, the call returns
    that entry with [last_used] set to the current time, the active id is
    the id, the id names the returned entry, every other id names what it
    named before, and, the id not being the empty string,
    [getActiveConversation] gives the returned entry. *)
Theorem X3_selected_conversation_is_active (io : IO) (id : string) (this : Library.t)
    (c : Entry.t) :
  write_error io = None ->
  getConversation id this = Some c ->
  ∃ this',
    selectConversation io id this = (inr (touch io c), this')
    ∧ active_conversation_id this' = Some id
    ∧ getConversation id this' = Some (touch io c)
    ∧ (∀ id', id' ≠ id -> getConversation id' this' = getConversation id' this)
    ∧ (id ≠ "" -> getActiveConversation this' = Some (touch io c))
    ∧ length (conversations this') = length (conversations this).
Proof.
  intros Hw Hget. destruct (getConversation_found _ _ _ Hget) as [i Hf].
  pose proof (find_by_id_Some _ _ _ _ Hf) as [_ Hid].
  unfold selectConversation, bind, saveLibrary, ret. rewrite Hf, Hw.
  eexists. split; [reflexivity|].
  destruct (rewritten_lookup id this i c (touch io c) (Some id) (now io) (version this)
              Hf Hid) as [H1 H2].
  split; [reflexivity|]. split; [exact H1|]. split; [exact H2|]. split.
  - intros Hne. unfold getActiveConversation. simpl.
    destruct id as [|x id]; [now destruct Hne|]. exact H1.
  - simpl. apply length_insert.
Qed.

(** X4: [removeConversation] of a listed conversation whose save succeeds
    returns [true]; afterwards the id names no conversation, every other id
    names what it named before, fewer conversations are listed, and a second
    removal of the id returns [false] and leaves the library as it is,
    whatever the disk does. *)
Theorem X4_removed_conversation_is_gone (io : IO) (id : string) (this : Library.t)
    (c : Entry.t) :
  write_error io = None ->
  getConversation id this = Some c ->
  ∃ this',
    removeConversation io id this = (inr true, this')
    ∧ getConversation id this' = None
    ∧ (∀ id', id' ≠ id -> getConversation id' this' = getConversation id' this)
    ∧ (length (conversations this') < length (conversations this))%nat
    ∧ (∀ io', removeConversation io' id this' = (inr false, this')).
Proof.
  intros Hw Hget.
  destruct (removeConversation io id this) as [r this'] eqn:Hrm.
  assert (Hr : r = inr true).
  { revert Hrm. unfold removeConversation, bind, saveLibrary, ret. rewrite Hget, Hw.
    now intros [= <- _]. }
  assert (Hcs : conversations this'
                = filter (fun n => Entry.id n ≠ id) (conversations this)).
  { revert Hrm. unfold removeConversation, bind, saveLibrary, ret. rewrite Hget, Hw.
    intros [= _ <-]. case_bool_decide; reflexivity. }
  subst r. exists this'. split; [reflexivity|].
  assert (Hgone : getConversation id this' = None).
  { apply getConversation_None. unfold ids. rewrite Hcs, ids_filter.
    intros Hin. apply list_elem_of_filter in Hin as [Hne _]. now apply Hne. }
  split; [exact Hgone|]. split; [|split].
  - intros id' Hne. rewrite !getConversation_head, Hcs. f_equal.
    rewrite list_filter_filter. apply list_filter_iff. intros x. split.
    + now intros [H _].
    + intros H. split; [assumption | congruence].
  - rewrite Hcs. apply getConversation_listed in Hget as [Hin Hid].
    eapply length_filter_lt; [exact Hin|]. intros Hne. now apply Hne.
  - intros io'. unfold removeConversation. now rewrite Hgone.
Qed.

(** X5: [incrementUseCount] of a listed conversation, seen through
    [getStats], in a library whose [total_queries] is below
    [Number.MAX_SAFE_INTEGER] (2^53 - 1), where adding one to a count is
    exact: the id then names the entry with its use count raised by one
    and [last_used] set to the current time, every other id names what it
    named before, the number of conversations is the same and
    [total_queries] has grown by exactly one. This holds in memory even when
    the save fails, in which case the write error is thrown instead of the
    entry being returned. (At a use count of 2^53 the sum is rounded back to
    2^53 and the count stays: [use_count_stops].) *)
Theorem X5_use_is_counted_once (io : IO) (id : string) (this : Library.t) (c : Entry.t) :
  (Z.of_nat (total_queries (getStats this)) < JS.MAX_SAFE_INTEGER)%Z ->
  getConversation id this = Some c ->
  ∃ r this',
    incrementUseCount io id this = (r, this')
    ∧ r = match write_error io with
          | Some err => inl err
          | None => inr (Some (used io c))
          end
    ∧ getConversation id this' = Some (used io c)
    ∧ Entry.use_count (used io c) = S (Entry.use_count c)
    ∧ (∀ id', id' ≠ id -> getConversation id' this' = getConversation id' this)
    ∧ total_conversations (getStats this') = total_conversations (getStats this)
    ∧ total_queries (getStats this') = S (total_queries (getStats this)).
Proof.
  intros Hsafe Hget. destruct (getConversation_found _ _ _ Hget) as [i Hf].
  pose proof (find_by_id_Some _ _ _ _ Hf) as [Hl Hid].
  unfold incrementUseCount, bind, saveLibrary, ret. rewrite Hf.
  change (total_queries (getStats this)) with (totalQueries this) in Hsafe.
  destruct (write_error io) as [err|].
  - eexists _, _. split; [reflexivity|]. split; [reflexivity|].
    destruct (rewritten_lookup id this i c (used io c) (active_conversation_id this)
                (last_modified this) (version this) Hf Hid) as [H1 H2].
    destruct (totalQueries_used io this i c (active_conversation_id this)
                (last_modified this) (version this) Hl Hsafe) as [Hcount Ht].
    split; [exact H1|]. split; [exact Hcount|]. split; [exact H2|]. split.
    + simpl. apply length_insert.
    + exact Ht.
  - eexists _, _. split; [reflexivity|]. split; [reflexivity|].
    destruct (rewritten_lookup id this i c (used io c) (active_conversation_id this)
                (now io) (version this) Hf Hid) as [H1 H2].
    destruct (totalQueries_used io this i c (active_conversation_id this)
                (now io) (version this) Hl Hsafe) as [Hcount Ht].
    split; [exact H1|]. split; [exact Hcount|]. split; [exact H2|]. split.
    + simpl. apply length_insert.
    + exact Ht.
Qed.

End LibraryOperations.

Section Updates.

Import ConversationLibrary Library.

(** X6: [updateConversation] of a listed conversation: the id then names
    the updated entry and every other id names what it named before, whether
    or not the save succeeds. The entry keeps its id, [added_at], [last_used]
    and use count, and the active id is kept. A name, description or url that
    is absent or the empty string leaves the field as it was, any other
    replaces it; a list of topics that is given replaces the topics, also
    when it is empty. *)
Theorem X6_update_keeps_what_is_not_given (io : IO) (input : UpdateConversationInput)
    (this : Library.t) (c : Entry.t) :
  getConversation (upd_id input) this = Some c ->
  ∃ e r this',
    updateConversation io input this = (r, this')
    ∧ r = match write_error io with Some err => inl err | None => inr e end
    ∧ getConversation (upd_id input) this' = Some e
    ∧ (∀ id', id' ≠ upd_id input -> getConversation id' this' = getConversation id' this)
    ∧ active_conversation_id this' = active_conversation_id this
    ∧ (Entry.id e = Entry.id c ∧ Entry.added_at e = Entry.added_at c
       ∧ Entry.last_used e = Entry.last_used c ∧ Entry.use_count e = Entry.use_count c)
    ∧ Entry.name e = (if JS.truthy (upd_name input)
                      then default "" (upd_name input) else Entry.name c)
    ∧ Entry.description e = (if JS.truthy (upd_description input)
                             then default "" (upd_description input)
                             else Entry.description c)
    ∧ Entry.url e = (if JS.truthy (upd_url input)
                     then default "" (upd_url input) else Entry.url c)
    ∧ Entry.topics e = default (Entry.topics c) (upd_topics input).
Proof.
  intros Hget. destruct (getConversation_found _ _ _ Hget) as [i Hf].
  pose proof (find_by_id_Some _ _ _ _ Hf) as [Hl Hid].
  unfold updateConversation, bind, saveLibrary, ret. rewrite Hf.
  exists (merge input c).
  assert (Hfields :
    Entry.name (merge input c)
      = (if JS.truthy (upd_name input) then default "" (upd_name input) else Entry.name c)
    ∧ Entry.description (merge input c)
      = (if JS.truthy (upd_description input)
         then default "" (upd_description input) else Entry.description c)
    ∧ Entry.url (merge input c)
      = (if JS.truthy (upd_url input) then default "" (upd_url input) else Entry.url c)
    ∧ Entry.topics (merge input c) = default (Entry.topics c) (upd_topics input)).
  { unfold merge, JS.or_else. cbn [Entry.name Entry.description Entry.url Entry.topics].
    repeat split.
    - destruct (upd_name input) as [[|x n]|]; reflexivity.
    - destruct (upd_description input) as [[|x n]|]; reflexivity.
    - destruct (upd_url input) as [[|x n]|]; reflexivity. }
  destruct (write_error io) as [err|].
  - eexists _, _. split; [reflexivity|]. split; [reflexivity|].
    destruct (rewritten_lookup (upd_id input) this i c (merge input c)
                (active_conversation_id this) (last_modified this) (version this)
                Hf Hid) as [H1 H2].
    split; [exact H1|]. split; [exact H2|]. split; [reflexivity|].
    split; [repeat split|]. exact Hfields.
  - eexists _, _. split; [reflexivity|]. split; [reflexivity|].
    destruct (rewritten_lookup (upd_id input) this i c (merge input c)
                (active_conversation_id this) (now io) (version this)
                Hf Hid) as [H1 H2].
    split; [exact H1|]. split; [exact H2|]. split; [reflexivity|].
    split; [repeat split|]. exact Hfields.
Qed.

End Updates.

(** ** Statistics and search *)

Section Stats.

Import ConversationLibrary Library.

(** What the reduction of [getStats] ends with: nothing when no entry has
    been used, and otherwise the first entry among those used most. *)
Lemma mostUsed_fold (cs : list Entry.t) :
  match foldl more_used None cs with
  | None => ∀ m, m ∈ cs -> Entry.use_count m = 0%nat
  | Some n =>
      ∃ i, cs !! i = Some n
           ∧ (0 < Entry.use_count n)%nat
           ∧ ∀ j m, cs !! j = Some m ->
                    (Entry.use_count m <= Entry.use_count n)%nat
                    ∧ ((j < i)%nat -> (Entry.use_count m < Entry.use_count n)%nat)
  end.
Proof.
  induction cs as [|x cs IH] using rev_ind; simpl.
  - intros m Hm. now apply elem_of_nil in Hm.
  - rewrite foldl_snoc. destruct (foldl more_used None cs) as [n|]; unfold more_used; simpl.
    + destruct IH as (i & Hi & Hpos & Hmax).
      pose proof (lookup_lt_Some _ _ _ Hi) as Hlen.
      destruct (Entry.use_count n <? Entry.use_count x)%nat eqn:E.
      * apply Nat.ltb_lt in E. exists (length cs). split; [|split; [lia|]].
        { rewrite lookup_app_r by lia. now rewrite Nat.sub_diag. }
        intros j m Hj. destruct (decide (j < length cs)%nat) as [Hlt|Hge].
        -- rewrite lookup_app_l in Hj by assumption.
           destruct (Hmax j m Hj) as [Hle _]. lia.
        -- rewrite lookup_app_r in Hj by lia.
           destruct (j - length cs)%nat as [|k] eqn:Ek; [|now destruct k].
           injection Hj as <-. lia.
      * apply Nat.ltb_ge in E. exists i. split; [|split; [assumption|]].
        { now rewrite lookup_app_l. }
        intros j m Hj. destruct (decide (j < length cs)%nat) as [Hlt|Hge].
        -- rewrite lookup_app_l in Hj by assumption. now apply Hmax.
        -- rewrite lookup_app_r in Hj by lia.
           destruct (j - length cs)%nat as [|k] eqn:Ek; [|now destruct k].
           injection Hj as <-. lia.
    + destruct (0 <? Entry.use_count x)%nat eqn:E.
      * apply Nat.ltb_lt in E. exists (length cs). split; [|split; [assumption|]].
        { rewrite lookup_app_r by lia. now rewrite Nat.sub_diag. }
        intros j m Hj. destruct (decide (j < length cs)%nat) as [Hlt|Hge].
        -- rewrite lookup_app_l in Hj by assumption.
           rewrite (IH m) by (eapply list_elem_of_lookup_2, Hj). lia.
        -- rewrite lookup_app_r in Hj by lia.
           destruct (j - length cs)%nat as [|k] eqn:Ek; [|now destruct k].
           injection Hj as <-. lia.
      * apply Nat.ltb_ge in E. intros m Hm. apply elem_of_app in Hm as [Hm|Hm].
        -- now apply IH.
        -- apply list_elem_of_singleton in Hm as ->. lia.
Qed.

(** X7: the most used conversation [getStats] reports. When an id is
    reported, it is the non-empty id of a listed entry that has been used at
    least once, no entry has been used more, and every entry listed before
    it has been used less. When none is reported, no entry has ever been
    used, or the entry that would be reported has the empty id. *)
Theorem X7_most_used_conversation (this : Library.t) :
  match most_used_conversation (getStats this) with
  | Some id =>
      ∃ i n, conversations this !! i = Some n
             ∧ Entry.id n = id ∧ id ≠ ""
             ∧ (0 < Entry.use_count n)%nat
             ∧ ∀ j m, conversations this !! j = Some m ->
                      (Entry.use_count m <= Entry.use_count n)%nat
                      ∧ ((j < i)%nat -> (Entry.use_count m < Entry.use_count n)%nat)
  | None =>
      (∀ m, m ∈ conversations this -> Entry.use_count m = 0%nat)
      ∨ "" ∈ ids this
  end.
Proof.
  unfold getStats, mostUsed. cbn [most_used_conversation].
  pose proof (mostUsed_fold (conversations this)) as H.
  destruct (foldl more_used None (conversations this)) as [n|]; simpl.
  - destruct H as (i & Hi & Hpos & Hmax).
    destruct (Entry.id n) as [|x s] eqn:Hid; simpl.
    + right. unfold ids. apply list_elem_of_fmap. exists n. split; [now rewrite Hid|].
      eapply list_elem_of_lookup_2, Hi.
    + exists i, n. rewrite Hid. split; [assumption|]. split; [reflexivity|].
      split; [discriminate|]. split; [assumption|]. exact Hmax.
  - now left.
Qed.

Lemma prefix_refl (s : string) : String.prefix s s = true.
Proof.
  induction s as [|c s IH]; [reflexivity|].
  simpl. destruct (ascii_dec c c); [assumption | contradiction].
Qed.

Lemma includes_empty (s : string) : JS.includes s "" = true.
Proof. destruct s; reflexivity. Qed.

Lemma includes_middle (a q b : string) : JS.includes (a +:+ q +:+ b) q = true.
Proof.
  induction a as [|c a IH].
  - rewrite append_nil_l. apply includes_append.
    destruct q as [|c q]; [reflexivity|].
    change (JS.includes (String c q) (String c q))
      with (String.prefix (String c q) (String c q) || JS.includes q (String c q)).
    now rewrite prefix_refl.
  - change (String c a +:+ q +:+ b) with (String c (a +:+ q +:+ b)).
    change (JS.includes (String c (a +:+ q +:+ b)) q)
      with (String.prefix q (String c (a +:+ q +:+ b)) || JS.includes (a +:+ q +:+ b) q).
    rewrite IH. apply orb_true_r.
Qed.

Lemma lower_char_idemp (c : ascii) : JS.lower_char (JS.lower_char c) = JS.lower_char c.
Proof.
  destruct c as [[] [] [] [] [] [] [] []]; vm_compute; reflexivity.
Qed.

Lemma toLowerCase_idemp (s : string) : JS.toLowerCase (JS.toLowerCase s) = JS.toLowerCase s.
Proof.
  induction s as [|c s IH]; [reflexivity|].
  simpl. now rewrite lower_char_idemp, IH.
Qed.

(** X8: [searchConversations] returns listed conversations in their listed
    order; the empty query returns all of them; the query may be given
    lower-cased, or replaced by any query with the same lower-casing, without
    changing the results; a conversation whose lower-cased name contains the
    lower-cased query is among the results. For names and queries of code
    units below 256 (Latin-1), where lower-casing works unit by unit, a
    conversation whose name contains the query in whatever letter case is
    among the results. *)
Theorem X8_search_is_case_insensitive (query : string) (this : Library.t) :
  searchConversations query this `sublist_of` conversations this
  ∧ searchConversations "" this = conversations this
  ∧ searchConversations (JS.toLowerCase query) this = searchConversations query this
  ∧ (∀ q, JS.toLowerCase q = JS.toLowerCase query ->
          searchConversations q this = searchConversations query this)
  ∧ (∀ n a b, n ∈ conversations this ->
              JS.toLowerCase (Entry.name n) = a +:+ JS.toLowerCase query +:+ b ->
              n ∈ searchConversations query this)
  ∧ (∀ n a q b, n ∈ conversations this ->
                Entry.name n = a +:+ q +:+ b ->
                JS.toLowerCase q = JS.toLowerCase query ->
                n ∈ searchConversations query this).
Proof.
  unfold searchConversations. split; [apply sublist_filter|].
  split; [|split; [|split; [|split]]].
  - simpl. induction (conversations this) as [|n cs IH]; [reflexivity|].
    rewrite filter_cons_True; [now rewrite IH|].
    unfold hit. now rewrite includes_empty.
  - now rewrite toLowerCase_idemp.
  - intros q Hq. now rewrite Hq.
  - intros n a b Hn Hname. apply list_elem_of_filter. split; [|assumption].
    unfold hit. rewrite Hname, includes_middle. reflexivity.
  - intros n a q b Hn Hname Hq. apply list_elem_of_filter. split; [|assumption].
    unfold hit. rewrite Hname, !toLowerCase_append, Hq, includes_middle. reflexivity.
Qed.

End Stats.

(** ** Configuration from the environment *)

Section Environment.

Import Config.

Lemma digits_of_uint (rest : string) (u : Decimal.uint) (acc : nat) (seen : bool) :
  JS.digits (Z.of_nat acc) seen (NilEmpty.string_of_uint u +:+ rest)
  = JS.digits (Z.of_nat (Nat.of_uint_acc u acc))
      (seen || match u with Decimal.Nil => false | _ => true end) rest.
Proof.
  revert acc seen.
  induction u as [|u IH|u IH|u IH|u IH|u IH|u IH|u IH|u IH|u IH|u IH]; intros acc seen;
    [ simpl; rewrite append_nil_l, orb_false_r; reflexivity | .. ];
    cbn [NilEmpty.string_of_uint Nat.of_uint_acc]; rewrite append_cons;
    cbn [JS.digits]; change (JS.is_digit _) with true; cbv iota;
    rewrite orb_true_r, <- (orb_true_l (match u with Decimal.Nil => false | _ => true end));
    rewrite <- IH; f_equal; rewrite Nat.tail_mul_spec; vm_compute (JS.code _ - 48)%nat; lia.
Qed.

Lemma to_uint_not_nil (n : nat) : Nat.to_uint n ≠ Decimal.Nil.
Proof.
  intros H. pose proof (Unsigned.of_to n) as Hn. rewrite H in Hn.
  simpl in Hn. subst n. discriminate H.
Qed.

Lemma digits_stop (acc : Z) (rest : string) :
  starts_with_digit rest = false -> JS.digits acc true rest = Some acc.
Proof. destruct rest as [|c rest]; simpl; [reflexivity|]. now intros ->. Qed.

Lemma parseInt_at_digit (c : ascii) (s : string) :
  JS.is_digit c = true ->
  JS.parseInt (String c s) = JS.to_number false <$> JS.digits 0 false (String c s).
Proof.
  intros H. destruct c as [[] [] [] [] [] [] [] []];
    try (vm_compute in H; discriminate H); reflexivity.
Qed.

Lemma of_nat_at_digit (n : nat) :
  ∃ c s, JS.of_nat n = String c s ∧ JS.is_digit c = true.
Proof.
  unfold JS.of_nat. pose proof (to_uint_not_nil n) as H.
  destruct (Nat.to_uint n); [now destruct H | ..]; simpl; eauto.
Qed.

(** X9: an integer variable of the environment is read back as the number
    it spells, up to [Number.MAX_SAFE_INTEGER]: for the decimal rendering of
    a natural number of at most 2^53 - 1, followed by anything that does not
    begin with a digit, [parseInteger] returns that number and never the
    default. *)
Theorem X9_decimal_values_are_read_back (n : nat) (rest : string)
    (defaultValue : JS.number) :
  (Z.of_nat n <= JS.MAX_SAFE_INTEGER)%Z ->
  starts_with_digit rest = false ->
  parseInteger (Some (JS.of_nat n +:+ rest)) defaultValue = JS.Finite (Z.of_nat n).
Proof.
  intros Hsafe Hrest. unfold parseInteger.
  destruct (of_nat_at_digit n) as (c & s & Hs & Hc).
  assert (Hp : JS.parseInt (JS.of_nat n +:+ rest)
               = JS.to_number false <$> JS.digits 0 false (JS.of_nat n +:+ rest)).
  { rewrite Hs, append_cons. now apply parseInt_at_digit. }
  rewrite Hp. unfold JS.of_nat.
  pose proof (digits_of_uint rest (Nat.to_uint n) 0 false) as Hd.
  change (Z.of_nat 0) with 0%Z in Hd. rewrite Hd.
  pose proof (to_uint_not_nil n) as Hnil.
  change (Nat.of_uint_acc (Nat.to_uint n) 0) with (Nat.of_uint (Nat.to_uint n)).
  rewrite Unsigned.of_to.
  assert (Hdigits : JS.digits (Z.of_nat n) true rest = Some (Z.of_nat n))
    by now apply digits_stop.
  destruct (Nat.to_uint n); [now destruct Hnil | ..]; cbn [orb];
    rewrite Hdigits; cbn [fmap option_fmap option_map default from_option id];
    (rewrite to_number_exact; [reflexivity | lia]).
Qed.

(** X10: variables that are unset or set to the empty string override
    nothing: [applyEnvOverrides] returns the configuration it is given, and
    [buildConfig] the defaults. *)
Theorem X10_empty_environment_gives_defaults (env : Env) (config : Config.t)
    (paths : Paths) :
  (∀ k, env k = None ∨ env k = Some "") ->
  applyEnvOverrides env config = config
  ∧ buildConfig env paths = DEFAULTS paths.
Proof.
  intros H.
  assert (Hb : ∀ k d, parseBoolean (env k) d = d).
  { intros k d. destruct (H k) as [-> | ->]; reflexivity. }
  assert (Hi : ∀ k d, parseInteger (env k) d = d).
  { intros k d. destruct (H k) as [-> | ->]; reflexivity. }
  assert (Ha : ∀ k d, parseArray (env k) d = d).
  { intros k d. destruct (H k) as [-> | ->]; reflexivity. }
  assert (Ho : ∀ k d, JS.or_else (env k) d = d).
  { intros k d. destruct (H k) as [-> | ->]; reflexivity. }
  assert (Hall : ∀ c, applyEnvOverrides env c = c).
  { intros c. unfold applyEnvOverrides. rewrite !Hb, !Hi, !Ha, !Ho. now destruct c. }
  split; [apply Hall|]. unfold buildConfig. apply Hall.
Qed.

Lemma all_append (f : ascii -> bool) (a b : string) :
  JS.all f (a +:+ b) = JS.all f a && JS.all f b.
Proof.
  induction a as [|c a IH]; [reflexivity|].
  rewrite append_cons. simpl. rewrite IH. now rewrite andb_assoc.
Qed.

Lemma split_comma_elements (cur s : string) :
  JS.all (fun c => negb (is_comma c)) cur = true ->
  Forall (fun x => JS.all (fun c => negb (is_comma c)) x = true) (JS.split_comma cur s).
Proof.
  revert cur. induction s as [|c s IH]; intros cur Hcur; simpl.
  - now constructor.
  - destruct (JS.code c =? 44)%nat eqn:E.
    + constructor; [assumption|]. now apply IH.
    + apply IH. rewrite all_append, Hcur. simpl. unfold is_comma. now rewrite E.
Qed.

Lemma trimStart_all (f : ascii -> bool) (s : string) :
  JS.all f s = true -> JS.all f (JS.trimStart s) = true.
Proof.
  induction s as [|c s IH]; simpl; [auto|]. intros H.
  destruct (JS.is_space c); [|exact H].
  apply andb_true_iff in H as [_ H]. now apply IH.
Qed.

Lemma trimEnd_all (f : ascii -> bool) (s : string) :
  JS.all f s = true -> JS.all f (JS.trimEnd s) = true.
Proof.
  induction s as [|c s IH]; simpl; [auto|]. intros H.
  apply andb_true_iff in H as [Hc H].
  destruct (JS.is_space c && JS.is_empty (JS.trimEnd s)); [reflexivity|].
  simpl. now rewrite Hc, IH.
Qed.

Lemma trimStart_tight (s : string) : JS.starts_with_space (JS.trimStart s) = false.
Proof.
  induction s as [|c s IH]; simpl; [reflexivity|].
  destruct (JS.is_space c) eqn:E; [assumption|]. simpl. exact E.
Qed.

Lemma trimEnd_keeps_front (s : string) :
  JS.starts_with_space s = false -> JS.starts_with_space (JS.trimEnd s) = false.
Proof. destruct s as [|c s]; simpl; [auto|]. intros H. rewrite H. simpl. exact H. Qed.

Lemma trimStart_all_space (s : string) : JS.all_space s = true -> JS.trimStart s = "".
Proof.
  induction s as [|c s IH]; simpl; [reflexivity|]. intros H.
  apply andb_true_iff in H as [-> H]. now apply IH.
Qed.

(** The pieces between commas of a string of commas and white space are
    white space. *)
Lemma split_comma_blank (cur s : string) :
  JS.all_space cur = true ->
  JS.all (fun c => JS.is_space c || is_comma c) s = true ->
  Forall (fun x => JS.all_space x = true) (JS.split_comma cur s).
Proof.
  revert cur. induction s as [|c s IH]; intros cur Hcur Hs; simpl.
  - now constructor.
  - simpl in Hs. apply andb_true_iff in Hs as [Hc Hs].
    destruct (JS.code c =? 44)%nat eqn:E.
    + constructor; [assumption|]. now apply IH.
    + apply IH; [|assumption]. rewrite all_space_append, Hcur. simpl.
      unfold is_comma in Hc. rewrite E, orb_false_r in Hc. now rewrite Hc.
Qed.

(** X11: what [parseArray] makes of a non-empty value. Every element of
    the list is non-empty, has no white space in front or behind and holds
    no comma. A value made of commas and white space only gives the empty
    list, and not the default. *)
Theorem X11_list_values_are_trimmed (value : string) (defaultValue : list string) :
  value ≠ "" ->
  Forall is_element (parseArray (Some value) defaultValue)
  ∧ (JS.all (fun c => JS.is_space c || is_comma c) value = true ->
     parseArray (Some value) defaultValue = []).
Proof.
  intros Hne. unfold parseArray.
  assert (Ht : JS.truthy (Some value) = true).
  { destruct value; [now destruct Hne | reflexivity]. }
  rewrite Ht. change (default "" (Some value)) with value. split.
  - apply Forall_forall. intros x Hx.
    apply list_elem_of_filter in Hx as [Hx Hin].
    apply list_elem_of_fmap in Hin as (y & -> & Hy).
    pose proof (split_comma_elements "" value eq_refl) as Hc.
    rewrite Forall_forall in Hc. specialize (Hc y Hy).
    unfold is_element, JS.trim. repeat split.
    + intros E. unfold JS.trim in Hx. rewrite E in Hx. discriminate Hx.
    + apply trimEnd_keeps_front, trimStart_tight.
    + apply trimEnd_tight.
    + now apply trimEnd_all, trimStart_all.
  - intros Hblank.
    pose proof (split_comma_blank "" value eq_refl Hblank) as Hb.
    induction (JS.split_comma "" value) as [|y ys IH]; [reflexivity|].
    apply Forall_cons in Hb as [Hy Hys].
    rewrite fmap_cons, filter_cons_False; [now apply IH|].
    unfold JS.trim. rewrite (trimStart_all_space y Hy). simpl. discriminate.
Qed.

End Environment.

(** ** The handlers and the world around them *)

Section HandlerFrames.

Import ToolHandlers.

Lemma handleAskQuestion_world args env w :
  (handleAskQuestion args env w).2 = (askQuestion args env w).2.
Proof.
  unfold handleAskQuestion. destruct (askQuestion args env w) as [[e|r] w']; reflexivity.
Qed.

(** Of the world, [askQuestion] changes the library only while it resolves
    the URL, restores [CONFIG], leaves the disk alone and only adds to the
    record of calls. *)
Lemma askQuestion_frame args env w :
  library (askQuestion args env w).2
    = (resolvedConversationUrl (io env) (gemini_url args) (conversation_id args)
         (library w)).2
  ∧ CONFIG (askQuestion args env w).2 = CONFIG w
  ∧ disk (askQuestion args env w).2 = disk w
  ∧ calls w `prefix_of` calls (askQuestion args env w).2.
Proof.
  unfold askQuestion, bind, try_finally, onLibrary, onSessionManager, progress,
    record, assignConfig, get, ret, throw, SessionManager.ask.
  destruct (resolvedConversationUrl (io env) (gemini_url args) (conversation_id args)
              (library w)) as [r lib'].
  repeat (case_match; simplify_eq/=); repeat split;
    rewrite <- ?app_assoc; try reflexivity; try apply prefix_app_r; reflexivity.
Qed.





(** X13: the two readings of the visibility settings of [ask_question]
    agree when the settings do. If every setting that is given among
    [show_browser], [browser_options.show] and [browser_options.headless]
    asks for the same visibility and at least one is given, the override
    handed to the session manager is that visibility and the configuration
    built by [applyBrowserOptions] has [headless] set to its opposite. If
    none is given there is no override and [headless] is as configured. *)
Theorem X13_visibility_settings_agree (CONFIG : Config.t) (show_browser : option bool)
    (browser_options : option Config.BrowserOptions) (visible : bool) :
  (show_browser = None ∨ show_browser = Some visible) ->
  (browser_options ≫= Config.show = None
   ∨ browser_options ≫= Config.show = Some visible) ->
  (browser_options ≫= Config.opt_headless = None
   ∨ browser_options ≫= Config.opt_headless = Some (negb visible)) ->
  (overrideHeadless show_browser browser_options = Some visible
   ∧ Config.headless (Config.applyBrowserOptions CONFIG browser_options show_browser)
     = negb visible)
  ∨ (show_browser = None
     ∧ browser_options ≫= Config.show = None
     ∧ browser_options ≫= Config.opt_headless = None
     ∧ overrideHeadless show_browser browser_options = None
     ∧ Config.headless (Config.applyBrowserOptions CONFIG browser_options show_browser)
       = Config.headless CONFIG).
Proof.
  unfold overrideHeadless, Config.applyBrowserOptions, Config.pick.
  cbn [Config.headless].
  intros [-> | ->] [-> | ->] [-> | ->]; simpl; rewrite ?negb_involutive; auto 10.
Qed.

Lemma incrementUseCount_total io id this c :
  (Z.of_nat (ConversationLibrary.totalQueries this) < JS.MAX_SAFE_INTEGER)%Z ->
  ConversationLibrary.getConversation id this = Some c ->
  ConversationLibrary.totalQueries (ConversationLibrary.incrementUseCount io id this).2
  = S (ConversationLibrary.totalQueries this).
Proof.
  intros Hsafe Hget. destruct (getConversation_found _ _ _ Hget) as [i Hf].
  pose proof (find_by_id_Some _ _ _ _ Hf) as [Hl _].
  unfold ConversationLibrary.incrementUseCount, bind, ConversationLibrary.saveLibrary, ret.
  rewrite Hf.
  destruct (write_error io) as [err|]; cbn [snd].
  - exact (proj2 (totalQueries_used io this i c
                    (Library.active_conversation_id this) (Library.last_modified this)
                    (Library.version this) Hl Hsafe)).
  - exact (proj2 (totalQueries_used io this i c
                    (Library.active_conversation_id this) (now io)
                    (Library.version this) Hl Hsafe)).
Qed.

(** X14: how [ask_question] counts uses, for a call run on its own and a
    library whose [total_queries] is below [Number.MAX_SAFE_INTEGER], a
    string counting as given when it is present and not empty. A call with
    a [gemini_url] given leaves the library as it is. A call without one
    that gives a [conversation_id], or gives none while the library has an
    active id, raises [total_queries] by exactly one when that id names a
    listed entry, whether or not a session is obtained and an answer comes
    back, and leaves the library as it is when the id names no entry. A call
    with neither argument given and no active id given leaves the library as
    it is. *)
Theorem X14_ask_question_counts_uses (args : AskQuestionArgs) (env : AskEnv) (w : World) :
  let after := library (handleAskQuestion args env w).2 in
  let total this := ConversationLibrary.total_queries (ConversationLibrary.getStats this) in
  (Z.of_nat (total (library w)) < JS.MAX_SAFE_INTEGER)%Z ->
  match nonempty (gemini_url args), nonempty (conversation_id args),
        nonempty (Library.active_conversation_id (library w)) with
  | Some _, _, _ => after = library w
  | None, Some id, _ | None, None, Some id =>
      match entry_named id (library w) with
      | Some _ => total after = S (total (library w))
      | None => after = library w
      end
  | None, None, None => after = library w
  end.
Proof.
  cbv zeta. intros Hsafe. rewrite handleAskQuestion_world.
  destruct (askQuestion_frame args env w) as (-> & _).
  unfold resolvedConversationUrl, bind, get, ret, throw.
  rewrite !truthy_nonempty.
  destruct (nonempty (gemini_url args)); simpl; [reflexivity|].
  destruct (nonempty (conversation_id args)) as [id|] eqn:Hid; simpl.
  - rewrite (nonempty_default _ _ Hid), <- getConversation_named.
    destruct (ConversationLibrary.getConversation id (library w)) as [c|] eqn:Hget.
    + rewrite <- (incrementUseCount_total (io env) _ _ _ Hsafe Hget).
      destruct (ConversationLibrary.incrementUseCount (io env) id (library w))
        as [[e|[x|]] lib']; reflexivity.
    + unfold ConversationLibrary.incrementUseCount.
      unfold ConversationLibrary.getConversation in Hget.
      destruct (ConversationLibrary.find_by_id id (library w)); [discriminate | reflexivity].
  - rewrite getActiveConversation_named.
    destruct (nonempty (Library.active_conversation_id (library w))) as [aid|];
      [|reflexivity].
    destruct (entry_named aid (library w)) as [a|] eqn:Ha; [|reflexivity].
    rewrite <- getConversation_named in Ha.
    assert (Hget : ConversationLibrary.getConversation (Entry.id a) (library w) = Some a).
    { apply getConversation_find in Ha as (i & Hf & <-).
      unfold ConversationLibrary.getConversation. now rewrite Hf. }
    rewrite <- (incrementUseCount_total (io env) _ _ _ Hsafe Hget).
    destruct (ConversationLibrary.incrementUseCount (io env) (Entry.id a) (library w))
      as [[e|[x|]] lib']; reflexivity.
Qed.

(** X15: the library handlers on an id no conversation has:
    [get_conversation], [select_conversation], [update_conversation] and
    [remove_conversation] all report failure with the error
    [Conversation not found: <id>], and leave the world as it is, no write
    being tried. *)
Theorem X15_unknown_ids_are_reported (id : string) (io : IO) (w : World) :
  ConversationLibrary.getConversation id (library w) = None ->
  handleGetConversation id w = failed ("Conversation not found: " +:+ id)
  ∧ handleSelectConversation id io w = (failed ("Conversation not found: " +:+ id), w)
  ∧ (∀ input, upd_id input = id ->
       handleUpdateConversation input io w
       = (failed ("Conversation not found: " +:+ id), w))
  ∧ handleRemoveConversation id io w = (failed ("Conversation not found: " +:+ id), w).
Proof.
  intros Hget.
  assert (Hf : ConversationLibrary.find_by_id id (library w) = None).
  { unfold ConversationLibrary.getConversation in Hget.
    destruct (ConversationLibrary.find_by_id id (library w)); [discriminate | reflexivity]. }
  split; [|split; [|split]].
  - unfold handleGetConversation. now rewrite Hget.
  - unfold handleSelectConversation, onLibrary, ConversationLibrary.selectConversation.
    rewrite Hf. destruct w; reflexivity.
  - intros input <-.
    unfold handleUpdateConversation, onLibrary, ConversationLibrary.updateConversation.
    rewrite Hf. destruct w; reflexivity.
  - now apply handleRemoveConversation_unknown.
Qed.


End HandlerFrames.

(** ** Resources *)

Section ResourceFacts.

Import ConversationLibrary ResourceHandlers.

Lemma tokens_plain (s : string) :
  JS.all (fun c => negb (unit_of c =? 37)%N) s = true ->
  tokens s = Some (Literal <$> units s).
Proof.
  induction s as [|c s IH]; [reflexivity|]. simpl. intros H.
  apply andb_true_iff in H as [Hc H]. apply negb_true_iff in Hc.
  rewrite Hc, (IH H). reflexivity.
Qed.

Lemma decode_literals (us : list N) : decode (Literal <$> us) = Some us.
Proof.
  induction us as [|u us IH]; [reflexivity|].
  rewrite fmap_cons. cbn [decode]. now rewrite IH.
Qed.

(** A string without a percent sign is decoded as itself. *)
Lemma decodeURIComponent_plain (s : string) :
  JS.all (fun c => negb (unit_of c =? 37)%N) s = true ->
  decodeURIComponent s = Some (units s).
Proof.
  intros H. unfold decodeURIComponent. rewrite (tokens_plain s H). simpl.
  apply decode_literals.
Qed.

Lemma string_of_units_units (s : string) : string_of_units (units s) = s.
Proof.
  induction s as [|c s IH]; [reflexivity|].
  change (string_of_units (units (String c s)))
    with (String (ascii_of_N (N_of_ascii c)) (string_of_units (units s))).
  now rewrite ascii_N_embedding, IH.
Qed.

Lemma units_string_of_units (us : list N) :
  forallb (fun u => u <? 256)%N us = true -> units (string_of_units us) = us.
Proof.
  induction us as [|u us IH]; [reflexivity|]. simpl. intros H.
  apply andb_true_iff in H as [Hu H]. apply N.ltb_lt in Hu.
  change (units (string_of_units (u :: us)))
    with (N_of_ascii (ascii_of_N u) :: units (string_of_units us)).
  now rewrite N_ascii_embedding, IH.
Qed.

Lemma id_unit_range (u : N) : is_id_unit u = true -> (u <? 256)%N = true ∧ (u =? 37)%N = false.
Proof.
  unfold is_id_unit, is_letter_or_digit.
  rewrite !orb_true_iff, !andb_true_iff, !N.leb_le, N.eqb_eq, N.ltb_lt, N.eqb_neq. lia.
Qed.

Lemma letter_or_digit_is_id_unit (u : N) : is_letter_or_digit u = true -> is_id_unit u = true.
Proof. unfold is_id_unit. now intros ->. Qed.

Lemma id_pattern_units (us : list N) :
  id_pattern us = true -> forallb is_id_unit us = true ∧ us ≠ [].
Proof.
  destruct us as [|u us]; simpl; [discriminate|]. intros H.
  apply andb_true_iff in H as [H _]. apply andb_true_iff in H as [Hu H].
  now rewrite (letter_or_digit_is_id_unit u Hu), H.
Qed.

Lemma forallb_units (f : N -> bool) (s : string) :
  forallb f (units s) = JS.all (fun c => f (unit_of c)) s.
Proof.
  induction s as [|c s IH]; [reflexivity|].
  change (units (String c s)) with (unit_of c :: units s). simpl. now rewrite IH.
Qed.

Lemma length_units (s : string) : length (units s) = String.length s.
Proof.
  induction s as [|c s IH]; [reflexivity|].
  change (units (String c s)) with (unit_of c :: units s). simpl. now rewrite IH.
Qed.

Lemma all_impl (f g : ascii -> bool) (s : string) :
  (∀ c, f c = true -> g c = true) -> JS.all f s = true -> JS.all g s = true.
Proof.
  intros Hfg. induction s as [|c s IH]; simpl; [auto|]. intros H.
  apply andb_true_iff in H as [Hc H]. now rewrite (Hfg c Hc), IH.
Qed.

(** An id that matches the pattern holds no percent sign. *)
Lemma pattern_plain (id : string) :
  id_pattern (units id) = true ->
  JS.all (fun c => negb (unit_of c =? 37)%N) id = true ∧ JS.is_empty id = false.
Proof.
  intros H. apply id_pattern_units in H as [H Hne]. split.
  - rewrite forallb_units in H. revert H. apply all_impl. intros c Hc.
    apply id_unit_range in Hc as [_ ->]. reflexivity.
  - destruct id; [now destruct Hne | reflexivity].
Qed.

(** Reading the conversation resource of an id: the second case of the
    handler, on the id itself. *)
Lemma readResource_conversation (id : string) (this : Library.t) :
  readResource (prefix +:+ id) this
  = if JS.is_empty id then
      error "Conversation resource requires an ID (e.g. conversationlm://library/{id})"
    else
      match decodeURIComponent id with
      | None => error ("Invalid conversation identifier encoding: " +:+ id)
      | Some us =>
          if negb (id_pattern us) then
            error ("Invalid conversation identifier: " +:+ id +:+
                   ". Conversation IDs may only contain letters, numbers, and hyphens.")
          else
            match getConversation (string_of_units us) this with
            | None => error ("Conversation not found: " +:+ string_of_units us)
            | Some conversation =>
                inr [{| content_uri := prefix +:+ id;
                        content_mimeType := "application/json";
                        text := ConversationData conversation |}]
            end
      end.
Proof.
  unfold readResource.
  change (String.eqb (prefix +:+ id) LIBRARY) with false. cbv iota.
  rewrite (prefix_append prefix prefix id (prefix_refl prefix)).
  reflexivity.
Qed.

Lemma readResource_listed (id : string) (this : Library.t) (c : Entry.t) :
  getConversation id this = Some c ->
  id_pattern (units id) = true ->
  readResource (prefix +:+ id) this
  = inr [{| content_uri := prefix +:+ id;
            content_mimeType := "application/json";
            text := ConversationData c |}].
Proof.
  intros Hget Hpat. rewrite readResource_conversation.
  destruct (pattern_plain id Hpat) as [Hplain ->].
  rewrite (decodeURIComponent_plain id Hplain), Hpat. simpl.
  now rewrite string_of_units_units, Hget.
Qed.

Lemma readResource_refused (id : string) (this : Library.t) :
  JS.all (fun c => negb (unit_of c =? 37)%N) id = true ->
  id_pattern (units id) = false ->
  ∃ e, readResource (prefix +:+ id) this = inl e.
Proof.
  intros Hplain Hpat. rewrite readResource_conversation.
  destruct (JS.is_empty id); [eexists; reflexivity|].
  rewrite (decodeURIComponent_plain id Hplain), Hpat. simpl. eexists. reflexivity.
Qed.

(** X17: every resource that [list_resources] advertises can be read,
    provided the id of every listed conversation matches the pattern the
    reader imposes (a letter or digit, then at most 62 letters, digits and
    hyphens): reading its URI returns one content with that URI. *)
Theorem X17_advertised_resources_can_be_read (this : Library.t) (r : Resource) :
  (∀ c, c ∈ Library.conversations this -> id_pattern (units (Entry.id c)) = true) ->
  r ∈ listResources this ->
  ∃ body,
    readResource (uri r) this
    = inr [{| content_uri := uri r; content_mimeType := "application/json";
              text := body |}].
Proof.
  intros Hids Hr. unfold listResources in Hr.
  apply elem_of_app in Hr as [Hr|Hr]; [|apply elem_of_app in Hr as [Hr|Hr]].
  - apply list_elem_of_singleton in Hr as ->. eexists. reflexivity.
  - apply list_elem_of_fmap in Hr as (c & -> & Hc).
    destruct (getConversation (Entry.id c) this) as [c'|] eqn:Hget.
    + eexists. apply (readResource_listed _ _ c' Hget). now apply Hids.
    + apply getConversation_None in Hget. destruct Hget.
      unfold ids. apply list_elem_of_fmap. eauto.
  - destruct (getActiveConversation this) as [a|] eqn:Ha.
    + apply list_elem_of_singleton in Hr as ->.
      unfold readResource. cbn [uri metadataResource].
      change (String.eqb METADATA LIBRARY) with false.
      change (String.prefix prefix METADATA) with false.
      change (String.eqb METADATA METADATA) with true. cbv iota.
      rewrite Ha. eexists. reflexivity.
    + now apply elem_of_nil in Hr.
Qed.

(** X18: what reading a conversation resource returns. Reading
    [conversationlm://library/<id>] for an id that matches the pattern and
    names a listed conversation returns that conversation; and whenever a
    read returns a conversation, that conversation is listed, its id matches
    the pattern, and the URI is the prefix followed by an encoding of that
    id. *)
Theorem X18_conversation_resource (this : Library.t) :
  (∀ id c, getConversation id this = Some c ->
           id_pattern (units id) = true ->
           readResource (prefix +:+ id) this
           = inr [{| content_uri := prefix +:+ id;
                     content_mimeType := "application/json";
                     text := ConversationData c |}])
  ∧ (∀ uri contents content c,
       readResource uri this = inr contents ->
       content ∈ contents ->
       text content = ConversationData c ->
       c ∈ Library.conversations this
       ∧ id_pattern (units (Entry.id c)) = true
       ∧ String.prefix prefix uri = true
       ∧ decodeURIComponent (JS.drop (String.length prefix) uri)
         = Some (units (Entry.id c))).
Proof.
  split; [intros id c; apply readResource_listed|].
  intros u contents content c Hread Hin Htext. unfold readResource in Hread.
  destruct (String.eqb u LIBRARY).
  { injection Hread as <-. apply list_elem_of_singleton in Hin as ->. discriminate Htext. }
  destruct (String.prefix prefix u); cycle 1.
  { destruct (String.eqb u METADATA); [|discriminate Hread].
    destruct (getActiveConversation this); [|discriminate Hread].
    injection Hread as <-. apply list_elem_of_singleton in Hin as ->. discriminate Htext. }
  destruct (JS.is_empty _); [discriminate Hread|].
  destruct (decodeURIComponent _) as [us|]; [|discriminate Hread].
  destruct (id_pattern us) eqn:Hpat; [|discriminate Hread]. simpl in Hread.
  destruct (getConversation (string_of_units us) this) as [c'|] eqn:Hget;
    [|discriminate Hread].
  injection Hread as <-. apply list_elem_of_singleton in Hin as ->.
  simpl in Htext. injection Htext as ->.
  apply getConversation_listed in Hget as [Hc Hid].
  assert (Hus : units (Entry.id c) = us).
  { rewrite Hid. apply units_string_of_units.
    apply id_pattern_units in Hpat as [Hall _].
    apply forallb_forall. intros x Hx.
    rewrite forallb_forall in Hall. now apply id_unit_range, Hall. }
  rewrite Hus. auto.
Qed.

End ResourceFacts.

Section GeneratedIds.

Import ConversationLibrary ResourceHandlers.

Lemma alnum_letter_or_digit (c : ascii) :
  is_alnum c = true -> is_letter_or_digit (unit_of c) = true.
Proof.
  intros H. destruct c as [[] [] [] [] [] [] [] []];
    try (vm_compute in H; discriminate H); reflexivity.
Qed.

Lemma slug_char_id_unit (c : ascii) : is_slug_char c = true -> is_id_unit (unit_of c) = true.
Proof.
  intros H. destruct c as [[] [] [] [] [] [] [] []];
    try (vm_compute in H; discriminate H); reflexivity.
Qed.

Lemma uint_id_units (u : Decimal.uint) :
  JS.all (fun c => is_id_unit (unit_of c)) (NilEmpty.string_of_uint u) = true.
Proof. induction u; simpl; [reflexivity | assumption ..]. Qed.

Lemma id_units_plain (s : string) :
  JS.all (fun c => is_id_unit (unit_of c)) s = true ->
  JS.all (fun c => negb (unit_of c =? 37)%N) s = true.
Proof.
  apply all_impl. intros c Hc. apply id_unit_range in Hc as [_ ->]. reflexivity.
Qed.

(** The ids [generateId] can give are made of letters, digits and
    hyphens. *)
Lemma candidate_id_units (name : string) (k : nat) :
  JS.all (fun c => is_id_unit (unit_of c)) (candidate (slug name) k) = true.
Proof.
  destruct (slug_shape name) as (_ & Hall & _).
  apply (all_impl _ _ _ slug_char_id_unit) in Hall.
  destruct k as [|k]; [exact Hall|]. unfold candidate.
  rewrite !all_append, Hall. simpl. apply uint_id_units.
Qed.

(** Such an id, when it is not too long, matches the pattern of the
    resource reader exactly when the name has a letter or a digit. *)
Lemma candidate_pattern (name : string) (k : nat) :
  (String.length (candidate (slug name) k) <= 63)%nat ->
  id_pattern (units (candidate (slug name) k)) = has_alnum (JS.toLowerCase name).
Proof.
  intros Hlen. pose proof (candidate_id_units name k) as Hall.
  pose proof (slug_first name) as Hfirst.
  destruct (has_alnum (JS.toLowerCase name)).
  - destruct Hfirst as (c & s & Hs & Hc).
    assert (Hcand : ∃ rest, candidate (slug name) k = String c rest).
    { rewrite Hs. destruct k; simpl; [eauto|]. rewrite append_cons. eauto. }
    destruct Hcand as [rest Hcand]. rewrite Hcand in Hall, Hlen |- *.
    change (units (String c rest)) with (unit_of c :: units rest).
    cbn [id_pattern]. rewrite forallb_units, length_units.
    simpl in Hall, Hlen. apply andb_true_iff in Hall as [_ ->].
    rewrite (alnum_letter_or_digit c Hc). simpl.
    apply Nat.leb_le. lia.
  - rewrite Hfirst. destruct k; reflexivity.
Qed.

Lemma fresh_lookup (id : string) (this this' : Library.t) (c : Entry.t) :
  id ∉ ids this ->
  Library.conversations this' = (Library.conversations this ++ [c])%list ->
  Entry.id c = id ->
  getConversation id this' = Some c.
Proof.
  intros Hfresh Hcs Hid. rewrite getConversation_head, Hcs, filter_app.
  apply getConversation_None in Hfresh. rewrite getConversation_head in Hfresh.
  destruct (filter _ (Library.conversations this)); [|discriminate].
  simpl. now rewrite filter_cons_True by assumption.
Qed.

(** X19: the resource of a conversation that has just been added. The new
    entry is advertised by [list_resources] under
    [conversationlm://library/<id>]. When its id has at most 63 code units,
    reading that URI returns the entry if the lower-cased name has a letter
    from a to z or a digit, and is refused with an error if it has none. *)
Theorem X19_resource_of_an_added_conversation (io : IO) (input : AddConversationInput)
    (this : Library.t) :
  ∃ c r this',
    addConversation io input this = Some (r, this')
    ∧ Entry.name c = add_name input
    ∧ conversationResource c ∈ listResources this'
    ∧ ((String.length (Entry.id c) <= 63)%nat ->
       if has_alnum (JS.toLowerCase (add_name input))
       then readResource (uri (conversationResource c)) this'
            = inr [{| content_uri := uri (conversationResource c);
                      content_mimeType := "application/json";
                      text := ConversationData c |}]
       else ∃ e, readResource (uri (conversationResource c)) this' = inl e).
Proof.
  destruct (addConversation_effect io input this)
    as (k & r & this' & Heq & Hfresh & _ & Hcs & _).
  exists (newEntry io (candidate (slug (add_name input)) k) input), r, this'.
  split; [exact Heq|]. split; [reflexivity|]. split.
  - unfold listResources, listConversations. apply elem_of_app. right.
    apply elem_of_app. left. apply list_elem_of_fmap. eexists. split; [reflexivity|].
    rewrite Hcs. apply elem_of_app. right. now apply list_elem_of_singleton.
  - cbn [uri conversationResource Entry.id newEntry]. intros Hlen.
    pose proof (candidate_pattern (add_name input) k Hlen) as Hpat.
    destruct (has_alnum (JS.toLowerCase (add_name input))).
    + apply readResource_listed; [|exact Hpat].
      now apply (fresh_lookup _ this this').
    + apply readResource_refused; [|exact Hpat].
      apply id_units_plain, candidate_id_units.
Qed.

(** X20: completions of conversation ids. For every completion request the
    values returned are at most fifty ids of listed conversations, in their
    listed order, each containing the typed value when letter case is
    ignored, and [total] is the number of values returned. For the
    conversation template and its [id] argument, when the library lists at
    most fifty conversations every id that contains the typed value is
    returned. *)
Theorem X20_completions (ref : option Ref) (argument : option Argument)
    (this : Library.t) :
  total (complete ref argument this) = length (values (complete ref argument this))
  ∧ (length (values (complete ref argument this)) <= 50)%nat
  ∧ values (complete ref argument this) `sublist_of` ids this
  ∧ (∀ id, id ∈ values (complete ref argument this) ->
           JS.includes (JS.toLowerCase id)
             (JS.toLowerCase (default "" (argument ≫= arg_value))) = true)
  ∧ (∀ r a,
       ref = Some r -> ref_type r = Some "ref/resource" ->
       ref_uri r = Some "conversationlm://library/{id}" ->
       argument = Some a -> arg_name a = Some "id" ->
       (length (ids this) <= 50)%nat ->
       ∀ id, id ∈ ids this ->
             JS.includes (JS.toLowerCase id) (JS.toLowerCase (default "" (arg_value a)))
             = true ->
             id ∈ values (complete ref argument this)).
Proof.
  assert (Hvalues :
    values (complete ref argument this) = []
    ∨ values (complete ref argument this)
      = completeConversationIds (argument ≫= arg_value) this).
  { unfold complete. destruct ref as [r|]; [|now left].
    case_bool_decide; [|now left].
    destruct (_ && _); [now right | now left]. }
  assert (Htotal :
    total (complete ref argument this) = length (values (complete ref argument this))).
  { unfold complete. destruct ref as [r|]; [|reflexivity].
    case_bool_decide; [|reflexivity].
    destruct (_ && _); reflexivity. }
  split; [exact Htotal|]. split; [|split; [|split]].
  - destruct Hvalues as [-> | ->]; simpl; [lia|].
    unfold completeConversationIds. rewrite length_take. lia.
  - destruct Hvalues as [-> | ->]; [apply sublist_nil_l|].
    unfold completeConversationIds, listConversations.
    etrans; [apply sublist_take|]. apply sublist_filter.
  - intros id Hid. destruct Hvalues as [E | E]; rewrite E in Hid.
    + now apply elem_of_nil in Hid.
    + unfold completeConversationIds in Hid. apply subseteq_take in Hid.
      now apply list_elem_of_filter in Hid as [Hid _].
  - intros r a -> Ht Hu -> Hn Hlen id Hid Hinc.
    unfold complete. rewrite bool_decide_eq_true_2 by assumption.
    rewrite Hu. simpl. rewrite bool_decide_eq_true_2 by assumption.
    cbn [values buildCompletion]. unfold completeConversationIds, listConversations.
    rewrite take_ge.
    + apply list_elem_of_filter. split; assumption.
    + etrans; [apply length_filter|]. exact Hlen.
Qed.

End GeneratedIds.

Section Protocol.

Import ToolHandlers.

(** The calls one [askQuestion] makes: none, a session request, or a
    session request followed by the question; a call that returns has made
    both. *)
Lemma askQuestion_calls args env w :
  ∃ more,
    calls (askQuestion args env w).2 = (calls w ++ more)%list
    ∧ match (askQuestion args env w).1 with
      | inr _ =>
          ∃ u h sid, more = [CallGetOrCreateSession (session_id args) u h;
                             CallAsk sid (question args)]
      | inl _ =>
          more = []
          ∨ (∃ u h, more = [CallGetOrCreateSession (session_id args) u h])
          ∨ (∃ u h sid, more = [CallGetOrCreateSession (session_id args) u h;
                                CallAsk sid (question args)])
      end.
Proof.
  unfold askQuestion, bind, try_finally, onLibrary, onSessionManager, progress,
    record, assignConfig, get, ret, throw, SessionManager.ask.
  repeat (case_match; simplify_eq/=);
    first [ exists []; rewrite app_nil_r; split; [reflexivity | now left]
          | eexists; rewrite <- ?app_assoc; split; [reflexivity | simpl; eauto 10] ].
Qed.

(** X22: the calls one [ask_question] makes on the session manager. To the
    calls on record it adds nothing, or one session request, or one session
    request followed by one question, which is the question it was given;
    and a call that reports success has made both. *)
Theorem X22_ask_question_call_protocol (args : AskQuestionArgs) (env : AskEnv) (w : World) :
  ∃ more,
    calls (handleAskQuestion args env w).2 = (calls w ++ more)%list
    ∧ (more = []
       ∨ (∃ u h, more = [CallGetOrCreateSession (session_id args) u h])
       ∨ (∃ u h sid, more = [CallGetOrCreateSession (session_id args) u h;
                             CallAsk sid (question args)]))
    ∧ (success (handleAskQuestion args env w).1 = true ->
       ∃ u h sid, more = [CallGetOrCreateSession (session_id args) u h;
                          CallAsk sid (question args)]).
Proof.
  destruct (askQuestion_calls args env w) as (more & Hcalls & Hmore).
  exists more. rewrite handleAskQuestion_world. split; [exact Hcalls|].
  unfold handleAskQuestion.
  destruct (askQuestion args env w) as [[e|res] w']; simpl in *.
  - split; [exact Hmore|]. unfold askQuestionCatch.
    destruct (isRateLimit e); discriminate.
  - split; [auto | auto].
Qed.

End Protocol.

Section ActiveConversation.

Import ConversationLibrary Library.

(** X21: the active conversation in a library state reachable from the
    empty library. With no active id [getActiveConversation] gives nothing.
    With an active id that is not the empty string it gives a listed
    conversation with that id. With the empty string as active id it gives
    nothing, although a conversation with that id is listed. *)
Theorem X21_active_conversation_of_a_reachable_library (this : Library.t) :
  reachable this ->
  match active_conversation_id this with
  | None => getActiveConversation this = None
  | Some a =>
      if JS.is_empty a
      then getActiveConversation this = None ∧ "" ∈ ids this
      else ∃ c, getActiveConversation this = Some c
                ∧ Entry.id c = a ∧ c ∈ conversations this
  end.
Proof.
  intros Hreach. destruct (reachable_library_ok this Hreach) as [_ Hact].
  unfold active_ok in Hact. unfold getActiveConversation, JS.truthy.
  destruct (active_conversation_id this) as [a|]; [|reflexivity].
  destruct a as [|x a]; simpl; [auto|].
  destruct (getConversation (String x a) this) as [c|] eqn:Hget.
  - exists c. apply getConversation_listed in Hget as [Hc Hid]. auto.
  - apply getConversation_None in Hget. contradiction.
Qed.

End ActiveConversation.

(** ** The further properties at the sample data *)

Section FurtherWitnesses.

Import ConversationLibrary Library ToolHandlers.

(** X3 at the sample: selecting the second Docs conversation makes it the
    active one. *)
Lemma X3_witness :
  ∃ this',
    selectConversation Sample.clock0 "docs-1" Sample.two_docs
    = (inr (touch Sample.clock0 Cases.second_docs), this')
    ∧ getActiveConversation this' = Some (touch Sample.clock0 Cases.second_docs).
Proof.
  destruct (X3_selected_conversation_is_active Sample.clock0 "docs-1" Sample.two_docs
              Cases.second_docs eq_refl eq_refl)
    as (this' & H1 & _ & _ & _ & H5 & _).
  exists this'. split; [exact H1|]. apply H5. discriminate.
Defined.

(** X4 at the sample: the first Docs conversation is removed once. *)
Lemma X4_witness :
  ∃ this',
    removeConversation Sample.clock0 "docs" Sample.two_docs = (inr true, this')
    ∧ getConversation "docs" this' = None
    ∧ removeConversation Sample.clock0 "docs" this' = (inr false, this').
Proof.
  destruct (X4_removed_conversation_is_gone Sample.clock0 "docs" Sample.two_docs
              Cases.first_docs eq_refl eq_refl)
    as (this' & H1 & H2 & _ & _ & H5).
  exists this'. split; [exact H1|]. split; [exact H2 | apply H5].
Defined.

(** X5 at the sample: one use of the first Docs conversation. *)
Lemma X5_witness :
  ∃ r this',
    incrementUseCount Sample.clock0 "docs" Sample.two_docs = (r, this')
    ∧ total_queries (getStats this') = 1%nat.
Proof.
  assert (Hsafe : (Z.of_nat (total_queries (getStats Sample.two_docs))
                   < JS.MAX_SAFE_INTEGER)%Z) by (vm_compute; reflexivity).
  destruct (X5_use_is_counted_once Sample.clock0 "docs" Sample.two_docs
              Cases.first_docs Hsafe eq_refl)
    as (r & this' & H1 & _ & _ & _ & _ & _ & H7).
  exists r, this'. split; [exact H1 | exact H7].
Defined.

(** X6 at the sample: a new name, and an empty description that changes
    nothing. *)
Lemma X6_witness :
  ∃ e r this',
    updateConversation Sample.clock0 Cases.rename Sample.two_docs = (r, this')
    ∧ getConversation "docs" this' = Some e
    ∧ Entry.name e = "Handbook"
    ∧ Entry.description e = "Project documentation".
Proof.
  destruct (X6_update_keeps_what_is_not_given Sample.clock0 Cases.rename Sample.two_docs
              Cases.first_docs eq_refl)
    as (e & r & this' & H1 & _ & H3 & _ & _ & _ & H7 & H8 & _).
  exists e, r, this'. split; [exact H1|]. split; [exact H3|].
  split; [exact H7 | exact H8].
Defined.

(** X9 at the sample: a timeout given with its unit. *)
Lemma X9_witness :
  Config.parseInteger (Some (JS.of_nat 4500 +:+ "ms")) (JS.Finite 30000)
  = JS.Finite 4500.
Proof.
  apply (X9_decimal_values_are_read_back 4500 "ms" (JS.Finite 30000)).
  - vm_compute. discriminate.
  - reflexivity.
Defined.

(** X10 at the sample: no variable is set. *)
Lemma X10_witness :
  Config.buildConfig Cases.no_environment Cases.paths = Config.DEFAULTS Cases.paths.
Proof.
  exact (proj2 (X10_empty_environment_gives_defaults Cases.no_environment
                  (Config.DEFAULTS Cases.paths) Cases.paths
                  (fun k => or_introl eq_refl))).
Defined.

(** X11 at the sample: topics with stray blanks and commas. *)
Lemma X11_witness :
  Forall is_element (Config.parseArray (Some " api , , docs,") ["General topics"]).
Proof.
  apply (X11_list_values_are_trimmed " api , , docs," ["General topics"]).
  discriminate.
Defined.

(** X14 at the sample: a question that names the second Docs conversation
    is counted once. *)
Lemma X14_witness :
  total_queries
    (getStats (library (handleAskQuestion Sample.ask_docs Sample.answering Sample.world).2))
  = 1%nat.
Proof.
  assert (Hsafe : (Z.of_nat (total_queries (getStats (library Sample.world)))
                   < JS.MAX_SAFE_INTEGER)%Z) by (vm_compute; reflexivity).
  exact (X14_ask_question_counts_uses Sample.ask_docs Sample.answering Sample.world Hsafe).
Defined.

(** X13 at the sample: only the legacy [show_browser] is given. *)
Lemma X13_witness :
  overrideHeadless (Some true) None = Some true
  ∧ Config.headless
      (Config.applyBrowserOptions (Config.DEFAULTS Cases.paths) None (Some true))
    = false.
Proof.
  destruct (X13_visibility_settings_agree (Config.DEFAULTS Cases.paths) (Some true) None
              true (or_intror eq_refl) (or_introl eq_refl) (or_introl eq_refl))
    as [H | (H & _)]; [exact H | discriminate H].
Defined.

(** X15 at the sample: an id the library does not have. *)
Lemma X15_witness :
  handleSelectConversation "manual" Sample.clock0 Sample.world
  = (failed "Conversation not found: manual", Sample.world).
Proof.
  exact (proj1 (proj2 (X15_unknown_ids_are_reported "manual" Sample.clock0 Sample.world
                         eq_refl))).
Defined.

(** X17 at the sample: the resource of the second Docs conversation. *)
Lemma X17_witness :
  ∃ body,
    ResourceHandlers.readResource "conversationlm://library/docs-1" Sample.two_docs
    = inr [{| ResourceHandlers.content_uri := "conversationlm://library/docs-1";
              ResourceHandlers.content_mimeType := "application/json";
              ResourceHandlers.text := body |}].
Proof.
  apply (X17_advertised_resources_can_be_read Sample.two_docs
           (ResourceHandlers.conversationResource Cases.second_docs)).
  - intros c Hc. unfold Sample.two_docs in Hc. cbn [conversations] in Hc.
    apply elem_of_cons in Hc as [-> | Hc]; [reflexivity|].
    apply elem_of_cons in Hc as [-> | Hc]; [reflexivity|].
    now apply elem_of_nil in Hc.
  - unfold ResourceHandlers.listResources. apply elem_of_app. right.
    apply elem_of_app. left. apply list_elem_of_fmap. exists Cases.second_docs.
    split; [reflexivity|]. unfold listConversations, Sample.two_docs.
    cbn [conversations]. apply list_elem_of_further, list_elem_of_here.
Defined.

(** X21 at the sample: the library with two Docs conversations. *)
Lemma X21_witness :
  ∃ c, getActiveConversation Sample.two_docs = Some c ∧ Entry.id c = "docs"
       ∧ c ∈ conversations Sample.two_docs.
Proof.
  exact (X21_active_conversation_of_a_reachable_library Sample.two_docs
           two_docs_reachable).
Defined.

End FurtherWitnesses.

(** ** Further worked examples *)

Section FurtherExamples.

Import ConversationLibrary ResourceHandlers.

(** Two [ask_question] calls on the sample world, the first asking for a
    visible browser. One after the other they leave [CONFIG] headless, as it
    was. When the second starts while the first waits for its session, the
    second copies a [CONFIG] that carries the option of the first and writes
    it back last: both calls have finished and [CONFIG] is no longer
    headless. *)
Example overlapping_calls_keep_the_options_of_the_first :
  let first := ToolHandlers.Await (ToolHandlers.askQuestionSteps Cases.ask_visible
                                     Sample.answering) in
  let second := ToolHandlers.Await (ToolHandlers.askQuestionSteps (Cases.ask None None)
                                      Sample.answering) in
  let headless_after schedule :=
    let '(a, b, w) := ToolHandlers.interleave schedule first second Sample.world in
    (ToolHandlers.finished a, ToolHandlers.finished b,
     Config.headless (ToolHandlers.CONFIG w)) in
  Config.headless (ToolHandlers.CONFIG Sample.world) = true
  ∧ headless_after Cases.in_turn = (true, true, true)
  ∧ headless_after Cases.overlapping = (true, true, false).
Proof. repeat split; vm_compute; reflexivity. Qed.

(** The first conversation of a library, added under a name without letter
    or digit, gets the empty id, which becomes the active id; no active
    conversation is then found. *)
Example unnamed_conversation_is_not_found_active :
  let input := {| add_url := "https://gemini.google.com/app/1";
                  add_name := "?!";
                  add_description := "";
                  add_topics := [];
                  add_content_types := None;
                  add_use_cases := None;
                  add_tags := None |} in
  (fun out => (ids out.2, Library.active_conversation_id out.2, getActiveConversation out.2))
    <$> addConversation Sample.clock0 input (emptyLibrary Sample.clock0)
  = Some ([""], Some "", None).
Proof. vm_compute. reflexivity. Qed.

Example decodeURIComponent_cases :
  decodeURIComponent "docs-1" = Some (units "docs-1")
  ∧ decodeURIComponent "%64ocs" = Some (units "docs")
  ∧ decodeURIComponent "%E2%82%AC" = Some [8364%N]
  ∧ decodeURIComponent "%F0%9F%92%A1" = Some [55357%N; 56481%N]
  ∧ decodeURIComponent "100%" = None
  ∧ decodeURIComponent "%C0%80" = None
  ∧ decodeURIComponent "%ED%A0%80" = None.
Proof. repeat split; vm_compute; reflexivity. Qed.

Example readResource_cases :
  readResource "conversationlm://library/%64ocs" Sample.two_docs
  = inr [{| content_uri := "conversationlm://library/%64ocs";
            content_mimeType := "application/json";
            text := ConversationData Cases.first_docs |}]
  ∧ readResource "conversationlm://library/" Sample.two_docs
    = error "Conversation resource requires an ID (e.g. conversationlm://library/{id})"
  ∧ readResource "conversationlm://library/-1" Sample.two_docs
    = error "Invalid conversation identifier: -1. Conversation IDs may only contain letters, numbers, and hyphens."
  ∧ readResource "conversationlm://library/manual" Sample.two_docs
    = error "Conversation not found: manual"
  ∧ readResource "conversationlm://sessions" Sample.two_docs
    = error "Unknown resource: conversationlm://sessions".
Proof. repeat split; vm_compute; reflexivity. Qed.

Example completion_of_docs :
  complete (Some {| ref_type := Some "ref/resource";
                    ref_uri := Some "conversationlm://library/{id}" |})
    (Some {| arg_name := Some "id"; arg_value := Some "S-1" |}) Sample.two_docs
  = {| values := ["docs-1"]; total := 1 |}.
Proof. vm_compute. reflexivity. Qed.

Example most_used_of_the_sample :
  most_used_conversation (getStats Sample.two_docs) = None
  ∧ most_used_conversation
      (getStats (incrementUseCount Sample.clock0 "docs-1" Sample.two_docs).2)
    = Some "docs-1".
Proof. split; vm_compute; reflexivity. Qed.

End FurtherExamples.

(** ** Construction of the library *)

Section Construction.

Import ConversationLibraryInit.

(** X23: what constructing the library gives. The constructor always comes
    back. A library file that is read and parsed is the library, and nothing
    is written. Without such a file the constructor returns only when the
    configuration names no conversation and the save succeeds, and the
    library is then the empty library; when the configuration names a
    conversation (a URL, and a description other than the placeholder text)
    it throws a [TypeError], whatever the disk does, so that no first entry
    is ever made from the configuration. *)
Theorem X23_constructed_library (CONFIG : Config.t) (io : IO)
    (file : option (Thrown + Library.t)) :
  ∃ out,
    constructor CONFIG io file = Some out
    ∧ match file with
      | Some (inr library) => out = inr library
      | _ =>
          if hasConfig CONFIG then ∃ message, out = inl (ThrownError TypeError message)
          else match write_error io with
               | Some err => out = inl err
               | None => out = inr (ConversationLibrary.emptyLibrary io)
               end
      end
    ∧ (∀ library, out = inr library ->
         file = Some (inr library) ∨ library = ConversationLibrary.emptyLibrary io).
Proof.
  unfold constructor, loadLibrary, createDefaultLibrary, generateId.
  destruct file as [[e|library]|]; simpl.
  - destruct (hasConfig CONFIG); simpl.
    + eexists. split; [reflexivity|]. split; [eauto | discriminate].
    + destruct (write_error io); eexists; (split; [reflexivity|]);
        (split; [reflexivity|]); intros l [= <-]. now right.
  - eexists. split; [reflexivity|]. split; [reflexivity|]. intros l [= <-]. now left.
  - destruct (hasConfig CONFIG); simpl.
    + eexists. split; [reflexivity|]. split; [eauto | discriminate].
    + destruct (write_error io); eexists; (split; [reflexivity|]);
        (split; [reflexivity|]); intros l [= <-]. now right.
Qed.

(** X24: with [CONVERSATION_URL] set to a non-empty value,
    [CONVERSATION_DESCRIPTION] unset, and no library file that can be read
    and parsed, constructing the library over the configuration built from
    the environment throws a [TypeError]. *)
Theorem X24_configured_url_without_a_library_file (env : Config.Env) (paths : Config.Paths)
    (io : IO) (file : option (Thrown + Library.t)) (url : string) :
  env "CONVERSATION_URL" = Some url ->
  url ≠ "" ->
  env "CONVERSATION_DESCRIPTION" = None ->
  (∀ library, file ≠ Some (inr library)) ->
  ∃ message,
    constructor (Config.buildConfig env paths) io file
    = Some (inl (ThrownError TypeError message)).
Proof.
  intros Hurl Hne Hdesc Hfile.
  assert (Hc : hasConfig (Config.buildConfig env paths) = true).
  { unfold hasConfig, Config.buildConfig, Config.applyEnvOverrides.
    cbn [Config.geminiUrl Config.conversationDescription].
    rewrite Hurl, Hdesc. destruct url as [|c url]; [now destruct Hne | reflexivity]. }
  unfold constructor, loadLibrary, createDefaultLibrary, generateId. rewrite Hc.
  destruct file as [[e|library]|]; simpl; eauto.
  now destruct (Hfile library).
Qed.

(** X24 at the sample: only the URL is configured, and there is no
    library file. *)
Lemma X24_witness :
  ∃ message,
    constructor
      (Config.buildConfig
         (fun k => if String.eqb k "CONVERSATION_URL"
                   then Some "https://gemini.google.com/app/docs" else None)
         Cases.paths)
      Sample.clock0 None
    = Some (inl (ThrownError TypeError message)).
Proof.
  apply (X24_configured_url_without_a_library_file _ Cases.paths Sample.clock0 None
           "https://gemini.google.com/app/docs").
  - reflexivity.
  - discriminate.
  - reflexivity.
  - discriminate.
Defined.

End Construction.
